(** * rx-player, [src/utils/retry.js]: retry with backoff

  A shallow embedding of [debounce], [retryWithBackoff] and
  [retryableFuncWithBackoff].  The closure variables [retryCount] and
  [timer] become an explicit store, the callbacks become functions on that
  store, and the run of a subscription is a function from the behaviour of
  the wrapped producer to a time-stamped log of everything that happens.

  Conventions.  Instants and delays are integers (milliseconds), counts are
  integers.  What the code leaves to its environment is modelled as follows.
  - RxJS: [catch] forwards values and completion, hands an error to its
    callback and subscribes to what the callback returns in place of the
    failed producer; a thrown error reaches the subscriber;
    [timer(d).mergeMap(f)] runs [f] once when the host timer set for [d]
    ms fires; unsubscribing disposes of whatever is subscribed at that
    moment.
  - Host timers ([setTimeout], and the one under the RxJS [timer]): a
    negative delay counts as 0, and a delay that does not fit in a signed
    32-bit integer is replaced by 1 ms ([hostDelay]).  A callback set with
    [setTimeout] runs once it is due, before any notification stamped with
    the same or a later instant.
  - The wrapped producer: a list gives what its successive instantiations
    do (values, then an error, a completion or nothing more), with the
    time each step takes.
  - [shouldRetry], [errorSelector] and [onRetry] return normally.

  Two more pieces of the player follow the retry engine, each in a module
  of its own with its conventions: the image tip of the demo's
  [Progressbar] component, and the parser of [src/core/time-fragment.js].
  There numbers are IEEE 754 doubles, as in the source. *)

From Stdlib Require Import ZArith List Bool Lia.
From Stdlib Require PrimFloat String Ascii FloatAxioms SpecFloat FloatOps.
Import ListNotations.
Local Open Scope Z_scope.

(** ** Data *)

Section Retry.

(** Errors, values and the arguments of the wrapped function are opaque. *)
Context {Err Val Args : Type}.

(** [getBackedoffDelay] is imported from [./backoff], which is not part of
    the sources at hand: it is a parameter.  Its result is jittered with
    [Math.random]; the first argument is the instant of the call and stands
    for the draw made there, the other two are the arguments of the source
    ([retryDelay], [retryCount]). *)
Variable getBackedoffDelay : Z -> Z -> Z -> Z.

(** The [options] object.  [shouldRetry] and [errorSelector] are optional
    functions; [onRetry] is an optional hook whose calls are logged, so only
    its presence is recorded. *)
Record Options := mkOptions {
  retryDelay : Z;
  totalRetry : Z;
  resetDelay : Z;
  shouldRetry : option (Err -> bool);
  errorSelector : option (Err -> Z -> Err);
  onRetry : bool
}.

(** The variables captured by the callbacks: [retryCount] (lines 43, 94)
    and the [timer] variable of [debounce] (line 13).  A timeout handle is
    identified with the instant at which it is due while it is pending;
    [None] is the initial [0], or a handle that has fired already
    ([clearTimeout] does nothing on such a handle). *)
Record Closure := mkClosure {
  retryCount : Z;
  timer : option Z
}.

(** What can be observed, each entry stamped with its instant (ms). *)
Inductive Event :=
| EvSubscribe                          (* the producer is instantiated *)
| EvNext (v : Val)                     (* a value reaches the caller *)
| EvComplete                           (* completion reaches the caller *)
| EvError (e : Err)                    (* an error reaches the caller *)
| EvCatch (error : Err) (count : Z)    (* the catch callback is entered, [retryCount] holding [count] *)
| EvOnRetry (error : Err) (count : Z)  (* [onRetry(error, count)] *)
| EvTimer (fuzzedDelay : Z)            (* [timer(fuzzedDelay)] is started *)
| EvTouch                              (* [debounceRetryCount()] *)
| EvReset                              (* the debounced [retryCount = 0] runs *)
| EvUnsubscribe.                       (* the caller unsubscribes *)

Definition Trace := list (Z * Event).

(** One instantiation of the wrapped producer: what it sends and after how
    long (a negative gap counts as none). *)
Inductive Producer :=
| Next (dt : Z) (v : Val) (rest : Producer)
| Fail (dt : Z) (error : Err)
| Done (dt : Z)
| Never.

(** How the subscription to one instantiation ends. *)
Inductive Ending :=
| Failed (t : Z) (error : Err)
| Completed
| Cancelled
| Silent.

(** Result of the catch callback: it throws, or it returns the delayed
    observable. *)
Inductive Decision :=
| Throw (e : Err)
| Delay (fuzzedDelay : Z).

(** ** Host timers *)

(** After how long a host timer set for [delay] ms fires: the host keeps
    the delay in a signed 32-bit integer and sets it to 1 when it is
    larger than [2^31 - 1]; a negative delay counts as 0. *)
Definition hostDelay (delay : Z) : Z :=
  if 2 ^ 31 <=? delay then 1 else Z.max 0 delay.

(** ** [debounce] (lines 12-20) *)

(** The arrow function returned by [debounce(fn, delay)], called at [now]:
    a pending timeout is cleared and a new one is set. *)
Definition debounce (delay now : Z) (timer : option Z) : option Z :=
  match timer with
  | Some _ => Some (now + hostDelay delay)   (* clearTimeout(timer); setTimeout *)
  | None => Some (now + hostDelay delay)     (* setTimeout *)
  end.

(** The timeout set by [debounce] runs [() => retryCount = 0] once it is
    due.  It is run before anything that happens at [now] or later. *)
Definition runTimers (now : Z) (c : Closure) : Trace * Closure :=
  match timer c with
  | Some due =>
      if due <=? now then ([(due, EvReset)], mkClosure 0 None) else ([], c)
  | None => ([], c)
  end.

(** A pending timeout fires eventually when nothing else happens. *)
Definition drainTimers (c : Closure) : Trace * Closure :=
  match timer c with
  | Some due => ([(due, EvReset)], mkClosure 0 None)
  | None => ([], c)
  end.

(** [debounceRetryCount && debounceRetryCount()] (lines 65, 117);
    [debounceRetryCount] is defined only when [resetDelay > 0]
    (lines 44-47, 95-98). *)
Definition debounceRetryCount (o : Options) (now : Z) (c : Closure)
  : Trace * Closure :=
  if 0 <? resetDelay o
  then ([(now, EvTouch)],
        mkClosure (retryCount c) (debounce (resetDelay o) now (timer c)))
  else ([], c).

(** ** The subscription to one instantiation of the producer *)

(** The caller unsubscribes at [cancel] (if at all): whatever is due no
    later than that happens first. *)
Definition unsubscribedBefore (cancel : option Z) (t : Z) : option Z :=
  match cancel with
  | Some u => if u <? t then Some u else None
  | None => None
  end.

Definition teardown (u : Z) (c : Closure) : Trace * Closure * Ending :=
  let '(r, c') := runTimers u c in
  (r ++ [(u, EvUnsubscribe)], c', Cancelled).

(** Values and completion are forwarded unchanged; an error is handed to
    the catch callback. *)
Fixpoint play (cancel : option Z) (p : Producer) (now : Z) (c : Closure)
  : Trace * Closure * Ending :=
  match p with
  | Next dt v rest =>
      let t := now + Z.max 0 dt in
      match unsubscribedBefore cancel t with
      | Some u => teardown u c
      | None =>
          let '(r, c1) := runTimers t c in
          let '(tr, c2, ending) := play cancel rest t c1 in
          (r ++ (t, EvNext v) :: tr, c2, ending)
      end
  | Fail dt error =>
      let t := now + Z.max 0 dt in
      match unsubscribedBefore cancel t with
      | Some u => teardown u c
      | None =>
          let '(r, c1) := runTimers t c in
          (r, c1, Failed t error)
      end
  | Done dt =>
      let t := now + Z.max 0 dt in
      match unsubscribedBefore cancel t with
      | Some u => teardown u c
      | None =>
          let '(r, c1) := runTimers t c in
          (r ++ [(t, EvComplete)], c1, Completed)
      end
  | Never =>
      match cancel with
      | Some u => teardown u c
      | None => let '(r, c1) := drainTimers c in (r, c1, Silent)
      end
  end.

(** ** The catch callback (lines 49-68 and 101-120, the same text) *)

(** [!shouldRetry || shouldRetry(error)] *)
Definition wantRetry (o : Options) (error : Err) : bool :=
  match shouldRetry o with
  | None => true
  | Some f => f error
  end.

(** [if (errorSelector) throw errorSelector(error, retryCount); else throw error] *)
Definition thrown (o : Options) (error : Err) (count : Z) : Err :=
  match errorSelector o with
  | Some f => f error count
  | None => error
  end.

(** [if (onRetry) onRetry(error, retryCount)] *)
Definition onRetryHook (o : Options) (now : Z) (error : Err) (count : Z)
  : Trace :=
  if onRetry o then [(now, EvOnRetry error count)] else [].

(** The callback up to the computation of [fuzzedDelay] (lines 50-63,
    102-115).  In [!wantRetry || retryCount++ >= totalRetry] the right
    operand is only evaluated when [wantRetry] holds, and it increments
    [retryCount] whatever the comparison of its old value gives. *)
Definition retryDecision (o : Options) (now : Z) (error : Err) (c : Closure)
  : Trace * Closure * Decision :=
  let entry := (now, EvCatch error (retryCount c)) in
  if wantRetry o error then
    let c' := mkClosure (retryCount c + 1) (timer c) in
    if totalRetry o <=? retryCount c then
      ([entry], c', Throw (thrown o error (retryCount c')))
    else
      let hook :=
        if onRetry o then [(now, EvOnRetry error (retryCount c'))] else [] in
      (entry :: hook, c',
       Delay (getBackedoffDelay now (retryDelay o) (retryCount c')))
  else
    ([entry], c, Throw (thrown o error (retryCount c))).

(** The whole callback, entered at [t].  A thrown error reaches the
    caller.  Otherwise [timer(fuzzedDelay).mergeMap(...)] is subscribed in
    place of the failed producer: unsubscribing disposes of the timer;
    when it fires, the [mergeMap] callback calls [debounceRetryCount] and
    returns [again], which is [source] in [retryWithBackoff] and
    [doRetry(...args)] in [retryableFuncWithBackoff]. *)
Definition catchCallback (o : Options) (cancel : option Z)
    (again : Z -> Closure -> Trace * Closure)
    (t : Z) (error : Err) (c : Closure) : Trace * Closure :=
  let '(log, c1, decision) := retryDecision o t error c in
  match decision with
  | Throw e => (log ++ [(t, EvError e)], c1)
  | Delay fuzzedDelay =>
      let due := t + hostDelay fuzzedDelay in
      match unsubscribedBefore cancel due with
      | Some u =>
          let '(r, c2) := runTimers u c1 in
          (log ++ (t, EvTimer fuzzedDelay) :: r ++ [(u, EvUnsubscribe)], c2)
      | None =>
          let '(r, c2) := runTimers due c1 in
          let '(touch, c3) := debounceRetryCount o due c2 in
          let '(tr, c4) := again due c3 in
          (log ++ (t, EvTimer fuzzedDelay) :: r ++ touch ++ tr, c4)
      end
  end.

(** ** [retryableFuncWithBackoff] (lines 84-122) *)

(** [doRetry(...args)], called at [now] on the closure [c].  [attempts]
    lists what the observables returned by the successive calls
    [fn(...args)] do; past its end they stay silent. *)
Fixpoint doRetry (o : Options) (cancel : option Z) (attempts : list Producer)
    (now : Z) (c : Closure) : Trace * Closure :=
  match attempts with
  | [] =>
      let '(tr, c1, _) := play cancel Never now c in
      ((now, EvSubscribe) :: tr, c1)
  | p :: later =>
      let '(tr, c1, ending) := play cancel p now c in
      match ending with
      | Failed t error =>
          let '(tr', c2) :=
            catchCallback o cancel (doRetry o cancel later) t error c1 in
          ((now, EvSubscribe) :: tr ++ tr', c2)
      | _ => ((now, EvSubscribe) :: tr, c1)
      end
  end.

(** ** [retryWithBackoff] (lines 33-69) *)

(** A subscription, made at [now], to [source], the observable that
    [obs.catch] hands to its callback: [obs] with the callback installed.
    [obs] lists what the successive instantiations of the producer do; past
    its end they stay silent. *)
Fixpoint source (o : Options) (cancel : option Z) (obs : list Producer)
    (now : Z) (c : Closure) : Trace * Closure :=
  match obs with
  | [] =>
      let '(tr, c1, _) := play cancel Never now c in
      ((now, EvSubscribe) :: tr, c1)
  | p :: later =>
      let '(tr, c1, ending) := play cancel p now c in
      match ending with
      | Failed t error =>
          let '(tr', c2) :=
            catchCallback o cancel (source o cancel later) t error c1 in
          ((now, EvSubscribe) :: tr ++ tr', c2)
      | _ => ((now, EvSubscribe) :: tr, c1)
      end
  end.

(** ** The two wrappers and their uses *)

(** One use of a wrapper: a subscription to the returned observable, or a
    call of the returned function together with the subscription to its
    result. *)
Record Use (In : Type) := mkUse {
  input : In;            (* the arguments of the call *)
  start : Z;             (* when it is made *)
  cancelAt : option Z    (* when the caller unsubscribes, if ever *)
}.
Arguments mkUse {In} _ _ _.
Arguments input {In} _.
Arguments start {In} _.
Arguments cancelAt {In} _.

(** What a call of [retryWithBackoff] or [retryableFuncWithBackoff]
    returns: the variables it has just allocated, and the code that uses
    them.  [body w u c] is the use [u] on the variables as they are when
    it starts: what the earlier uses, and the timeout if it has fired
    since, have left. *)
Record Wrapper (In : Type) := mkWrapper {
  cells : Closure;
  body : Use In -> Closure -> Trace * Closure
}.
Arguments mkWrapper {In} _ _.
Arguments cells {In} _.
Arguments body {In} _ _ _.

(** [let retryCount = 0] and the [debounce] call are statements of the
    outer function (lines 43-47): they run once for each call of
    [retryWithBackoff], not once for each subscription. *)
Definition retryWithBackoff (obs : list Producer) (o : Options)
  : Wrapper unit :=
  {| cells := mkClosure 0 None;
     body := fun u c => source o (cancelAt u) obs (start u) c |}.

(** Likewise lines 94-98 run once for each call of
    [retryableFuncWithBackoff], before [doRetry] is returned. *)
Definition retryableFuncWithBackoff (fn : Args -> list Producer)
    (o : Options) : Wrapper Args :=
  {| cells := mkClosure 0 None;
     body := fun u c => doRetry o (cancelAt u) (fn (input u)) (start u) c |}.

(** Successive uses of one wrapper, each made after the previous one has
    ended: they read and write the same variables.  A timeout that has
    fallen due since the previous use fires before the next one starts; its
    entry opens the log of that use.  (Uses that overlap in time share the
    variables as well, their steps interleaved: they are not modelled, and
    [inTurn] tells whether a list of uses is free of them.) *)
Fixpoint uses {In : Type} (w : Wrapper In) (us : list (Use In))
    (c : Closure) : list Trace * Closure :=
  match us with
  | [] => ([], c)
  | u :: later =>
      let '(r, c0) := runTimers (start u) c in
      let '(tr, c1) := body w u c0 in
      let '(trs, c2) := uses w later c1 in
      ((r ++ tr) :: trs, c2)
  end.

Definition run {In : Type} (w : Wrapper In) (us : list (Use In))
  : list Trace * Closure :=
  uses w us (cells w).

(** The first use of a wrapper. *)
Definition once {In : Type} (w : Wrapper In) (u : Use In)
  : Trace * Closure :=
  body w u (cells w).

(** ** Reading a log *)

Definition isSubscribe (x : Z * Event) : bool :=
  match snd x with EvSubscribe => true | _ => false end.
Definition isTimer (x : Z * Event) : bool :=
  match snd x with EvTimer _ => true | _ => false end.
Definition isTouch (x : Z * Event) : bool :=
  match snd x with EvTouch => true | _ => false end.
Definition isReset (x : Z * Event) : bool :=
  match snd x with EvReset => true | _ => false end.
Definition isError (x : Z * Event) : bool :=
  match snd x with EvError _ => true | _ => false end.
Definition isOnRetry (x : Z * Event) : bool :=
  match snd x with EvOnRetry _ _ => true | _ => false end.
Definition isProduced (x : Z * Event) : bool :=
  match snd x with EvNext _ | EvComplete => true | _ => false end.

Definition isCatch (x : Z * Event) : bool :=
  match snd x with EvCatch _ _ => true | _ => false end.

(** What the subscription to the producer itself logs. *)
Definition isForwarded (x : Z * Event) : bool :=
  match snd x with
  | EvReset | EvNext _ | EvComplete | EvUnsubscribe => true
  | _ => false
  end.

Definition count (f : Z * Event -> bool) (tr : Trace) : nat :=
  length (filter f tr).

(** Instantiations of the producer, retries scheduled, touches and resets
    of the debounce timer. *)
Definition attemptsMade := count isSubscribe.
Definition retries := count isTimer.
Definition touches := count isTouch.
Definition resets := count isReset.

(** The errors that reached the caller. *)
Fixpoint errors (tr : Trace) : list Err :=
  match tr with
  | [] => []
  | (_, EvError e) :: tr' => e :: errors tr'
  | _ :: tr' => errors tr'
  end.

(** The calls of [onRetry]: error and count. *)
Fixpoint onRetryCalls (tr : Trace) : list (Err * Z) :=
  match tr with
  | [] => []
  | (_, EvOnRetry e n) :: tr' => (e, n) :: onRetryCalls tr'
  | _ :: tr' => onRetryCalls tr'
  end.

(** The timers started: instant and delay. *)
Fixpoint timers (tr : Trace) : list (Z * Z) :=
  match tr with
  | [] => []
  | (t, EvTimer d) :: tr' => (t, d) :: timers tr'
  | _ :: tr' => timers tr'
  end.

(** The error an instantiation ends with, if it ends with one. *)
Fixpoint failure (p : Producer) : option Err :=
  match p with
  | Next _ _ rest => failure rest
  | Fail _ error => Some error
  | Done _ | Never => None
  end.


(** How long an instantiation lasts. *)
Fixpoint duration (p : Producer) : Z :=
  match p with
  | Next dt _ rest => Z.max 0 dt + duration rest
  | Fail dt _ | Done dt => Z.max 0 dt
  | Never => 0
  end.



(** [x] directly followed by [y] in [l]. *)
Definition adjacent {A : Type} (x y : A) (l : list A) : Prop :=
  exists a b, l = a ++ x :: y :: b.

(** ** More readings of a log *)

(** What ends a use for the caller: an error, the completion, or its own
    unsubscription. *)
Definition isTerminal (x : Z * Event) : bool :=
  match snd x with
  | EvError _ | EvComplete | EvUnsubscribe => true
  | _ => false
  end.

(** The entries of the catch callback for an error that [shouldRetry]
    accepts: the ones that run [retryCount++]. *)
Definition isAccepted (o : Options) (x : Z * Event) : bool :=
  match snd x with
  | EvCatch e _ => wantRetry o e
  | _ => false
  end.

(** The values that reached the caller, in order. *)
Fixpoint values (tr : Trace) : list Val :=
  match tr with
  | [] => []
  | (_, EvNext v) :: tr' => v :: values tr'
  | _ :: tr' => values tr'
  end.

(** The values an instantiation sends before it ends. *)
Fixpoint sent (p : Producer) : list Val :=
  match p with
  | Next _ v rest => v :: sent rest
  | Fail _ _ | Done _ | Never => []
  end.

(** The instants at which the producer was instantiated. *)
Fixpoint subscriptions (tr : Trace) : list Z :=
  match tr with
  | [] => []
  | (t, EvSubscribe) :: tr' => t :: subscriptions tr'
  | _ :: tr' => subscriptions tr'
  end.



(** The entries of the catch callback: instant and error. *)
Fixpoint caught (tr : Trace) : list (Z * Err) :=
  match tr with
  | [] => []
  | (t, EvCatch e _) :: tr' => (t, e) :: caught tr'
  | _ :: tr' => caught tr'
  end.

(** The failures that the instantiations made at the instants [subs] hand
    to the catch callback: the instantiation made at [s] fails at
    [s + duration p] when [p] ends with an error, unless the caller has
    left before. *)
Definition failuresMet (cancel : option Z) (subs : list Z)
    (script : list Producer) : list (Z * Err) :=
  flat_map
    (fun sp =>
       match failure (snd sp) with
       | Some e =>
           match unsubscribedBefore cancel (fst sp + duration (snd sp)) with
           | None => [(fst sp + duration (snd sp), e)]
           | Some _ => []
           end
       | None => []
       end)
    (combine subs script).

(** ** The count along a log *)

(** A tally kept along a log: the reset of the count sets it to 0, an entry
    accepted by [bump] adds one. *)
Definition tallyStep (bump : Z * Event -> bool) (n : Z) (x : Z * Event) : Z :=
  if isReset x then 0 else if bump x then n + 1 else n.

Definition tally (bump : Z * Event -> bool) (n : Z) (tr : Trace) : Z :=
  fold_left (tallyStep bump) tr n.

(** [retryCount] after the entries of [tr], from its value [n] before
    them: only the debounced reset (lines 46, 97) and the [retryCount++] of
    the catch callback (lines 51, 103), run for the errors that
    [shouldRetry] accepts, write it. *)
Definition countAfter (o : Options) (n : Z) (tr : Trace) : Z :=
  tally (isAccepted o) n tr.

(** [check n x] holds of every entry [x] of a log, [n] being the tally of
    the entries before it. *)
Fixpoint lawful (bump : Z * Event -> bool) (check : Z -> Z * Event -> Prop)
    (n : Z) (tr : Trace) : Prop :=
  match tr with
  | [] => True
  | x :: tr' => check n x /\ lawful bump check (tallyStep bump n x) tr'
  end.

(** The catch callback finds the count at [n]. *)
Definition countLaw (n : Z) (x : Z * Event) : Prop :=
  match snd x with
  | EvCatch _ m => m = n
  | _ => True
  end.

(** The numbers an entry carries when [n] is the tally of the timers: the
    callback finds [n], and hands [n + 1] to [onRetry] and to
    [getBackedoffDelay]. *)
Definition rankLaw (o : Options) (n : Z) (x : Z * Event) : Prop :=
  match snd x with
  | EvCatch _ m => m = n
  | EvOnRetry _ k => k = n + 1
  | EvTimer d => d = getBackedoffDelay (fst x) (retryDelay o) (n + 1)
  | _ => True
  end.

(** No reset of the count before the last entry of the kind [f]: once the
    reset has run, no such entry follows. *)
Fixpoint quietBefore (f : Z * Event -> bool) (tr : Trace) : bool :=
  match tr with
  | [] => true
  | x :: tr' =>
      if isReset x then negb (existsb f tr') else quietBefore f tr'
  end.

(** ** Uses made in turn *)

Fixpoint lastEntry (tr : Trace) : option (Z * Event) :=
  match tr with
  | [] => None
  | [x] => Some x
  | _ :: tr' => lastEntry tr'
  end.

(** When a use has ended for its caller: the instant of the error, of the
    completion or of the unsubscription that closes its log. *)
Definition endOf (tr : Trace) : option Z :=
  match lastEntry tr with
  | Some x => if isTerminal x then Some (fst x) else None
  | None => None
  end.

(** Each of the uses [us], whose logs are [trs], has ended when the next
    one starts. *)
Fixpoint inTurn {In : Type} (us : list (Use In)) (trs : list Trace) : bool :=
  match us, trs with
  | _ :: ((u' :: _) as later), tr :: trs' =>
      match endOf tr with
      | Some t => (t <=? start u') && inTurn later trs'
      | None => false
      end
  | _, _ => true
  end.

End Retry.

Arguments mkUse {In} _ _ _.
Arguments input {In} _.
Arguments start {In} _.
Arguments cancelAt {In} _.
Arguments mkWrapper {Err Val In} _ _.
Arguments cells {Err Val In} _.
Arguments body {Err Val In} _ _ _.

(** ** A concrete instance, for examples *)

Module Sample.

(** The delay doubles at each retry, without jitter. *)
Definition backoff (_ retryDelay retryCount : Z) : Z :=
  retryDelay * 2 ^ (retryCount - 1).

(** Errors are status codes; every error is retried, none is rewritten. *)
Definition opts (total reset : Z) : Options (Err := Z) :=
  {| retryDelay := 100; totalRetry := total; resetDelay := reset;
     shouldRetry := None; errorSelector := None; onRetry := true |}.

(** The selected error is the count it was given. *)
Definition countOnly (total : Z) : Options (Err := Z) :=
  {| retryDelay := 100; totalRetry := total; resetDelay := 0;
     shouldRetry := None; errorSelector := Some (fun _ n => n);
     onRetry := false |}.


(** A producer that fails with [e] after [dt] ms, every time it is
    instantiated. *)
Definition failing (dt e : Z) (n : nat) : list (Producer (Err := Z) (Val := Z)) :=
  repeat (Fail dt e) n.

(** A producer that fails with [e] after [dt] ms the first time it is
    instantiated, and completes after [dt] ms the next time. *)
Definition failsOnce (dt e : Z) : list (Producer (Err := Z) (Val := Z)) :=
  [Fail dt e; Done dt].

(** Two uses made in turn: at 0, and one second later. *)
Definition twice : list (Use unit) :=
  [mkUse tt 0 None; mkUse tt 1000 None].

End Sample.

Module Stream.

(** A source that sends two values and fails, then sends three and
    completes when it is instantiated again. *)
Definition flaky : list (Producer (Err := Z) (Val := Z)) :=
  [Next 1 10 (Next 1 11 (Fail 1 503));
   Next 2 10 (Next 1 11 (Next 1 12 (Done 1)))].


End Stream.


(** * The demo's [Progressbar] component: the image tip

    [showImageTip] and [hideImageTip] as functions on the state of the
    component; each calls [setState] once with the three properties of the
    state, which is then the new state.  Numbers are doubles.  The
    parameter [ts] of [showImageTip] is written [ts_], [ts] being the
    property of an image. *)

Module Progressbar.

Import PrimFloat.

Section Component.

(** The thumbnail data carried by an image is opaque. *)
Context {Data : Type}.

(** Numbers are IEEE 754 doubles. *)
Definition number := float.

(** An entry of [props.images]: [ts] in milliseconds and the picture. *)
Record Image := mkImage { ts : number; data : Data }.

(** [this.state] (lines 9-13); [image] is [null] until a tip is shown. *)
Record State := mkState {
  imageTipVisible : bool;
  imageTipPosition : number;
  image : option Data
}.

(** The state set by the constructor. *)
Definition initialState : State :=
  {| imageTipVisible := false; imageTipPosition := zero;
     image := None |}.

(** [Array.prototype.findIndex]: the index of the first element the
    callback accepts, [None] for [-1]. *)
Fixpoint findIndex {A : Type} (f : A -> bool) (l : list A) : option nat :=
  match l with
  | [] => None
  | x :: l' =>
      if f x then Some 0%nat
      else match findIndex f l' with
           | Some i => Some (S i)
           | None => None
           end
  end.

(** [image && image.ts > timestampToMs]; an entry that is [null] or
    [undefined] is [None]. *)
Definition laterThan (timestampToMs : number) (entry : option Image) : bool :=
  match entry with
  | Some im => ltb timestampToMs (ts im)
  | None => false
  end.

(** [images[i]] for an index that may be [-1]: [undefined] outside the
    array, and an entry that is [null] or [undefined] is as good as none
    for [!image]. *)
Definition entryBefore (images : list (option Image)) (i : nat)
  : option Image :=
  match i with
  | O => None
  | S j => match nth_error images j with
           | Some entry => entry
           | None => None
           end
  end.

(** [showImageTip(ts, clientX)] (lines 16-36); [images] is [props.images],
    [None] when the property is missing. *)
Definition showImageTip (images : option (list (option Image)))
    (ts_ clientX : number) (st : State) : State :=
  match images with
  | None => st
  | Some imgs =>
      if (length imgs =? 0)%nat then st
      else
        let timestampToMs := mul ts_ 1000%float in
        let imageIndex := findIndex (laterThan timestampToMs) imgs in
        let found :=
          match imageIndex with
          | None => entryBefore imgs (length imgs)
          | Some i => entryBefore imgs i
          end in
        match found with
        | None => st
        | Some im =>
            {| imageTipVisible := true; imageTipPosition := clientX;
               image := Some (data im) |}
        end
  end.

(** [hideImageTip()] (lines 38-44). *)
Definition hideImageTip (st : State) : State :=
  {| imageTipVisible := false; imageTipPosition := zero;
     image := None |}.

End Component.

End Progressbar.

Module TipSample.

Import PrimFloat Progressbar.

(** Three thumbnails, at 0 s, 5 s and 10 s; the picture is a number. *)
Definition thumbnails : list (option (@Image nat)) :=
  [Some (mkImage 0%float 1%nat); Some (mkImage 5000%float 2%nat);
   Some (mkImage 10000%float 3%nat)].

End TipSample.

(** * [src/core/time-fragment.js]: the time fragment of a media URI

    [parseTimeFragment] and the functions it calls.  A call returns a value
    or throws an error, identified by its message.  Strings are strings of
    8-bit characters, numbers are doubles; a [Date] is known by its time
    value.  [parseInt], [parseFloat] and [Date.parse] belong to the
    language and are parameters; [assert] is imported from
    [../utils/assert], which is not among the sources at hand, and is taken
    to throw an error carrying its message when its condition is falsy. *)

Module TimeFragment.

Import Ascii String PrimFloat.
Local Open Scope string_scope.

(** ** Strings

    Strings are sequences of 8-bit characters: every character the code
    looks for is an ASCII one. *)

(** [s.split(sep)] for a separator of one character: the pieces between
    the separators, at least one. *)
Fixpoint split (sep : ascii) (s : string) : list string :=
  match s with
  | EmptyString => [EmptyString]
  | String c s' =>
      if Ascii.eqb c sep then EmptyString :: split sep s'
      else match split sep s' with
           | piece :: pieces => String c piece :: pieces
           | [] => [String c EmptyString]
           end
  end.

(** [s.indexOf(c)] for one character, [-1] when [c] does not occur. *)
Fixpoint indexOf (c : ascii) (s : string) : Z :=
  match s with
  | EmptyString => -1
  | String c' s' =>
      if Ascii.eqb c' c then 0
      else let i := indexOf c s' in if (i =? -1)%Z then -1 else i + 1
  end.

(** [s] without the prefix [p], if it starts with it. *)
Fixpoint withoutPrefix (p s : string) : option string :=
  match p, s with
  | EmptyString, _ => Some s
  | String a p', String b s' =>
      if Ascii.eqb a b then withoutPrefix p' s' else None
  | String _ _, EmptyString => None
  end.

(** [s.replace(p, "")] for a string [p] that is not empty: the first
    occurrence of [p] is removed. *)
Fixpoint removeFirst (p s : string) : string :=
  match withoutPrefix p s with
  | Some rest => rest
  | None =>
      match s with
      | EmptyString => EmptyString
      | String c s' => String c (removeFirst p s')
      end
  end.

(** [s.replace(/^(p1|p2|...)/, "")]: the first of the alternatives that [s]
    starts with is removed. *)
Fixpoint removeOneOf (ps : list string) (s : string) : string :=
  match ps with
  | [] => s
  | p :: ps' =>
      match withoutPrefix p s with
      | Some rest => rest
      | None => removeOneOf ps' s
      end
  end.

(** [s.replace(/\.$/, "")]: a dot that ends [s] is removed. *)
Fixpoint removeLastDot (s : string) : string :=
  match s with
  | EmptyString => EmptyString
  | String c EmptyString => if Ascii.eqb c "." then EmptyString else s
  | String c s' => String c (removeLastDot s')
  end.

(** ** Regular expressions

    The expressions of the source use characters, [\d], classes,
    sequences, alternatives, [?], [*], [+] and [{n}], between [^] and [$] or
    with [$] alone.  [test] only asks whether there is a match, so the
    order in which a backtracking matcher tries the alternatives does not
    show. *)

Inductive regex :=
| Nothing
| Empty
| Char (accepts : ascii -> bool)
| Seq (r1 r2 : regex)
| Alt (r1 r2 : regex)
| Star (r : regex).

Definition Opt (r : regex) : regex := Alt r Empty.
Definition Plus (r : regex) : regex := Seq r (Star r).

Fixpoint Seqs (rs : list regex) : regex :=
  match rs with
  | [] => Empty
  | [r] => r
  | r :: rs' => Seq r (Seqs rs')
  end.

Fixpoint Times (n : nat) (r : regex) : regex :=
  match n with
  | O => Empty
  | S O => r
  | S n' => Seq r (Times n' r)
  end.

(** [\d] *)
Definition isDigit (c : ascii) : bool :=
  let n := nat_of_ascii c in ((48 <=? n) && (n <=? 57))%nat.

Definition digit : regex := Char isDigit.
Definition chr (c : ascii) : regex := Char (Ascii.eqb c).

Fixpoint nullable (r : regex) : bool :=
  match r with
  | Nothing => false
  | Empty => true
  | Char _ => false
  | Seq r1 r2 => nullable r1 && nullable r2
  | Alt r1 r2 => nullable r1 || nullable r2
  | Star _ => true
  end.

(** What is left of [r] to match after the character [c]. *)
Fixpoint derive (c : ascii) (r : regex) : regex :=
  match r with
  | Nothing => Nothing
  | Empty => Nothing
  | Char accepts => if accepts c then Empty else Nothing
  | Seq r1 r2 =>
      if nullable r1 then Alt (Seq (derive c r1) r2) (derive c r2)
      else Seq (derive c r1) r2
  | Alt r1 r2 => Alt (derive c r1) (derive c r2)
  | Star r' => Seq (derive c r') (Star r')
  end.

(** [r] matches the whole of [s]. *)
Fixpoint matches (r : regex) (s : string) : bool :=
  match s with
  | EmptyString => nullable r
  | String c s' => matches (derive c r) s'
  end.

(** [s.substring(i)] for every [i]. *)
Fixpoint suffixes (s : string) : list string :=
  s :: match s with
       | EmptyString => []
       | String _ s' => suffixes s'
       end.

(** [/^r$/.test(s)] and [/r$/.test(s)]. *)
Definition testWhole (r : regex) (s : string) : bool := matches r s.
Definition testEnd (r : regex) (s : string) : bool :=
  existsb (matches r) (suffixes s).

(** ** Values *)

(** Numbers are IEEE 754 doubles. *)
Definition number := float.

(** The values a bound of a fragment may hold: [VDate t] is a [Date] whose
    time value is [t], [VObject] any other object. *)
Inductive Value :=
| VUndefined
| VNull
| VBool (b : bool)
| VNumber (n : number)
| VString (s : string)
| VDate (time : number)
| VObject.

(** [!!v] *)
Definition truthy (v : Value) : bool :=
  match v with
  | VUndefined | VNull => false
  | VBool b => b
  | VNumber n => negb (n =? 0)%float && negb (is_nan n)
  | VString s => negb (String.eqb s EmptyString)
  | VDate _ | VObject => true
  end.

Definition isString (v : Value) : bool :=
  match v with VString _ => true | _ => false end.

(** [typeof v == "number" || v instanceof Date] *)
Definition isNumberOrDate (v : Value) : bool :=
  match v with VNumber _ | VDate _ => true | _ => false end.

(** The number a number or a [Date] stands for in a comparison. *)
Definition toNumber (v : Value) : number :=
  match v with
  | VNumber n => n
  | VDate t => t
  | _ => nan
  end.

(** An object with the properties [start] and [end]. *)
Record Fragment := mkFragment { start : Value; end_ : Value }.

(** What a call comes to: it returns, or it throws an error with this
    message. *)
Inductive outcome (A : Type) :=
| Return (a : A)
| Throw (message : string).

Arguments Return {A} a.
Arguments Throw {A} message.

Definition bind {A B : Type} (x : outcome A) (f : A -> outcome B)
  : outcome B :=
  match x with
  | Return a => f a
  | Throw m => Throw m
  end.

(** [assert(condition, message)], from [../utils/assert]: throws an error
    with the message when the condition does not hold. *)
Definition assert (condition : bool) (message : string) : outcome unit :=
  if condition then Return tt else Throw message.

Notation "x <- e1 ;; e2" := (bind e1 (fun x => e2))
  (at level 61, e1 at next level, right associativity).
Notation "e1 ;; e2" := (bind e1 (fun _ => e2))
  (at level 61, right associativity).

Section Parser.

(** What the language provides: [parseInt(s, radix)], [parseFloat(s)] and
    [Date.parse(s)]. *)
Variable parseInt : string -> Z -> number.
Variable parseFloat : string -> number.
Variable Date_parse : string -> number.

Definition errMessage : string := "invalid MediaFragment".

(** [array[i]] for an array of strings, [undefined] read as the empty
    string where the source tests or parses it. *)
Definition item (pieces : list string) (i : nat) : string :=
  nth i pieces EmptyString.

(** [normalizeNPTTime(time)] (lines 81-123); [VBool false] is [false]. *)
Definition normalizeNPTTime (time : string) : outcome Value :=
  if String.eqb time EmptyString then Return (VBool false)
  else
    let time := split ":" (removeLastDot time) in
    let length := List.length time in
    let go (hours minutes seconds : number) : outcome Value :=
      assert (hours <=? 23)%float errMessage ;;
      assert (minutes <=? 59)%float errMessage ;;
      assert ((length <=? 1)%nat || (seconds <? 60)%float) errMessage ;;
      Return (VNumber (hours * 3600 + minutes * 60 + seconds)%float) in
    match length with
    | 3%nat => go (parseInt (item time 0) 10) (parseInt (item time 1) 10)
                 (parseFloat (item time 2))
    | 2%nat => go 0%float (parseInt (item time 0) 10)
                 (parseFloat (item time 1))
    | 1%nat => go 0%float 0%float (parseFloat (item time 0))
    | _ => Return (VBool false)
    end.

(** [normalizeSMPTETime(time)] (lines 134-179).  The literals [0.001] and
    [0.000001] are the doubles nearest to them. *)
Definition normalizeSMPTETime (time : string) : outcome Value :=
  if String.eqb time EmptyString then Return (VBool false)
  else
    let time := split ":" time in
    let length := List.length time in
    let go (hours minutes seconds frames subframes : number)
      : outcome Value :=
      assert (hours <=? 23)%float errMessage ;;
      assert (minutes <=? 59)%float errMessage ;;
      assert (seconds <=? 59)%float errMessage ;;
      Return (VNumber (hours * 3600 + minutes * 60 + seconds
                       + frames * 0x1.0624dd2f1a9fcp-10
                       + subframes * 0x1.0c6f7a0b5ed8dp-20)%float) in
    match length with
    | 3%nat => go (parseInt (item time 0) 10) (parseInt (item time 1) 10)
                 (parseInt (item time 2) 10) 0%float 0%float
    | 4%nat =>
        if (indexOf "." (item time 3) =? -1)%Z
        then go (parseInt (item time 0) 10) (parseInt (item time 1) 10)
               (parseInt (item time 2) 10) (parseInt (item time 3) 10)
               0%float
        else
          let frameSubFrame := split "." (item time 3) in
          go (parseInt (item time 0) 10) (parseInt (item time 1) 10)
            (parseInt (item time 2) 10) (parseInt (item frameSubFrame 0) 10)
            (parseInt (item frameSubFrame 1) 10)
    | _ => Return (VBool false)
    end.

(** [normalizeWallClockTime(time)] (lines 188-191) *)
Definition normalizeWallClockTime (time : string) : outcome Value :=
  Return (VDate (Date_parse time)).

(** [normalizePercentage(time)] (lines 199-205) *)
Definition normalizePercentage (time : string) : outcome Value :=
  if String.eqb time EmptyString then Return (VBool false)
  else Return (VString time).

(** The four formats (lines 235, 240, 248-249, 258). *)

(** Line 235: [(((\d+:)?(\d\d):(\d\d))|(\d+))] followed by an optional
    [\.] with any number of [\d], up to [$]; no [^]. *)
Definition npt : regex :=
  Seq (Alt (Seqs [Opt (Seq (Plus digit) (chr ":")); Seq digit digit;
                  chr ":"; Seq digit digit])
           (Plus digit))
      (Opt (Seq (chr ".") (Star digit))).

(** [/^\d+:\d\d:\d\d(:\d\d(\.\d\d)?)?$/] *)
Definition smpte : regex :=
  Seqs [Plus digit; chr ":"; digit; digit; chr ":"; digit; digit;
        Opt (Seqs [chr ":"; digit; digit;
                   Opt (Seqs [chr "."; digit; digit])])].

(** [/^\d{4}-\d{2}-\d{2}T\d{2}:\d{2}:\d{2}(\.\d+)?(Z|([-+]\d{2}:\d{2}))?$/] *)
Definition wallClock : regex :=
  Seqs [Times 4 digit; chr "-"; Times 2 digit; chr "-"; Times 2 digit;
        chr "T"; Times 2 digit; chr ":"; Times 2 digit; chr ":";
        Times 2 digit;
        Opt (Seq (chr ".") (Plus digit));
        Opt (Alt (chr "Z")
                 (Seqs [Char (fun c => Ascii.eqb c "-" || Ascii.eqb c "+");
                        Times 2 digit; chr ":"; Times 2 digit]))].

(** [/^\d*(\.\d+)? ?%$/] *)
Definition percentage : regex :=
  Seqs [Star digit; Opt (Seq (chr ".") (Plus digit)); Opt (chr " ");
        chr "%"].

(** The function [timeNormalizer] holds: one of the four above. *)
Inductive Normalizer := NPTTime | SMPTETime | WallClockTime | Percentage.

Definition normalize (timeNormalizer : Normalizer) (time : string)
  : outcome Value :=
  match timeNormalizer with
  | NPTTime => normalizeNPTTime time
  | SMPTETime => normalizeSMPTETime time
  | WallClockTime => normalizeWallClockTime time
  | Percentage => normalizePercentage time
  end.

(** Lines 223-226: the name of the format is removed from the start. *)
Definition withoutFormatName (start : string) : string :=
  removeFirst "clock:"
    (removeOneOf ["npt:"; "npt="]
       (removeOneOf ["smpte:"; "smpte-25:"; "smpte-30:"; "smpte-30-drop:"]
          start)).

(** Lines 261-276: the normalizer is chosen by the format that both bounds
    have, the formats being tried in this order. *)
Definition chooseNormalizer (start end_ : string) : outcome Normalizer :=
  if testEnd npt start && testEnd npt end_ then Return NPTTime
  else if testWhole smpte start && testWhole smpte end_
  then Return SMPTETime
  else if testWhole wallClock start && testWhole wallClock end_
  then Return WallClockTime
  else if testWhole percentage start && testWhole percentage end_
  then Return Percentage
  else Throw errMessage.

(** [temporalMediaFragmentParser(value)] (lines 214-285) *)
Definition temporalMediaFragmentParser (value : string) : outcome Fragment :=
  let components := split "," value in
  assert (List.length components <=? 2)%nat errMessage ;;
  let start := item components 0 in
  let end_ := item components 1 in
  let nonEmpty (s : string) := negb (String.eqb s EmptyString) in
  assert ((nonEmpty start || nonEmpty end_) &&
          (negb (nonEmpty start) || nonEmpty end_ ||
           (indexOf "," value =? -1)%Z))
    errMessage ;;
  let start := withoutFormatName start in
  timeNormalizer <- chooseNormalizer start end_ ;;
  start <- normalize timeNormalizer start ;;
  end_ <- normalize timeNormalizer end_ ;;
  let isFalse (v : Value) :=
    match v with VBool false => true | _ => false end in
  assert (negb (isFalse start) || negb (isFalse end_)) errMessage ;;
  Return {| start := if isFalse start then VString EmptyString else start;
            end_ := if isFalse end_ then VString EmptyString else end_ |}.

(** The argument of [parseTimeFragment]: a string, a value that is not a
    string and is falsy ([undefined], [null], [false], [0], [NaN]), or an
    object, given by its properties [start] and [end]. *)
Inductive argument :=
| AString (s : string)
| AFalsy
| AObject (fragment : Fragment).

(** Lines 34-51: the defaults of [start] and [end]. *)
Definition withDefaults (timeFragment : Fragment) : Fragment :=
  if isString (start timeFragment) && isString (end_ timeFragment)
  then
    {| start := if truthy (start timeFragment) then start timeFragment
                else VString "0%";
       end_ := if truthy (end_ timeFragment) then end_ timeFragment
               else VString "100%" |}
  else
    {| start := if truthy (start timeFragment) then start timeFragment
                else VNumber 0%float;
       end_ := if truthy (end_ timeFragment) then end_ timeFragment
               else VNumber infinity |}.

(** Lines 53-71: the checks, and the fragment returned. *)
Definition validate (timeFragment : Fragment) : outcome Fragment :=
  match start timeFragment, end_ timeFragment with
  | VString s, VString e =>
      assert ((0 <=? parseFloat s)%float && (parseFloat s <=? 100)%float)
        "player: startTime should be between 0% and 100%" ;;
      assert ((0 <=? parseFloat e)%float && (parseFloat e <=? 100)%float)
        "player: endTime should be between 0% and 100%" ;;
      Return timeFragment
  | _, _ =>
      assert (isNumberOrDate (start timeFragment) &&
              isNumberOrDate (end_ timeFragment))
        "player: timeFragment should have interface { start, end } where start and end are numbers or dates" ;;
      assert (toNumber (start timeFragment) <? toNumber (end_ timeFragment))%float
        "player: startTime should be lower than endTime" ;;
      assert (0 <=? toNumber (start timeFragment))%float
        "player: startTime should be greater than 0" ;;
      Return timeFragment
  end.

(** [parseTimeFragment(timeFragment)] (lines 27-72) *)
Definition parseTimeFragment (timeFragment : argument) : outcome Fragment :=
  timeFragment <-
    match timeFragment with
    | AString s => temporalMediaFragmentParser s
    | AFalsy => Return {| start := VUndefined; end_ := VUndefined |}
    | AObject fragment => Return fragment
    end ;;
  validate (withDefaults timeFragment).

End Parser.

(** The prefixes that name a format (lines 224-225). *)
Definition formatPrefixes : list string :=
  ["smpte:"; "smpte-25:"; "smpte-30:"; "smpte-30-drop:"; "npt:"; "npt="].

(** ** Readings of a string and of an expression, for the proofs *)

(** Every character of [s] passes [f]. *)
Fixpoint every (f : ascii -> bool) (s : string) : bool :=
  match s with
  | EmptyString => true
  | String c s' => f c && every f s'
  end.

(** [s] is not empty and its last character passes [f]. *)
Fixpoint endsWith (f : ascii -> bool) (s : string) : bool :=
  match s with
  | EmptyString => false
  | String c EmptyString => f c
  | String _ s' => endsWith f s'
  end.

(** [s] is not empty and its first character is a digit. *)
Definition startsWithDigit (s : string) : bool :=
  match s with
  | EmptyString => false
  | String c _ => isDigit c
  end.

(** A character other than the comma, the colon and the letter c. *)
Definition plain (c : ascii) : bool :=
  negb (Ascii.eqb c "," || Ascii.eqb c ":" || Ascii.eqb c "c").

(** A character other than the comma and the letter c. *)
Definition inBound (c : ascii) : bool :=
  negb (Ascii.eqb c "," || Ascii.eqb c "c").

(** A character other than the letter Z. *)
Definition notZ (c : ascii) : bool := negb (Ascii.eqb c "Z").

(** [v] is a [Date]. *)
Definition isDate (v : Value) : bool :=
  match v with VDate _ => true | _ => false end.

(** No string matches [r]. *)
Fixpoint void (r : regex) : bool :=
  match r with
  | Nothing => true
  | Empty | Char _ | Star _ => false
  | Seq r1 r2 => void r1 || void r2
  | Alt r1 r2 => void r1 && void r2
  end.

(** The characters that may occur in a string matched by [r], and the
    ones that may end it. *)
Fixpoint occurs (r : regex) (c : ascii) : bool :=
  match r with
  | Nothing | Empty => false
  | Char accepts => accepts c
  | Seq r1 r2 | Alt r1 r2 => occurs r1 c || occurs r2 c
  | Star r' => occurs r' c
  end.

Fixpoint lasts (r : regex) (c : ascii) : bool :=
  match r with
  | Nothing | Empty => false
  | Char accepts => accepts c
  | Seq r1 r2 => lasts r2 c || (nullable r2 && lasts r1 c)
  | Alt r1 r2 => lasts r1 c || lasts r2 c
  | Star r' => lasts r' c
  end.

End TimeFragment.

(** Readers of numbers for the examples: the unsigned decimal number a
    string starts with, [NaN] when it starts with none.  On the strings of
    the examples this is what [parseInt(s, 10)] and [parseFloat(s)]
    return. *)
Module TimeSample.

Import Ascii String PrimFloat TimeFragment.

Definition digitValue (c : ascii) : number :=
  match (nat_of_ascii c - 48)%nat with
  | 0%nat => 0 | 1%nat => 1 | 2%nat => 2 | 3%nat => 3 | 4%nat => 4
  | 5%nat => 5 | 6%nat => 6 | 7%nat => 7 | 8%nat => 8 | _ => 9
  end%float.

(** The digits [s] starts with, read after [acc], and what follows them. *)
Fixpoint digits (acc : number) (s : string) : number * string :=
  match s with
  | String c s' =>
      if isDigit c then digits (acc * 10 + digitValue c)%float s'
      else (acc, s)
  | EmptyString => (acc, s)
  end.

(** The digits [s] starts with, read as a fraction. *)
Fixpoint fraction (num scale : number) (s : string) : number :=
  match s with
  | String c s' =>
      if isDigit c
      then fraction (num * 10 + digitValue c)%float (scale * 10)%float s'
      else (num / scale)%float
  | EmptyString => (num / scale)%float
  end.

Definition parseInt (s : string) (radix : Z) : number :=
  if startsWithDigit s then fst (digits 0%float s) else nan.

Definition parseFloat (s : string) : number :=
  if startsWithDigit s
  then
    let '(whole, rest) := digits 0%float s in
    match rest with
    | String "." rest' => (whole + fraction 0 1 rest')%float
    | _ => whole
    end
  else nan.

(** No date is understood. *)
Definition Date_parse (s : string) : number := nan.

End TimeSample.


(** * Properties *)

Section Facts.

Context {Err Val : Type}.
Variable getBackedoffDelay : Z -> Z -> Z -> Z.


(** ** Host timers *)




(** ** Lists and logs *)

Lemma count_app (f : Z * @Event Err Val -> bool) (a b : @Trace Err Val) :
  count f (a ++ b) = (count f a + count f b)%nat.
Proof. unfold count. now rewrite filter_app, length_app. Qed.

Lemma count_cons (f : Z * @Event Err Val -> bool) (x : Z * @Event Err Val) (a : @Trace Err Val) :
  count f (x :: a) = ((if f x then 1 else 0) + count f a)%nat.
Proof. unfold count. simpl. now destruct (f x). Qed.

Lemma count_nil (f : Z * @Event Err Val -> bool) : count f ([] : @Trace Err Val) = 0%nat.
Proof. reflexivity. Qed.

Lemma count_none (f : Z * @Event Err Val -> bool) (a : @Trace Err Val) :
  (forall x, In x a -> f x = false) -> count f a = 0%nat.
Proof.
  induction a as [|x a IH]; intros H; [reflexivity|].
  rewrite count_cons, (H x (or_introl eq_refl)), IH; [reflexivity|].
  intros y Hy. apply H. now right.
Qed.

Lemma errors_app (a b : @Trace Err Val) : errors (a ++ b) = errors a ++ errors b.
Proof.
  induction a as [|[t e] a IH]; [reflexivity|].
  destruct e; simpl; now rewrite ?IH.
Qed.

Lemma timers_app (a b : @Trace Err Val) : timers (a ++ b) = timers a ++ timers b.
Proof.
  induction a as [|[t e] a IH]; [reflexivity|].
  destruct e; simpl; now rewrite ?IH.
Qed.

Lemma onRetryCalls_app (a b : @Trace Err Val) :
  onRetryCalls (a ++ b) = onRetryCalls a ++ onRetryCalls b.
Proof.
  induction a as [|[t e] a IH]; [reflexivity|].
  destruct e; simpl; now rewrite ?IH.
Qed.

(** A prefix without any entry of the kind looked for is skipped. *)
Lemma skip_prefix (f : Z * @Event Err Val -> bool) (l1 l2 a b : @Trace Err Val) (x : Z * @Event Err Val) :
  (forall y, In y l1 -> f y = false) -> f x = true ->
  l1 ++ l2 = a ++ x :: b ->
  exists a', a = l1 ++ a' /\ l2 = a' ++ x :: b.
Proof.
  revert a. induction l1 as [|y l1 IH]; intros a H Hx E.
  - exists a. now split.
  - destruct a as [|z a]; simpl in E; inversion E; subst.
    + rewrite (H x (or_introl eq_refl)) in Hx. discriminate.
    + destruct (IH a) as [a' [-> ->]]; auto.
      * intros w Hw. apply H. now right.
      * exists a'. now split.
Qed.

Lemma adjacent_app_l {A : Type} (x y : A) (p l : list A) :
  adjacent x y l -> adjacent x y (p ++ l).
Proof.
  intros [a [b ->]]. exists (p ++ a), b. now rewrite <- app_assoc.
Qed.

Lemma adjacent_head {A : Type} (x y : A) (l : list A) :
  adjacent x y (x :: y :: l).
Proof. now exists [], l. Qed.

Lemma adjacent_cons {A : Type} (x y z : A) (l : list A) :
  adjacent x y l -> adjacent x y (z :: l).
Proof. apply (adjacent_app_l x y [z]). Qed.

(** ** The debounce timer *)

Lemma runTimers_cases (t : Z) (c : Closure) :
  runTimers (Err := Err) (Val := Val) t c = ([], c) \/
  exists due, timer c = Some due /\ due <= t /\
    runTimers (Err := Err) (Val := Val) t c
    = ([(due, EvReset)], mkClosure 0 None).
Proof.
  unfold runTimers. destruct (timer c) as [due|]; [|now left].
  destruct (Z.leb_spec due t); [right; now exists due|now left].
Qed.

Lemma runTimers_idle (t : Z) (c : Closure) :
  timer c = None -> runTimers (Err := Err) (Val := Val) t c = ([], c).
Proof. unfold runTimers. now intros ->. Qed.

Lemma drainTimers_cases (c : Closure) :
  drainTimers (Err := Err) (Val := Val) c = ([], c) \/
  exists due, timer c = Some due /\
    drainTimers (Err := Err) (Val := Val) c
    = ([(due, EvReset)], mkClosure 0 None).
Proof.
  unfold drainTimers. destruct (timer c) as [due|]; [|now left].
  right; now exists due.
Qed.

(** Firing the timer twice is firing it at the later instant. *)
Lemma runTimers_twice (t1 t2 : Z) (c : Closure) :
  t1 <= t2 ->
  snd (runTimers (Err := Err) (Val := Val) t2
         (snd (runTimers (Err := Err) (Val := Val) t1 c)))
  = snd (runTimers (Err := Err) (Val := Val) t2 c).
Proof.
  intros H. unfold runTimers. destruct (timer c) as [due|] eqn:E; simpl.
  - destruct (Z.leb_spec due t1); simpl.
    + destruct (Z.leb_spec due t2); [reflexivity|lia].
    + rewrite E. reflexivity.
  - rewrite E. reflexivity.
Qed.

(** ** One instantiation of the producer *)

Ltac split_play :=
  repeat match goal with
  | |- context [unsubscribedBefore ?c ?t] =>
      destruct (unsubscribedBefore c t) eqn:?
  | |- context [teardown ?u ?c] => unfold teardown
  | |- context [runTimers ?t ?c] =>
      let E := fresh "E" in destruct (runTimers t c) as [? ?] eqn:E
  | |- context [drainTimers ?c] =>
      let E := fresh "E" in destruct (drainTimers c) as [? ?] eqn:E
  | |- context [play ?k ?p ?t ?c] =>
      let E := fresh "E" in destruct (play k p t c) as [[? ?] ?] eqn:E
  end.

Lemma runTimers_events {t : Z} {c c' : Closure} {r : @Trace Err Val} :
  runTimers t c = (r, c') -> forall x, In x r -> snd x = EvReset.
Proof.
  destruct (runTimers_cases t c) as [E|[due [_ [_ E]]]]; rewrite E;
    intros [= <- <-] x [].
  - now subst.
  - contradiction.
Qed.

Lemma drainTimers_events {c c' : Closure} {r : @Trace Err Val} :
  drainTimers c = (r, c') -> forall x, In x r -> snd x = EvReset.
Proof.
  destruct (drainTimers_cases c) as [E|[due [_ E]]]; rewrite E;
    intros [= <- <-] x [].
  - now subst.
  - contradiction.
Qed.

Lemma play_events (cancel : option Z) (p : @Producer Err Val) :
  forall now c tr c' ending,
    play cancel p now c = (tr, c', ending) ->
    forall x, In x tr -> isForwarded x = true.
Proof.
  induction p as [dt v rest IH|dt e|dt|]; simpl; intros now c tr c' ending;
    try destruct cancel as [u|]; split_play; intros [= <- <- <-] x Hx;
    (repeat (apply in_app_or in Hx; destruct Hx as [Hx|Hx]));
    try match goal with
    | E : runTimers _ _ = (?r, _), Hx : In _ ?r |- _ =>
        unfold isForwarded; now rewrite (runTimers_events E _ Hx)
    | E : drainTimers _ = (?r, _), Hx : In _ ?r |- _ =>
        unfold isForwarded; now rewrite (drainTimers_events E _ Hx)
    end;
    simpl in Hx; intuition (subst; try reflexivity; eauto).
Qed.

Lemma isForwarded_other (x : Z * @Event Err Val) :
  isForwarded x = true ->
  isSubscribe x = false /\ isTimer x = false /\ isTouch x = false /\
  isError x = false /\ isOnRetry x = false /\ isCatch x = false.
Proof. destruct x as [t []]; cbv; intuition congruence. Qed.

(** The subscription leaves the closure alone, unless the timer fires. *)
Lemma play_closure (cancel : option Z) (p : @Producer Err Val) :
  forall now c tr c' ending,
    play cancel p now c = (tr, c', ending) ->
    (resets tr = 0%nat /\ c' = c) \/
    (resets tr = 1%nat /\ c' = mkClosure 0 None /\ timer c <> None).
Proof.
  assert (R : forall t c r c1, runTimers (Err := Err) (Val := Val) t c = (r, c1) ->
            (r = [] /\ c1 = c) \/
            (resets r = 1%nat /\ c1 = mkClosure 0 None /\ timer c <> None)).
  { intros t c r c1. destruct (runTimers_cases t c) as [E|[due [Hd [_ E]]]];
      rewrite E; intros [= <- <-]; [now left|right].
    repeat split. congruence. }
  induction p as [dt v rest IH|dt e|dt|]; simpl; intros now c tr c' ending;
    try destruct cancel as [u|]; split_play; intros [= <- <- <-];
    repeat match goal with
    | E : runTimers _ _ = _ |- _ => apply R in E; destruct E as [[-> ->]|[? [-> ?]]]
    | E : play _ _ _ _ = _ |- _ => apply IH in E; destruct E as [[? ->]|[? [-> ?]]]
    end;
    unfold resets in *; rewrite ?count_app, ?count_cons, ?count_nil; simpl;
    try (left; split; [lia|reflexivity]);
    try (right; repeat split; [lia|assumption]);
    try (simpl in *; congruence).
  all: destruct (drainTimers_cases c) as [E'|[due [Hd E']]]; rewrite E' in E;
    inversion E; subst; [now left|right; repeat split; congruence].
Qed.

Lemma play_quiet (cancel : option Z) (p : @Producer Err Val) now c tr c' ending :
  play cancel p now c = (tr, c', ending) -> resets tr = 0%nat -> c' = c.
Proof.
  intros H R. destruct (play_closure _ _ _ _ _ _ _ H) as [[_ ?]|[? _]];
    [assumption|congruence].
Qed.

Lemma play_idle (cancel : option Z) (p : @Producer Err Val) now c tr c' ending :
  play cancel p now c = (tr, c', ending) -> timer c = None ->
  resets tr = 0%nat /\ c' = c.
Proof.
  intros H R. destruct (play_closure _ _ _ _ _ _ _ H) as [?|[_ [_ ?]]];
    [assumption|contradiction].
Qed.

Ltac split_in H :=
  repeat match type of H with
  | context [unsubscribedBefore ?c ?t] =>
      destruct (unsubscribedBefore c t) eqn:?
  | context [teardown ?u ?c] => unfold teardown in H
  | context [runTimers ?t ?c] =>
      let E := fresh "E" in destruct (runTimers t c) as [? ?] eqn:E
  | context [drainTimers ?c] =>
      let E := fresh "E" in destruct (drainTimers c) as [? ?] eqn:E
  | context [play ?k ?p ?t ?c] =>
      let E := fresh "E" in destruct (play k p t c) as [[? ?] ?] eqn:E
  end.

Lemma duration_nonneg (p : @Producer Err Val) : 0 <= duration p.
Proof. induction p; simpl; lia. Qed.

(** A subscription ends with [Failed] exactly when the producer fails
    before the caller leaves; the timer has then fired if it was due. *)
Lemma play_Failed (cancel : option Z) (p : @Producer Err Val) :
  forall now c tr c' t e,
    play cancel p now c = (tr, c', Failed t e) ->
    failure p = Some e /\ t = now + duration p /\
    unsubscribedBefore cancel t = None /\
    c' = snd (runTimers (Err := Err) (Val := Val) t c).
Proof.
  induction p as [dt v rest IH|dt e0|dt|]; simpl; intros now c tr c' t e H.
  - split_in H; try discriminate. inversion H; subst; clear H.
    destruct (IH _ _ _ _ _ _ E0) as [? [? [? ?]]]; subst.
    repeat split; try assumption; try lia.
    replace c0 with (snd (runTimers (Err := Err) (Val := Val)
                            (now + Z.max 0 dt) c)) by now rewrite E.
    rewrite <- Z.add_assoc. apply runTimers_twice.
    pose proof (duration_nonneg rest). lia.
  - split_in H; try discriminate. inversion H; subst; clear H.
    repeat split; try assumption. now rewrite E.
  - split_in H; discriminate.
  - destruct cancel; split_in H; discriminate.
Qed.




(** ** The two variants run the same callback *)

Lemma source_doRetry (o : Options) (cancel : option Z)
    (obs : list (@Producer Err Val)) (now : Z) (c : Closure) :
  source getBackedoffDelay o cancel obs now c
  = doRetry getBackedoffDelay o cancel obs now c.
Proof. reflexivity. Qed.

(** ** The catch callback, case by case *)

Lemma hook_events (o : Options) (t : Z) (e : Err) (n : Z) (x : Z * @Event Err Val) :
  In x (onRetryHook o t e n) -> x = (t, EvOnRetry e n) /\ onRetry o = true.
Proof.
  unfold onRetryHook. destruct (onRetry o); simpl; intuition.
Qed.

Lemma touch_events (o : @Options Err) (t : Z) (c c' : Closure)
    (touch : @Trace Err Val) (x : Z * @Event Err Val) :
  debounceRetryCount o t c = (touch, c') -> In x touch ->
  x = (t, EvTouch) /\ 0 < resetDelay o.
Proof.
  unfold debounceRetryCount. destruct (Z.ltb_spec 0 (resetDelay o));
    intros [= <- <-]; simpl; intuition.
Qed.

Lemma timer_events (t : Z) (c c' : Closure) (r : @Trace Err Val)
    (x : Z * @Event Err Val) :
  runTimers t c = (r, c') -> In x r ->
  exists due, x = (due, EvReset) /\ timer c = Some due /\ due <= t.
Proof.
  destruct (runTimers_cases t c) as [E|[due [T [D E]]]]; rewrite E;
    intros [= <- <-]; simpl; [contradiction|].
  intros [<-|[]]. now exists due.
Qed.

(** The four ways through the callback: the error is refused, the budget is
    spent, the caller leaves during the delay, the delay elapses. *)
Lemma catchCallback_cases (o : Options) (cancel : option Z)
    (again : Z -> Closure -> @Trace Err Val * Closure) (t : Z) (e : Err)
    (c : Closure) :
  let n := retryCount c in
  let c1 := mkClosure (n + 1) (timer c) in
  let d := getBackedoffDelay t (retryDelay o) (n + 1) in
  (wantRetry o e = false /\
   catchCallback getBackedoffDelay o cancel again t e c
   = ([(t, EvCatch e n); (t, EvError (thrown o e n))], c))
  \/
  (wantRetry o e = true /\ totalRetry o <= n /\
   catchCallback getBackedoffDelay o cancel again t e c
   = ([(t, EvCatch e n); (t, EvError (thrown o e (n + 1)))], c1))
  \/
  (wantRetry o e = true /\ n < totalRetry o /\
   exists u r c2,
     cancel = Some u /\ u < t + hostDelay d /\ runTimers u c1 = (r, c2) /\
     catchCallback getBackedoffDelay o cancel again t e c
     = ((t, EvCatch e n) :: onRetryHook o t e (n + 1)
          ++ (t, EvTimer d) :: r ++ [(u, EvUnsubscribe)], c2))
  \/
  (wantRetry o e = true /\ n < totalRetry o /\
   exists due r c2 touch c3 tr c4,
     due = t + hostDelay d /\
     unsubscribedBefore cancel due = None /\
     runTimers due c1 = (r, c2) /\
     debounceRetryCount o due c2 = (touch, c3) /\
     again due c3 = (tr, c4) /\
     catchCallback getBackedoffDelay o cancel again t e c
     = ((t, EvCatch e n) :: onRetryHook o t e (n + 1)
          ++ (t, EvTimer d) :: r ++ touch ++ tr, c4)).
Proof.
  intros n c1 d. unfold catchCallback, retryDecision.
  destruct (wantRetry o e); [|now left].
  right. fold n. fold c1. destruct (Z.leb_spec (totalRetry o) n); [now left|].
  right. simpl retryCount. fold d.
  destruct (unsubscribedBefore cancel (t + hostDelay d)) as [u|] eqn:U.
  - left. repeat split; [assumption|].
    unfold unsubscribedBefore in U. destruct cancel as [u'|]; [|discriminate].
    destruct (Z.ltb_spec u' (t + hostDelay d)); [|discriminate]. injection U as ->.
    destruct (runTimers u c1) as [r c2] eqn:R. now exists u, r, c2.
  - right. repeat split; [assumption|].
    destruct (runTimers (t + hostDelay d) c1) as [r c2] eqn:R.
    destruct (debounceRetryCount o (t + hostDelay d) c2) as [touch c3] eqn:D.
    destruct (again (t + hostDelay d) c3) as [tr c4] eqn:A.
    now exists (t + hostDelay d), r, c2, touch, c3, tr, c4.
Qed.


Lemma doRetry_cons (o : Options) (cancel : option Z) (p : @Producer Err Val)
    (later : list Producer) (now : Z) (c : Closure) :
  doRetry getBackedoffDelay o cancel (p :: later) now c
  = let '(tr, c1, ending) := play cancel p now c in
    match ending with
    | Failed t error =>
        let '(tr', c2) :=
          catchCallback getBackedoffDelay o cancel
            (doRetry getBackedoffDelay o cancel later) t error c1 in
        ((now, EvSubscribe) :: tr ++ tr', c2)
    | _ => ((now, EvSubscribe) :: tr, c1)
    end.
Proof. reflexivity. Qed.

(** One instantiation of the producer and what follows it. *)
Lemma doRetry_cases (o : Options) (cancel : option Z) (p : @Producer Err Val)
    (later : list Producer) (now : Z) (c : Closure) :
  exists tr c1 ending,
    play cancel p now c = (tr, c1, ending) /\
    ((forall t e, ending <> Failed t e) /\
     doRetry getBackedoffDelay o cancel (p :: later) now c
     = ((now, EvSubscribe) :: tr, c1)
     \/
     exists t e tr' c2,
       ending = Failed t e /\
       catchCallback getBackedoffDelay o cancel
         (doRetry getBackedoffDelay o cancel later) t e c1 = (tr', c2) /\
       doRetry getBackedoffDelay o cancel (p :: later) now c
       = ((now, EvSubscribe) :: tr ++ tr', c2)).
Proof.
  rewrite doRetry_cons.
  destruct (play cancel p now c) as [[tr c1] ending]. exists tr, c1, ending.
  split; [reflexivity|].
  destruct ending as [t e| | |]; try (left; split; [discriminate|reflexivity]).
  right. exists t, e.
  destruct (catchCallback _ _ _ _ _ _ _) as [tr' c2]. now exists tr', c2.
Qed.

Lemma doRetry_nil (o : Options) (cancel : option Z) (now : Z) (c : Closure) :
  exists tr c1 ending,
    play (Err := Err) (Val := Val) cancel Never now c = (tr, c1, ending) /\
    doRetry getBackedoffDelay o cancel [] now c = ((now, EvSubscribe) :: tr, c1).
Proof.
  cbn [doRetry].
  destruct (play cancel Never now c) as [[tr c1] ending].
  now exists tr, c1, ending.
Qed.

(** The cases of one step of [doRetry], for a proof by induction on the
    script: [H] is the equation of the run. *)
Ltac run_cases o cancel p later now c H :=
  let tr := fresh "ptr" in
  let c1 := fresh "c1" in
  let en := fresh "en" in
  let P := fresh "P" in
  let NF := fresh "NF" in
  let E := fresh "E" in
  let t := fresh "t0" in
  let e := fresh "e0" in
  let tr' := fresh "tr'" in
  let c2 := fresh "c2" in
  let CB := fresh "CB" in
  let W := fresh "W" in
  let T := fresh "T" in
  let u := fresh "u" in
  let r := fresh "r" in
  let U := fresh "U" in
  let R := fresh "R" in
  let due := fresh "due" in
  let touch := fresh "touch" in
  let c3 := fresh "c3" in
  let tr2 := fresh "tr2" in
  let c4 := fresh "c4" in
  let D := fresh "D" in
  let A := fresh "A" in
  let Hdue := fresh "Hdue" in
  destruct (doRetry_cases o cancel p later now c)
    as (tr & c1 & en & P & [[NF E]|(t & e & tr' & c2 & -> & CB & E)]);
  rewrite E in H; clear E; inversion H; subst; clear H;
  [ | destruct (catchCallback_cases o cancel
                  (doRetry getBackedoffDelay o cancel later) t e c1)
        as [[W E]|[(W & T & E)|[(W & T & u & r & c3 & Hdue & U & R & E)
           |(W & T & due & r & c3 & touch & c4 & tr2 & c5 & Hdue & U & R & D & A & E)]]];
      try discriminate Hdue;
      rewrite E in CB; clear E; inversion CB; subst tr'; subst; clear CB ].

Ltac log_cases H :=
  simpl in H;
  repeat match type of H with
  | In _ (_ ++ _) => apply in_app_or in H; destruct H as [H|H]
  | In _ (_ :: _) => destruct H as [H|H]
  | In _ [] => destruct H
  | _ \/ _ => destruct H as [H|H]
  | False => destruct H
  end.

Ltac log_absurd H :=
  first
    [ discriminate H
    | apply hook_events in H; destruct H as [H _]; discriminate H
    | eapply touch_events in H; [|eassumption]; destruct H as [H _];
      discriminate H
    | eapply timer_events in H; [|eassumption]; destruct H as [? [H _]];
      discriminate H
    | eapply play_events in H; [|eassumption]; discriminate H ].

Ltac adjacent_later A :=
  repeat first [exact A | apply adjacent_cons | apply adjacent_app_l].

Ltac adjacent_here :=
  simpl;
  repeat first [apply adjacent_head | apply adjacent_cons | apply adjacent_app_l].

(** ** Counting in the pieces of a log *)

Lemma errors_none (a : @Trace Err Val) :
  (forall x, In x a -> isError x = false) -> errors a = [].
Proof.
  induction a as [|[t e] a IH]; intros H; [reflexivity|].
  assert (errors a = []) by (apply IH; intros y Hy; apply H; now right).
  specialize (H (t, e) (or_introl eq_refl)).
  destruct e; simpl in *; (assumption || discriminate).
Qed.

Lemma timers_none (a : @Trace Err Val) :
  (forall x, In x a -> isTimer x = false) -> timers a = [].
Proof.
  induction a as [|[t e] a IH]; intros H; [reflexivity|].
  assert (timers a = []) by (apply IH; intros y Hy; apply H; now right).
  specialize (H (t, e) (or_introl eq_refl)).
  destruct e; simpl in *; (assumption || discriminate).
Qed.

Lemma onRetryCalls_none (a : @Trace Err Val) :
  (forall x, In x a -> isOnRetry x = false) -> onRetryCalls a = [].
Proof.
  induction a as [|[t e] a IH]; intros H; [reflexivity|].
  assert (onRetryCalls a = []) by (apply IH; intros y Hy; apply H; now right).
  specialize (H (t, e) (or_introl eq_refl)).
  destruct e; simpl in *; (assumption || discriminate).
Qed.

(** The subscription to the producer schedules, catches and surfaces
    nothing by itself. *)
Lemma play_counts (cancel : option Z) (p : @Producer Err Val) now c tr c' ending :
  play cancel p now c = (tr, c', ending) ->
  count isSubscribe tr = 0%nat /\ count isTimer tr = 0%nat /\
  count isTouch tr = 0%nat /\ count isCatch tr = 0%nat /\
  errors tr = [] /\ timers tr = [] /\ onRetryCalls tr = [].
Proof.
  intros P.
  assert (F : forall x, In x tr -> isForwarded x = true)
    by (intros x Hx; exact (play_events _ _ _ _ _ _ _ P x Hx)).
  repeat split;
    first [apply count_none | apply errors_none | apply timers_none
          | apply onRetryCalls_none];
    intros x Hx; apply F, isForwarded_other in Hx; tauto.
Qed.

Lemma hook_counts (o : Options) (t : Z) (e : Err) (n : Z) :
  let h : @Trace Err Val := onRetryHook o t e n in
  count isSubscribe h = 0%nat /\ count isTimer h = 0%nat /\
  count isTouch h = 0%nat /\ count isReset h = 0%nat /\
  errors h = [] /\ timers h = [] /\
  onRetryCalls h = (if onRetry o then [(e, n)] else []).
Proof. unfold onRetryHook. destruct (onRetry o); cbv; tauto. Qed.

Lemma fired_counts (t : Z) (c c' : Closure) (r : @Trace Err Val) :
  runTimers t c = (r, c') ->
  count isSubscribe r = 0%nat /\ count isTimer r = 0%nat /\
  count isTouch r = 0%nat /\
  errors r = [] /\ timers r = [] /\ onRetryCalls r = [] /\
  (c' = c \/ c' = mkClosure 0 None) /\
  (count isReset r = 0%nat -> c' = c).
Proof.
  destruct (runTimers_cases t c) as [E|[due [_ [_ E]]]]; rewrite E;
    intros [= <- <-]; cbv; intuition discriminate.
Qed.

Lemma touch_counts (o : @Options Err) (t : Z) (c c' : Closure)
    (r : @Trace Err Val) :
  debounceRetryCount o t c = (r, c') ->
  count isSubscribe r = 0%nat /\ count isTimer r = 0%nat /\
  count isReset r = 0%nat /\
  count isTouch r = (if 0 <? resetDelay o then 1%nat else 0%nat) /\
  errors r = [] /\ timers r = [] /\ onRetryCalls r = [] /\
  retryCount c' = retryCount c.
Proof.
  unfold debounceRetryCount. destruct (0 <? resetDelay o);
    intros [= <- <-]; cbv; tauto.
Qed.

Ltac use_counts :=
  repeat match goal with
  | P : play _ _ _ _ = (?tr, _, _) |- _ =>
      lazymatch goal with
      | _ : count isSubscribe tr = 0%nat |- _ => fail
      | _ => pose proof (play_counts _ _ _ _ _ _ _ P)
               as (? & ? & ? & ? & ? & ? & ?)
      end
  | |- context [onRetryHook ?o ?t ?e ?n] =>
      lazymatch goal with
      | _ : count isSubscribe (onRetryHook o t e n) = 0%nat |- _ => fail
      | _ => pose proof (hook_counts o t e n) as (? & ? & ? & ? & ? & ? & ?)
      end
  | _ : context [onRetryHook ?o ?t ?e ?n] |- _ =>
      lazymatch goal with
      | _ : count isSubscribe (onRetryHook o t e n) = 0%nat |- _ => fail
      | _ => pose proof (hook_counts o t e n) as (? & ? & ? & ? & ? & ? & ?)
      end
  | P : runTimers _ _ = (?r, _) |- _ =>
      lazymatch goal with
      | _ : count isSubscribe r = 0%nat |- _ => fail
      | _ => pose proof (fired_counts _ _ _ _ P)
               as (? & ? & ? & ? & ? & ? & ? & ?)
      end
  | P : debounceRetryCount _ _ _ = (?r, _) |- _ =>
      lazymatch goal with
      | _ : count isSubscribe r = 0%nat |- _ => fail
      | _ => pose proof (touch_counts _ _ _ _ _ P)
               as (? & ? & ? & ? & ? & ? & ? & ?)
      end
  end.

Ltac sum_log :=
  unfold retries, attemptsMade, touches, resets in *;
  repeat (progress
            (rewrite ?count_app, ?count_cons, ?count_nil,
               ?errors_app, ?timers_app, ?onRetryCalls_app in *;
             cbn [isSubscribe isTimer isTouch isReset isError isOnRetry
                  isCatch snd errors timers onRetryCalls] in *)).

Ltac zero_counts :=
  repeat match goal with
  | H : errors _ = [] |- _ => try rewrite H in *; clear H
  | H : timers _ = [] |- _ => try rewrite H in *; clear H
  | H : onRetryCalls _ = [] |- _ => try rewrite H in *; clear H
  | H : count _ _ = 0%nat |- _ => try rewrite H in *; clear H
  end.

(** ** The count along a log *)

Lemma tally_app (bump : Z * @Event Err Val -> bool) (n : Z)
    (a b : @Trace Err Val) :
  tally bump n (a ++ b) = tally bump (tally bump n a) b.
Proof. unfold tally. apply fold_left_app. Qed.

Lemma tally_cons (bump : Z * @Event Err Val -> bool) (n : Z)
    (x : Z * @Event Err Val) (a : @Trace Err Val) :
  tally bump n (x :: a) = tally bump (tallyStep bump n x) a.
Proof. reflexivity. Qed.

(** Entries that [bump] ignores leave the tally alone, unless one of them
    is the reset. *)
Lemma tally_idle (bump : Z * @Event Err Val -> bool) (l : @Trace Err Val) :
  count bump l = 0%nat ->
  forall n, tally bump n l = if (resets l =? 0)%nat then n else 0.
Proof.
  unfold resets.
  induction l as [|x l IH]; intros B n; [reflexivity|].
  rewrite count_cons in B. rewrite tally_cons, count_cons. unfold tallyStep.
  destruct (bump x); [discriminate|]. specialize (IH B).
  destruct (isReset x); rewrite IH; simpl; [|reflexivity].
  now destruct (count isReset l =? 0)%nat.
Qed.

(** Without reset, the tally counts. *)
Lemma tally_quiet (bump : Z * @Event Err Val -> bool) (a : @Trace Err Val) :
  resets a = 0%nat ->
  forall n, tally bump n a = n + Z.of_nat (count bump a).
Proof.
  unfold resets.
  induction a as [|x a IH]; intros R n; [unfold tally, count; simpl; lia|].
  rewrite count_cons in R. rewrite tally_cons, count_cons. unfold tallyStep.
  destruct (isReset x); [discriminate|]. rewrite (IH R).
  destruct (bump x); lia.
Qed.

(** After a reset, what came before is forgotten. *)
Lemma tally_reset (bump : Z * @Event Err Val -> bool) (n : Z)
    (a1 a2 : @Trace Err Val) (z : Z * @Event Err Val) :
  isReset z = true -> tally bump n (a1 ++ z :: a2) = tally bump 0 a2.
Proof.
  intros R. rewrite tally_app, tally_cons. unfold tallyStep. now rewrite R.
Qed.

Lemma lawful_app (bump : Z * @Event Err Val -> bool)
    (check : Z -> Z * @Event Err Val -> Prop) (a b : @Trace Err Val) :
  forall n,
    lawful bump check n (a ++ b)
    <-> lawful bump check n a /\ lawful bump check (tally bump n a) b.
Proof.
  induction a as [|x a IH]; intros n; cbn [app lawful]; [unfold tally; simpl; tauto|].
  rewrite IH, tally_cons. tauto.
Qed.

Lemma lawful_at (bump : Z * @Event Err Val -> bool)
    (check : Z -> Z * @Event Err Val -> Prop) (n : Z)
    (a b : @Trace Err Val) (x : Z * @Event Err Val) :
  lawful bump check n (a ++ x :: b) -> check (tally bump n a) x.
Proof. rewrite lawful_app. cbn [lawful]. tauto. Qed.

Lemma lawful_all (bump : Z * @Event Err Val -> bool)
    (check : Z -> Z * @Event Err Val -> Prop) (l : @Trace Err Val) :
  (forall x, In x l -> forall m, check m x) ->
  forall n, lawful bump check n l.
Proof.
  induction l as [|x l IH]; intros H n; simpl; [exact I|]. split.
  - apply H. now left.
  - apply IH. intros y Hy. apply H. now right.
Qed.

(** A piece of the log that carries no number, and what it does to the
    tally. *)
Lemma lawful_piece (bump : Z * @Event Err Val -> bool)
    (check : Z -> Z * @Event Err Val -> Prop) (l rest : @Trace Err Val)
    (n m : Z) :
  (forall x, In x l -> forall k, check k x) ->
  tally bump n l = m ->
  lawful bump check m rest ->
  lawful bump check n (l ++ rest).
Proof.
  intros H <- L. apply lawful_app. split; [now apply lawful_all|exact L].
Qed.

Lemma isForwarded_accepted (o : Options) (x : Z * @Event Err Val) :
  isForwarded x = true -> isAccepted o x = false.
Proof. destruct x as [t []]; cbv; congruence. Qed.

Lemma isForwarded_lawful (o : Options) (x : Z * @Event Err Val) :
  isForwarded x = true ->
  (forall k, countLaw k x) /\ (forall k, rankLaw getBackedoffDelay o k x).
Proof. destruct x as [t []]; cbv; intuition congruence. Qed.

(** The subscription to the producer: the tally follows the count. *)
Lemma play_tally (o : Options) (cancel : option Z) (p : @Producer Err Val) now c tr c'
    ending :
  play cancel p now c = (tr, c', ending) ->
  tally isTimer (retryCount c) tr = retryCount c' /\
  tally (isAccepted o) (retryCount c) tr = retryCount c' /\
  (forall x, In x tr -> forall k, countLaw k x) /\
  (forall x, In x tr -> forall k, rankLaw getBackedoffDelay o k x).
Proof.
  intros P.
  assert (F : forall x, In x tr -> isForwarded x = true)
    by (intros x Hx; exact (play_events _ _ _ _ _ _ _ P x Hx)).
  assert (T : forall bump, (forall x, isForwarded x = true -> bump x = false) ->
            tally bump (retryCount c) tr = retryCount c').
  { intros bump B. rewrite tally_idle
      by (apply count_none; intros x Hx; apply B, F, Hx).
    destruct (play_closure _ _ _ _ _ _ _ P) as [[-> ->]|(-> & -> & _)];
      reflexivity. }
  split; [apply T; intros x Hx; apply isForwarded_other in Hx; tauto|].
  split; [apply T; intros x Hx; now apply isForwarded_accepted|].
  split; intros x Hx; apply F, (isForwarded_lawful o) in Hx; tauto.
Qed.

Lemma fired_tally (o : Options) (t : Z) (c c' : Closure) (r : @Trace Err Val) :
  runTimers t c = (r, c') ->
  tally isTimer (retryCount c) r = retryCount c' /\
  tally (isAccepted o) (retryCount c) r = retryCount c' /\
  (forall x, In x r -> forall k, countLaw k x) /\
  (forall x, In x r -> forall k, rankLaw getBackedoffDelay o k x).
Proof.
  destruct (runTimers_cases t c) as [E|[due [_ [_ E]]]]; rewrite E;
    intros [= <- <-]; (split; [reflexivity|split; [reflexivity|split]]);
    intros x Hx k; simpl in Hx; try contradiction;
    destruct Hx as [<-|[]]; exact I.
Qed.

Lemma touch_tally (o : Options) (t : Z) (c c' : Closure) (r : @Trace Err Val) :
  debounceRetryCount o t c = (r, c') ->
  tally isTimer (retryCount c) r = retryCount c' /\
  tally (isAccepted o) (retryCount c) r = retryCount c' /\
  (forall x, In x r -> forall k, countLaw k x) /\
  (forall x, In x r -> forall k, rankLaw getBackedoffDelay o k x).
Proof.
  unfold debounceRetryCount. destruct (0 <? resetDelay o);
    intros [= <- <-]; (split; [reflexivity|split; [reflexivity|split]]);
    intros x Hx k; simpl in Hx; try contradiction;
    destruct Hx as [<-|[]]; exact I.
Qed.

Lemma hook_tally (o : Options) (t : Z) (e : Err) (n : Z) :
  let h : @Trace Err Val := onRetryHook o t e (n + 1) in
  tally isTimer n h = n /\
  (forall m, tally (isAccepted o) m h = m) /\
  (forall x, In x h -> forall k, countLaw k x) /\
  (forall x, In x h -> rankLaw getBackedoffDelay o n x).
Proof.
  unfold onRetryHook.
  destruct (onRetry o);
    (split; [reflexivity|split; [intros m; reflexivity|split]]);
    intros x Hx; try intros k; simpl in Hx; try contradiction;
    destruct Hx as [<-|[]]; first [exact I|reflexivity].
Qed.

Ltac law o :=
  repeat first
    [ exact I
    | reflexivity
    | assumption
    | progress cbn [lawful app tallyStep isReset isTimer isAccepted snd fst
                    countLaw rankLaw retryCount]
    | match goal with
      | W : wantRetry _ _ = _ |- context [wantRetry _ _] => rewrite W
      | P : play _ _ _ _ = (?l, _, _) |- lawful _ _ _ (?l ++ _) =>
          eapply lawful_piece;
          [apply (play_tally o _ _ _ _ _ _ _ P)
          |apply (play_tally o _ _ _ _ _ _ _ P)|]
      | P : play _ _ _ _ = (?l, _, _) |- lawful _ _ _ ?l =>
          apply lawful_all; apply (play_tally o _ _ _ _ _ _ _ P)
      | P : runTimers _ _ = (?l, _) |- lawful _ _ _ (?l ++ _) =>
          eapply lawful_piece;
          [apply (fired_tally o _ _ _ _ P)|apply (fired_tally o _ _ _ _ P)|]
      | P : debounceRetryCount _ _ _ = (?l, _) |- lawful _ _ _ (?l ++ _) =>
          eapply lawful_piece;
          [apply (touch_tally o _ _ _ _ P)|apply (touch_tally o _ _ _ _ P)|]
      | |- lawful isTimer _ ?n (onRetryHook ?o' ?t ?e _ ++ _) =>
          apply lawful_app; split;
          [unfold onRetryHook; destruct (onRetry o')
          |rewrite (proj1 (hook_tally o' t e n))]
      | |- lawful (isAccepted _) _ ?n (onRetryHook ?o' ?t ?e (?m + 1) ++ _) =>
          eapply lawful_piece;
          [apply (hook_tally o' t e m)|apply (hook_tally o' t e m)|]
      | |- _ /\ _ => split
      end ].

Lemma tally_nil (bump : Z * @Event Err Val -> bool) (n : Z) :
  tally bump n [] = n.
Proof. reflexivity. Qed.

Ltac tally_facts o :=
  repeat match goal with
  | P : play _ _ _ _ = (?l, _, _) |- _ =>
      lazymatch goal with
      | _ : tally (isAccepted o) _ l = _ |- _ => fail
      | _ => pose proof (proj1 (proj2 (play_tally o _ _ _ _ _ _ _ P)))
      end
  | P : runTimers _ _ = (?l, _) |- _ =>
      lazymatch goal with
      | _ : tally (isAccepted o) _ l = _ |- _ => fail
      | _ => pose proof (proj1 (proj2 (fired_tally o _ _ _ _ P)))
      end
  | P : debounceRetryCount _ _ _ = (?l, _) |- _ =>
      lazymatch goal with
      | _ : tally (isAccepted o) _ l = _ |- _ => fail
      | _ => pose proof (proj1 (proj2 (touch_tally o _ _ _ _ P)))
      end
  end;
  cbn [retryCount] in *.

Ltac tallied o :=
  unfold countAfter; tally_facts o;
  repeat first
    [ reflexivity
    | rewrite tally_cons
    | rewrite tally_app
    | rewrite tally_nil
    | progress cbn [tallyStep isReset isAccepted snd retryCount]
    | match goal with
      | W : wantRetry _ _ = _ |- context [wantRetry _ _] => rewrite W
      | H : tally _ _ ?l = _ |- context [tally _ _ ?l] => rewrite H
      | |- context [tally _ _ (onRetryHook ?o' ?t ?e (?m + 1))] =>
          rewrite (proj1 (proj2 (hook_tally o' t e m)))
      end ].

(** The numbers in the log of a use are those of the count, which only the
    reset and the catch callback write. *)
Lemma count_law (o : Options) (cancel : option Z)
    (script : list (@Producer Err Val)) :
  forall now c tr c',
    doRetry getBackedoffDelay o cancel script now c = (tr, c') ->
    lawful isTimer (rankLaw getBackedoffDelay o) (retryCount c) tr /\
    lawful (isAccepted o) countLaw (retryCount c) tr /\
    retryCount c' = countAfter o (retryCount c) tr.
Proof.
  induction script as [|p later IH]; intros now c tr c' H.
  - destruct (doRetry_nil o cancel now c) as (ptr & c1 & en & P & E).
    rewrite E in H. inversion H; subst.
    split; [law o|]. split; [law o|]. tallied o.
  - run_cases o cancel p later now c H;
      try (destruct (IH _ _ _ _ A) as (I1 & I2 & I3));
      (split; [law o|split; [law o|]]).
    all: try (unfold countAfter in I3; rewrite I3).
    all: tallied o.
Qed.

(** The numbers carried by an entry, from what precedes it in the log. *)
Lemma entry_numbers (o : Options) (cancel : option Z)
    (script : list (@Producer Err Val)) (now : Z) (c c' : Closure)
    (a b : @Trace Err Val) (x : Z * @Event Err Val) :
  doRetry getBackedoffDelay o cancel script now c = (a ++ x :: b, c') ->
  rankLaw getBackedoffDelay o (tally isTimer (retryCount c) a) x /\
  countLaw (countAfter o (retryCount c) a) x.
Proof.
  intros H. destruct (count_law _ _ _ _ _ _ _ H) as (L1 & L2 & _).
  split; [exact (lawful_at _ _ _ _ _ _ L1)|exact (lawful_at _ _ _ _ _ _ L2)].
Qed.

(** Since the start of the use, or since the last reset. *)
Lemma tally_since (bump : Z * @Event Err Val -> bool) (n : Z)
    (a : @Trace Err Val) :
  (resets a = 0%nat -> tally bump n a = n + Z.of_nat (count bump a)) /\
  (forall a1 z a2,
     a = a1 ++ z :: a2 -> isReset z = true -> resets a2 = 0%nat ->
     tally bump n a = Z.of_nat (count bump a2)).
Proof.
  split; [intros R; now apply tally_quiet|].
  intros a1 z a2 -> Rz R. rewrite (tally_reset _ _ _ _ _ Rz).
  now rewrite tally_quiet.
Qed.



(** ** What reaches the caller on give-up *)

Lemma giveUp_selected (o : Options) (cancel : option Z)
    (script : list (@Producer Err Val)) :
  forall now c tr c' t e',
    doRetry getBackedoffDelay o cancel script now c = (tr, c') ->
    In (t, EvError e') tr ->
    exists e n,
      adjacent (t, EvCatch e n) (t, EvError e') tr /\
      e' = thrown o e (if wantRetry o e then n + 1 else n) /\
      (wantRetry o e = true -> totalRetry o <= n) /\
      retryCount c' = (if wantRetry o e then n + 1 else n) /\
      (resets tr = 0%nat -> n = retryCount c + Z.of_nat (retries tr)) /\
      (0 <= retryCount c <= totalRetry o -> n <= totalRetry o).
Proof.
  induction script as [|p later IH]; intros now c tr c' t e' H I.
  - destruct (doRetry_nil o cancel now c) as (ptr & c1 & en & P & E).
    rewrite E in H. inversion H; subst. log_cases I; log_absurd I.
  - run_cases o cancel p later now c H;
      pose proof (play_closure _ _ _ _ _ _ _ P) as PC;
      log_cases I; try (log_absurd I).
    + inversion I; subst; clear I. exists e0, (retryCount c'). rewrite W.
      split; [now exists ((now, EvSubscribe) :: ptr), []|].
      split; [reflexivity|]. split; [discriminate|]. split; [reflexivity|].
      use_counts. split.
      * intros R. sum_log. destruct PC as [[_ ->]|[? _]]; lia.
      * destruct PC as [[_ ->]|[_ [-> _]]]; simpl; lia.
    + inversion I; subst; clear I. exists e0, (retryCount c1). rewrite W.
      split; [now exists ((now, EvSubscribe) :: ptr), []|].
      split; [reflexivity|]. split; [intros _; assumption|].
      split; [reflexivity|].
      use_counts. split.
      * intros R. sum_log. destruct PC as [[_ ->]|[? _]]; lia.
      * destruct PC as [[_ ->]|[_ [-> _]]]; simpl; lia.
    + destruct (IH _ _ _ _ _ _ A I) as (e & n & Ad & S & X & K & Q & B).
      exists e, n.
      split; [adjacent_later Ad|]. split; [assumption|].
      split; [assumption|]. split; [assumption|].
      use_counts. split.
      * intros R'. sum_log. rewrite Q by lia.
        assert (c3 = mkClosure (retryCount c1 + 1) (timer c1)) as -> by
          (match goal with H : _ -> c3 = _ |- _ => apply H end; lia).
        destruct PC as [[_ ->]|[? _]]; simpl in *; lia.
      * intros I'. apply B.
        repeat match goal with
        | H : _ \/ _ |- _ => destruct H; subst
        | H : _ /\ _ |- _ => destruct H; subst
        end; simpl in *; lia.
Qed.

(** C3 (as amended).  Whenever an error reaches the caller, the catch
    callback has just been entered with some error [e] while [retryCount]
    held [n], and the error is [errorSelector(e, m)] when an [errorSelector]
    is configured, [e] itself otherwise; [m] is [n] when [shouldRetry] refused
    [e], and [n + 1] when [e] was accepted and the budget was spent
    ([n >= totalRetry]): in that case the count is incremented before
    [errorSelector] reads it.  This holds for every use of either wrapper,
    whatever earlier uses left in the closure. *)
Theorem giveUp_error_selected (o : Options) (obs : list (@Producer Err Val))
    {Args : Type} (fn : Args -> list (@Producer Err Val))
    (u : Use unit) (v : Use Args) (c : Closure) :
  let selected (tr : @Trace Err Val) :=
    forall t e', In (t, EvError e') tr ->
      exists e n,
        adjacent (t, EvCatch e n) (t, EvError e') tr /\
        (wantRetry o e = true -> totalRetry o <= n) /\
        match errorSelector o with
        | Some f => e' = f e (if wantRetry o e then n + 1 else n)
        | None => e' = e
        end in
  selected (fst (body (retryWithBackoff getBackedoffDelay obs o) u c)) /\
  selected (fst (body (retryableFuncWithBackoff getBackedoffDelay fn o) v c)).
Proof.
  simpl. split; intros t e' H.
  - rewrite source_doRetry in *.
    destruct (doRetry getBackedoffDelay o _ _ _ c) as [tr c'] eqn:E.
    destruct (giveUp_selected _ _ _ _ _ _ _ _ _ E H) as (e & n & A & -> & T & _).
    exists e, n. repeat split; [exact A|exact T|].
    unfold thrown. now destruct (errorSelector o).
  - destruct (doRetry getBackedoffDelay o _ _ _ c) as [tr c'] eqn:E.
    destruct (giveUp_selected _ _ _ _ _ _ _ _ _ E H) as (e & n & A & -> & T & _).
    exists e, n. repeat split; [exact A|exact T|].
    unfold thrown. now destruct (errorSelector o).
Qed.


(** ** The delays *)


(** ** Failures in a row *)




(** ** No reset without [resetDelay] *)

Lemma disabled_reset (o : Options) (cancel : option Z)
    (script : list (@Producer Err Val)) :
  forall now c tr c',
    resetDelay o <= 0 -> timer c = None ->
    doRetry getBackedoffDelay o cancel script now c = (tr, c') ->
    resets tr = 0%nat /\ touches tr = 0%nat /\ timer c' = None.
Proof.
  induction script as [|p later IH]; intros now c tr c' D T H.
  - destruct (doRetry_nil o cancel now c) as (ptr & c1 & en & P & E).
    rewrite E in H. inversion H; subst.
    destruct (play_idle _ _ _ _ _ _ _ P T) as [R ->].
    use_counts. sum_log. zero_counts. now repeat split.
  - run_cases o cancel p later now c H;
      destruct (play_idle _ _ _ _ _ _ _ P T) as [Rp ?]; subst;
      repeat match goal with
      | H : runTimers _ _ = _ |- _ =>
          rewrite runTimers_idle in H by assumption; inversion H; subst; clear H
      end;
      try match goal with
      | H : debounceRetryCount _ _ _ = _ |- _ =>
          unfold debounceRetryCount in H;
          destruct (Z.ltb_spec 0 (resetDelay o)); [lia|];
          inversion H; subst; clear H
      end;
      try match goal with
      | H : doRetry _ _ _ _ _ _ = _ |- _ =>
          eapply IH in H as (R1 & R2 & R3); [|assumption|simpl; assumption]
      end;
      use_counts; sum_log; zero_counts;
      repeat split; try assumption; try reflexivity; try lia.
Qed.



(** ** The calls of [onRetry] up to the last failure *)

Lemma quiet_after (f : Z * @Event Err Val -> bool) (l : @Trace Err Val) :
  existsb f l = false -> quietBefore f l = true.
Proof.
  induction l as [|x l IH]; [reflexivity|]. cbn [existsb quietBefore].
  intros H. apply orb_false_elim in H. destruct H as [_ H].
  destruct (isReset x); [now rewrite H|now apply IH].
Qed.





(** ** An error refused by [shouldRetry] *)




(** ** When the debounce timer is touched *)

Lemma doRetry_head (o : Options) (cancel : option Z)
    (script : list (@Producer Err Val)) (now : Z) (c : Closure) :
  exists rest,
    fst (doRetry getBackedoffDelay o cancel script now c)
    = (now, EvSubscribe) :: rest.
Proof.
  destruct script as [|p later].
  - destruct (doRetry_nil o cancel now c) as (ptr & c1 & en & P & ->).
    now exists ptr.
  - destruct (doRetry_cases o cancel p later now c)
      as (tr & c1 & en & P & [[NF ->]|(t & e & tr' & c2 & -> & CB & ->)]);
      simpl; eauto.
Qed.

Lemma touched (o : Options) (cancel : option Z)
    (script : list (@Producer Err Val)) :
  forall now c tr c',
    doRetry getBackedoffDelay o cancel script now c = (tr, c') ->
    touches tr = (if 0 <? resetDelay o then pred (attemptsMade tr) else 0%nat) /\
    (1 <= attemptsMade tr)%nat /\
    forall t,
      In (t, EvTouch) tr ->
      adjacent (t, EvTouch) (t, EvSubscribe) tr /\
      exists t0 d, In (t0, EvTimer d) tr /\ t = t0 + hostDelay d.
Proof.
  induction script as [|p later IH]; intros now c tr c' H.
  - destruct (doRetry_nil o cancel now c) as (ptr & c1 & en & P & E).
    rewrite E in H. inversion H; subst. use_counts. sum_log.
    split; [zero_counts; now destruct (0 <? resetDelay o)|].
    split; [lia|]. intros t I. log_cases I; log_absurd I.
  - run_cases o cancel p later now c H; use_counts; sum_log;
      [ split; [zero_counts; now destruct (0 <? resetDelay o)|];
        split; [lia|]; intros t I; log_cases I; log_absurd I ..
      | split; [|split; [lia|]] ].
    + destruct (IH _ _ _ _ A) as (I1 & I2 & _). unfold touches, attemptsMade in *.
      rewrite I1.
      match goal with H : count isTouch touch = _ |- _ => rewrite H end.
      zero_counts. destruct (0 <? resetDelay o); lia.
    + intros t I. log_cases I; try (log_absurd I).
      * pose proof (touch_events _ _ _ _ _ _ D I) as [E L]. inversion E; subst.
        unfold debounceRetryCount in D.
        destruct (Z.ltb_spec 0 (resetDelay o)); [|lia].
        inversion D; subst.
        destruct (doRetry_head o cancel later
                    (t0 + hostDelay (getBackedoffDelay t0 (retryDelay o)
                                     (retryCount c1 + 1)))
                    {| retryCount := retryCount c3;
                       timer := debounce (resetDelay o)
                                  (t0 + hostDelay (getBackedoffDelay t0
                                                   (retryDelay o)
                                                   (retryCount c1 + 1)))
                                  (timer c3) |})
          as [rest Hd].
        rewrite A in Hd. simpl in Hd. subst tr2. split.
        -- adjacent_here.
        -- exists t0, (getBackedoffDelay t0 (retryDelay o) (retryCount c1 + 1)).
           split; [|reflexivity].
           right. apply in_or_app. right. right. apply in_or_app. right.
           now left.
      * destruct (IH _ _ _ _ A) as (_ & _ & I3).
        destruct (I3 _ I) as (Ad & t1 & d1 & It & Et).
        split; [adjacent_later Ad|].
        exists t1, d1. split; [|assumption].
        right. apply in_or_app. right. right. apply in_or_app. right.
        right. apply in_or_app. right. apply in_or_app. now right.
Qed.

(** C8 (as amended).  In every use of either wrapper, with [resetDelay > 0],
    [debounceRetryCount] is called once for each instantiation of the
    producer after the first: at the instant the delay of a retry elapses
    and right before the producer is instantiated again, whether or not
    that instantiation will ever send a value or complete.  It is called at
    no other moment, and never when [resetDelay <= 0]. *)
Theorem touch_when_delay_elapses (o : Options) (obs : list (@Producer Err Val))
    {Args : Type} (fn : Args -> list (@Producer Err Val))
    (u : Use unit) (v : Use Args) (c : Closure) :
  let touchedOnRestart (tr : @Trace Err Val) :=
    touches tr = (if 0 <? resetDelay o then pred (attemptsMade tr) else 0%nat) /\
    forall t,
      In (t, EvTouch) tr ->
      adjacent (t, EvTouch) (t, EvSubscribe) tr /\
      exists t0 d, In (t0, EvTimer d) tr /\ t = t0 + hostDelay d in
  touchedOnRestart (fst (body (retryWithBackoff getBackedoffDelay obs o) u c)) /\
  touchedOnRestart
    (fst (body (retryableFuncWithBackoff getBackedoffDelay fn o) v c)).
Proof.
  cbn [body retryWithBackoff retryableFuncWithBackoff]. split.
  - rewrite source_doRetry.
    destruct (doRetry getBackedoffDelay o _ _ _ _) as [tr c'] eqn:E.
    destruct (touched _ _ _ _ _ _ _ E) as (T1 & _ & T3). now split.
  - destruct (doRetry getBackedoffDelay o _ _ _ _) as [tr c'] eqn:E.
    destruct (touched _ _ _ _ _ _ _ E) as (T1 & _ & T3). now split.
Qed.

(** ** Once the caller has left *)

Lemma unsubscribedBefore_Some (u t z : Z) :
  unsubscribedBefore (Some u) t = Some z -> z = u /\ u < t.
Proof.
  unfold unsubscribedBefore. destruct (Z.ltb_spec u t); [|discriminate].
  now intros [= <-].
Qed.

Lemma unsubscribedBefore_None (u t : Z) :
  unsubscribedBefore (Some u) t = None -> t <= u.
Proof.
  unfold unsubscribedBefore. destruct (Z.ltb_spec u t); [discriminate|].
  intros _. lia.
Qed.

Lemma play_stamps (u : Z) (p : @Producer Err Val) :
  forall now c tr c' ending,
    play (Some u) p now c = (tr, c', ending) -> now <= u ->
    forall x, In x tr -> fst x <= u.
Proof.
  induction p as [dt v rest IH|dt e0|dt|]; cbn [play];
    intros now c tr c' ending H L x I; split_in H;
    repeat match goal with
    | H : unsubscribedBefore (Some _) _ = Some _ |- _ =>
        apply unsubscribedBefore_Some in H; destruct H as [-> ?]
    | H : unsubscribedBefore (Some _) _ = None |- _ =>
        apply unsubscribedBefore_None in H
    end;
    inversion H; subst; clear H; log_cases I;
    try (eapply timer_events in I; [|eassumption];
         destruct I as (due & -> & _ & D); simpl; lia);
    try (subst x; simpl; lia).
  eapply IH; [eassumption| |eassumption]. lia.
Qed.

(** Nothing is logged at an instant later than the one at which the caller
    unsubscribes. *)
Lemma stamps (o : Options) (u : Z) (script : list (@Producer Err Val)) :
  forall now c tr c',
    doRetry getBackedoffDelay o (Some u) script now c = (tr, c') ->
    now <= u ->
    forall x, In x tr -> fst x <= u.
Proof.
  induction script as [|p later IH]; intros now c tr c' H L x I.
  - destruct (doRetry_nil o (Some u) now c) as (ptr & c1 & en & P & E).
    rewrite E in H. inversion H; subst. log_cases I.
    + subst x. simpl. lia.
    + exact (play_stamps _ _ _ _ _ _ _ P L x I).
  - run_cases o (Some u) p later now c H;
      try (apply play_Failed in P as P'; destruct P' as (_ & _ & P' & _);
           apply unsubscribedBefore_None in P');
      try (apply unsubscribedBefore_None in U);
      log_cases I;
      try (subst x; simpl; lia);
      try (exact (play_stamps _ _ _ _ _ _ _ P L x I));
      try (apply hook_events in I; destruct I as [-> _]; simpl; lia);
      try (eapply timer_events in I; [|eassumption];
           destruct I as (due' & -> & _ & D'); simpl; lia);
      try (eapply touch_events in I; [|eassumption];
           destruct I as [-> _]; simpl; lia).
    + inversion Hdue; subst.
      eapply timer_events in I; [|eassumption].
      destruct I as (due' & -> & _ & D'). simpl. lia.
    + inversion Hdue; subst. simpl. lia.
    + eapply IH; [eassumption| |eassumption]. lia.
Qed.

(** A timer that is pending when the caller unsubscribes never fires:
    nothing follows its start in the log but the teardown. *)
Lemma cancelled_wait (o : Options) (u : Z) (script : list (@Producer Err Val)) :
  forall now c tr c' a b t d,
    doRetry getBackedoffDelay o (Some u) script now c = (tr, c') ->
    tr = a ++ (t, EvTimer d) :: b ->
    u < t + hostDelay d ->
    exists r, b = r ++ [(u, EvUnsubscribe)] /\
              forall x, In x r -> snd x = EvReset.
Proof.
  induction script as [|p later IH]; intros now c tr c' a b t d H E L.
  - destruct (doRetry_nil o (Some u) now c) as (ptr & c1 & en & P & E').
    rewrite E' in H. revert E. inversion H; subst. intros E.
    assert (I : In (t, EvTimer d) ((now, EvSubscribe) :: ptr))
      by (rewrite E; apply in_elt).
    log_cases I; log_absurd I.
  - revert E. run_cases o (Some u) p later now c H; intros E;
      try (assert (I : In (t, EvTimer d) (a ++ (t, EvTimer d) :: b))
             by apply in_elt;
           rewrite <- E in I; log_cases I; log_absurd I).
    + change ((now, EvSubscribe) :: ptr
                ++ (t0, EvCatch e0 (retryCount c1))
                :: onRetryHook o t0 e0 (retryCount c1 + 1)
                ++ (t0, EvTimer (getBackedoffDelay t0 (retryDelay o)
                                   (retryCount c1 + 1)))
                :: r ++ [(u0, EvUnsubscribe)])
        with (((now, EvSubscribe) :: ptr)
                ++ ((t0, EvCatch e0 (retryCount c1))
                    :: onRetryHook o t0 e0 (retryCount c1 + 1))
                ++ (t0, EvTimer (getBackedoffDelay t0 (retryDelay o)
                                   (retryCount c1 + 1)))
                :: r ++ [(u0, EvUnsubscribe)]) in E.
      rewrite app_assoc in E.
      apply (skip_prefix isTimer) in E; [|intros y I|reflexivity].
      * destruct E as (a' & _ & E). inversion Hdue; subst u0.
        destruct a' as [|z a']; simpl in E; inversion E; subst.
        -- exists r. split; [reflexivity|].
           intros x I. eapply timer_events in I; [|eassumption].
           now destruct I as (due' & -> & _).
        -- assert (I : In (t, EvTimer d) (r ++ [(u, EvUnsubscribe)]))
             by (rewrite H1; apply in_elt).
           log_cases I; log_absurd I.
      * log_cases I; try (subst y; reflexivity).
        -- apply (play_events _ _ _ _ _ _ _ P), isForwarded_other in I. tauto.
        -- apply hook_events in I. now destruct I as [-> _].
    + change ((now, EvSubscribe) :: ptr
                ++ (t0, EvCatch e0 (retryCount c1))
                :: onRetryHook o t0 e0 (retryCount c1 + 1)
                ++ (t0, EvTimer (getBackedoffDelay t0 (retryDelay o)
                                   (retryCount c1 + 1)))
                :: r ++ touch ++ tr2)
        with (((now, EvSubscribe) :: ptr)
                ++ ((t0, EvCatch e0 (retryCount c1))
                    :: onRetryHook o t0 e0 (retryCount c1 + 1))
                ++ (t0, EvTimer (getBackedoffDelay t0 (retryDelay o)
                                   (retryCount c1 + 1)))
                :: r ++ touch ++ tr2) in E.
      rewrite app_assoc in E.
      apply (skip_prefix isTimer) in E; [|intros y I|reflexivity].
      * destruct E as (a' & _ & E).
        apply unsubscribedBefore_None in U.
        destruct a' as [|z a']; simpl in E; inversion E; subst; [lia|].
        rewrite app_assoc in H1.
        apply (skip_prefix isTimer) in H1; [|intros y I|reflexivity].
        -- destruct H1 as (a'' & _ & E2).
           exact (IH _ _ _ _ _ _ _ _ A E2 L).
        -- log_cases I.
           ++ eapply timer_events in I; [|eassumption].
              now destruct I as (due' & -> & _).
           ++ eapply touch_events in I; [|eassumption].
              now destruct I as [-> _].
      * log_cases I; try (subst y; reflexivity).
        -- apply (play_events _ _ _ _ _ _ _ P), isForwarded_other in I. tauto.
        -- apply hook_events in I. now destruct I as [-> _].
Qed.

(** C9.  Let the caller unsubscribe at [z] from a use of either wrapper
    made no later than [z].  Nothing is logged at a later instant.  And if
    a timer was started at [t] with a delay that has not elapsed at [z],
    the log has nothing after the start of that timer but the reset of the
    count, if it is due, and the unsubscription: the timer does not fire,
    the producer is not instantiated again, and no value, completion or
    error reaches the caller. *)
Theorem cancel_during_delay (o : Options) (obs : list (@Producer Err Val))
    {Args : Type} (fn : Args -> list (@Producer Err Val))
    (u : Use unit) (v : Use Args) (c : Closure) (z : Z) :
  let silenced (cancel : option Z) (now : Z) (tr : @Trace Err Val) :=
    cancel = Some z -> now <= z ->
    (forall x, In x tr -> fst x <= z) /\
    forall a b t d,
      tr = a ++ (t, EvTimer d) :: b ->
      z < t + hostDelay d ->
      exists r, b = r ++ [(z, EvUnsubscribe)] /\
                forall x, In x r -> snd x = EvReset in
  silenced (cancelAt u) (start u)
    (fst (body (retryWithBackoff getBackedoffDelay obs o) u c)) /\
  silenced (cancelAt v) (start v)
    (fst (body (retryableFuncWithBackoff getBackedoffDelay fn o) v c)).
Proof.
  cbn [body retryWithBackoff retryableFuncWithBackoff].
  split; intros C L; rewrite C.
  - rewrite source_doRetry.
    destruct (doRetry getBackedoffDelay o _ _ _ _) as [tr c'] eqn:E. simpl.
    split; [exact (stamps _ _ _ _ _ _ _ E L)|].
    intros a b t d S W. exact (cancelled_wait _ _ _ _ _ _ _ _ _ _ _ E S W).
  - destruct (doRetry getBackedoffDelay o _ _ _ _) as [tr c'] eqn:E. simpl.
    split; [exact (stamps _ _ _ _ _ _ _ E L)|].
    intros a b t d S W. exact (cancelled_wait _ _ _ _ _ _ _ _ _ _ _ E S W).
Qed.

(** ** The reset of the count *)


(** ** Successive uses of one wrapper *)


(** Without reset, each retry takes one unit of the budget for good. *)
Lemma budget (o : Options) (cancel : option Z)
    (script : list (@Producer Err Val)) :
  forall now c tr c',
    doRetry getBackedoffDelay o cancel script now c = (tr, c') ->
    resets tr = 0%nat ->
    retryCount c + Z.of_nat (retries tr) <= retryCount c' /\
    (retries tr = 0%nat \/
     retryCount c + Z.of_nat (retries tr) <= totalRetry o).
Proof.
  induction script as [|p later IH]; intros now c tr c' H R.
  - destruct (doRetry_nil o cancel now c) as (ptr & c1 & en & P & E).
    rewrite E in H. inversion H; subst. use_counts. sum_log.
    rewrite (play_quiet _ _ _ _ _ _ _ P) by (unfold resets; lia).
    zero_counts. simpl. split; [lia|now left].
  - run_cases o cancel p later now c H; use_counts; sum_log;
      match type of P with
      | play _ _ _ _ = (_, ?c1, _) =>
          assert (c1 = c)
            by (apply (play_quiet _ _ _ _ _ _ _ P); unfold resets; lia);
          subst
      end;
      repeat match goal with
      | H : count isReset ?r = 0%nat -> _ = _ |- _ =>
          rewrite H in * by lia; clear H
      end;
      try (zero_counts; cbn [retryCount] in *; split; [lia|(now left) || lia]).
    destruct (IH _ _ _ _ A ltac:(unfold resets; lia)) as [I1 I2].
    zero_counts. cbn [retryCount] in *. unfold retries in *. split; lia.
Qed.

Lemma uses_budget (o : Options) {In : Type} (w : Wrapper In)
    (script : Use In -> list (@Producer Err Val)) :
  (forall u c,
     body w u c
     = doRetry getBackedoffDelay o (cancelAt u) (script u) (start u) c) ->
  resetDelay o <= 0 ->
  forall us c trs c',
    uses w us c = (trs, c') -> timer c = None ->
    Z.of_nat (list_sum (map retries trs))
    <= Z.max 0 (totalRetry o - retryCount c).
Proof.
  intros W D. induction us as [|u us IH]; intros c trs c' H T.
  - inversion H; subst. simpl. lia.
  - cbn [uses] in H. rewrite (runTimers_idle (start u) c T) in H.
    rewrite W in H. cbn [app] in H.
    destruct (doRetry getBackedoffDelay o (cancelAt u) (script u) (start u) c)
      as [tr c1] eqn:E.
    destruct (uses w us c1) as [trs' c2] eqn:E'. inversion H; subst.
    destruct (disabled_reset _ _ _ _ _ _ _ D T E) as (R1 & R2 & R3).
    destruct (budget _ _ _ _ _ _ _ E R1) as [B1 B2].
    specialize (IH _ _ _ E' R3). simpl. lia.
Qed.

(** The uses of one wrapper, their logs put end to end, are one log for
    the count. *)
Lemma uses_law (o : Options) {In : Type} (w : Wrapper In)
    (script : Use In -> list (@Producer Err Val)) :
  (forall u c,
     body w u c
     = doRetry getBackedoffDelay o (cancelAt u) (script u) (start u) c) ->
  forall us c trs c',
    uses w us c = (trs, c') ->
    lawful (isAccepted o) countLaw (retryCount c) (concat trs) /\
    retryCount c' = countAfter o (retryCount c) (concat trs).
Proof.
  intros W. induction us as [|u us IH]; intros c trs c' H.
  - inversion H; subst. split; [exact I|reflexivity].
  - cbn [uses] in H.
    destruct (runTimers (start u) c) as [r c0] eqn:R.
    rewrite W in H.
    destruct (doRetry getBackedoffDelay o (cancelAt u) (script u) (start u) c0)
      as [tr c1] eqn:E.
    destruct (uses w us c1) as [trs' c2] eqn:E'. inversion H; subst.
    destruct (count_law _ _ _ _ _ _ _ E) as (_ & L2 & L3).
    destruct (IH _ _ _ E') as [J1 J2].
    destruct (fired_tally o _ _ _ _ R) as (_ & F2 & F3 & _).
    unfold countAfter in *. cbn [concat]. rewrite <- app_assoc. split.
    + eapply lawful_piece; [exact F3|exact F2|].
      apply lawful_app. split; [exact L2|]. rewrite <- L3. exact J1.
    + rewrite !tally_app, F2, <- L3. exact J2.
Qed.

Lemma accepted_caught (o : Options) (a : @Trace Err Val) :
  count isCatch a = 0%nat -> count (isAccepted o) a = 0%nat.
Proof.
  induction a as [|[t ev] a IH]; [reflexivity|].
  rewrite !count_cons. destruct ev; cbn [isCatch isAccepted snd];
    try exact IH; discriminate.
Qed.

(** C2 (as amended).  The count and the debounce timer are created by the
    call of [retryWithBackoff] or [retryableFuncWithBackoff], once for the
    wrapper, and every subscription to the returned observable and every
    call of the returned function reads and writes them.  For uses of one
    wrapper made in turn, each entry of the catch callback finds the count
    at the number of failures accepted since the wrapper was created, in
    this use and in the earlier ones, or since the debounce timeout last
    reset the count if it has fired: a later use starts with the count the
    earlier uses left, unless the timeout fired in between.  When the count
    is never reset ([resetDelay <= 0]), the uses of one wrapper together
    start at most [totalRetry] timers.  Only a wrapper of its own is
    independent: the first failure of its first use finds the count at 0. *)
Theorem budget_shared (o : Options) (obs : list (@Producer Err Val))
    {Args : Type} (fn : Args -> list (@Producer Err Val))
    (us : list (Use unit)) (vs : list (Use Args))
    (u : Use unit) (v : Use Args) :
  let shared {In : Type} (xs : list (Use In))
        (r : list (@Trace Err Val) * Closure) :=
    (inTurn xs (fst r) = true ->
     forall a t e m b,
       concat (fst r) = a ++ (t, EvCatch e m) :: b ->
       m = countAfter o 0 a /\
       (resets a = 0%nat -> m = Z.of_nat (count (isAccepted o) a)) /\
       (forall a1 z a2,
          a = a1 ++ z :: a2 -> isReset z = true -> resets a2 = 0%nat ->
          m = Z.of_nat (count (isAccepted o) a2))) /\
    (resetDelay o <= 0 -> 0 <= totalRetry o ->
     Z.of_nat (list_sum (map retries (fst r))) <= totalRetry o) in
  let fresh (tr : @Trace Err Val) :=
    forall a t e m b,
      tr = a ++ (t, EvCatch e m) :: b -> count isCatch a = 0%nat -> m = 0 in
  (shared us (run (retryWithBackoff getBackedoffDelay obs o) us) /\
   fresh (fst (once (retryWithBackoff getBackedoffDelay obs o) u))) /\
  (shared vs (run (retryableFuncWithBackoff getBackedoffDelay fn o) vs) /\
   fresh (fst (once (retryableFuncWithBackoff getBackedoffDelay fn o) v))).
Proof.
  assert (G : forall {In : Type} (w : Wrapper In)
                (script : Use In -> list (@Producer Err Val))
                (xs : list (Use In)),
             (forall x c,
                body w x c
                = doRetry getBackedoffDelay o (cancelAt x) (script x)
                    (start x) c) ->
             cells w = mkClosure 0 None ->
             (inTurn xs (fst (run w xs)) = true ->
              forall a t e m b,
                concat (fst (run w xs)) = a ++ (t, EvCatch e m) :: b ->
                m = countAfter o 0 a /\
                (resets a = 0%nat -> m = Z.of_nat (count (isAccepted o) a)) /\
                (forall a1 z a2,
                   a = a1 ++ z :: a2 -> isReset z = true ->
                   resets a2 = 0%nat ->
                   m = Z.of_nat (count (isAccepted o) a2))) /\
             (resetDelay o <= 0 -> 0 <= totalRetry o ->
              Z.of_nat (list_sum (map retries (fst (run w xs))))
              <= totalRetry o)).
  { intros In w script xs W C. unfold run. rewrite C.
    destruct (uses w xs (mkClosure 0 None)) as [trs c'] eqn:E. cbn [fst].
    split.
    - intros _ a t e m b S.
      destruct (uses_law o w script W xs _ trs c' E) as [L _].
      rewrite S in L. apply lawful_at in L. cbn [countLaw snd retryCount] in L.
      destruct (tally_since (isAccepted o) 0 a) as [Q1 Q2].
      split; [exact L|]. split.
      + intros R. rewrite L, (Q1 R). lia.
      + intros a1 z a2 Sa Rz R. rewrite L. exact (Q2 _ _ _ Sa Rz R).
    - intros D T.
      pose proof (uses_budget o w script W D xs _ trs c' E eq_refl) as B.
      simpl in B. lia. }
  assert (F : forall cancel script now (tr : @Trace Err Val) c',
             doRetry getBackedoffDelay o cancel script now (mkClosure 0 None)
             = (tr, c') ->
             forall a t e m b,
               tr = a ++ (t, EvCatch e m) :: b -> count isCatch a = 0%nat ->
               m = 0).
  { intros cancel script now tr c' H a t e m b S Z0. subst tr.
    destruct (entry_numbers _ _ _ _ _ _ _ _ _ H) as [_ K].
    cbn [countLaw snd retryCount] in K. rewrite K. unfold countAfter.
    rewrite tally_idle by now apply accepted_caught.
    now destruct (resets a =? 0)%nat. }
  split; split.
  - exact (G unit (retryWithBackoff getBackedoffDelay obs o) (fun _ => obs) us
             (fun x c => eq_refl) eq_refl).
  - unfold once. cbn [body cells retryWithBackoff]. rewrite source_doRetry.
    destruct (doRetry getBackedoffDelay o _ _ _ _) as [tr c'] eqn:E.
    exact (F _ _ _ _ _ E).
  - exact (G Args (retryableFuncWithBackoff getBackedoffDelay fn o)
             (fun x => fn (input x)) vs (fun x c => eq_refl) eq_refl).
  - unfold once. cbn [body cells retryableFuncWithBackoff].
    destruct (doRetry getBackedoffDelay o _ _ _ _) as [tr c'] eqn:E.
    exact (F _ _ _ _ _ E).
Qed.




(** * Further properties of [retry.js] *)

(** ** What follows an entry of the catch callback *)

Lemma after_catch (o : Options) (cancel : option Z)
    (script : list (@Producer Err Val)) :
  forall now c tr c' t e n,
    doRetry getBackedoffDelay o cancel script now c = (tr, c') ->
    In (t, EvCatch e n) tr ->
    if wantRetry o e
    then if totalRetry o <=? n
         then adjacent (t, EvCatch e n) (t, EvError (thrown o e (n + 1))) tr
         else if onRetry o
              then adjacent (t, EvCatch e n) (t, EvOnRetry e (n + 1)) tr /\
                   adjacent (t, EvOnRetry e (n + 1))
                     (t, EvTimer (getBackedoffDelay t (retryDelay o) (n + 1)))
                     tr
              else adjacent (t, EvCatch e n)
                     (t, EvTimer (getBackedoffDelay t (retryDelay o) (n + 1)))
                     tr
    else adjacent (t, EvCatch e n) (t, EvError (thrown o e n)) tr.
Proof.
  induction script as [|p later IH]; intros now c tr c' t e n H I.
  - destruct (doRetry_nil o cancel now c) as (ptr & c1 & en & P & E).
    rewrite E in H. inversion H; subst. log_cases I; log_absurd I.
  - run_cases o cancel p later now c H; log_cases I; try (log_absurd I).
    + inversion I; subst. rewrite W. adjacent_here.
    + inversion I; subst. rewrite W.
      destruct (Z.leb_spec (totalRetry o) (retryCount c1)); [|lia].
      adjacent_here.
    + inversion I; subst. rewrite W.
      destruct (Z.leb_spec (totalRetry o) (retryCount c1)); [lia|].
      unfold onRetryHook. destruct (onRetry o); [split|]; adjacent_here.
    + inversion I; subst. rewrite W.
      destruct (Z.leb_spec (totalRetry o) (retryCount c1)); [lia|].
      unfold onRetryHook. destruct (onRetry o); [split|]; adjacent_here.
    + specialize (IH _ _ _ _ _ _ _ A I).
      destruct (wantRetry o e); [|adjacent_later IH].
      destruct (totalRetry o <=? n); [adjacent_later IH|].
      destruct (onRetry o); [destruct IH as [A1 A2]; split|];
        [adjacent_later A1|adjacent_later A2|adjacent_later IH].
Qed.

(** ** The end of a use *)

Lemma count_zero (f : Z * @Event Err Val -> bool) (a : @Trace Err Val) :
  count f a = 0%nat -> forall x, In x a -> f x = false.
Proof.
  induction a as [|y a IH]; intros H x []; rewrite count_cons in H.
  - subst y. destruct (f x); [discriminate|reflexivity].
  - apply IH; [|assumption]. destruct (f y); [discriminate|assumption].
Qed.

Lemma fired_quiet (f : Z * @Event Err Val -> bool) (t : Z) (c c' : Closure)
    (r : @Trace Err Val) :
  (forall due, f (due, EvReset) = false) ->
  runTimers t c = (r, c') -> count f r = 0%nat.
Proof.
  intros F.
  destruct (runTimers_cases t c) as [E|[due [_ [_ E]]]]; rewrite E;
    intros [= <- <-]; [reflexivity|].
  rewrite count_cons, F. reflexivity.
Qed.

Lemma drained_quiet (f : Z * @Event Err Val -> bool) (c c' : Closure)
    (r : @Trace Err Val) :
  (forall due, f (due, EvReset) = false) ->
  drainTimers c = (r, c') -> count f r = 0%nat.
Proof.
  intros F.
  destruct (drainTimers_cases c) as [E|[due [_ E]]]; rewrite E;
    intros [= <- <-]; [reflexivity|].
  rewrite count_cons, F. reflexivity.
Qed.

Lemma hook_quiet (f : Z * @Event Err Val -> bool) (o : Options) (t : Z)
    (e : Err) (n : Z) :
  f (t, EvOnRetry e n) = false -> count f (onRetryHook o t e n) = 0%nat.
Proof.
  intros F. unfold onRetryHook. destruct (onRetry o); [|reflexivity].
  rewrite count_cons, F. reflexivity.
Qed.

Lemma touch_quiet (f : Z * @Event Err Val -> bool) (o : @Options Err) (t : Z)
    (c c' : Closure) (r : @Trace Err Val) :
  f (t, EvTouch) = false ->
  debounceRetryCount o t c = (r, c') -> count f r = 0%nat.
Proof.
  intros F. unfold debounceRetryCount. destruct (0 <? resetDelay o);
    intros [= <- <-]; [|reflexivity].
  rewrite count_cons, F. reflexivity.
Qed.

(** A subscription that ends for the caller ends the log, and has nothing
    final before. *)
Lemma play_terminal (cancel : option Z) (p : @Producer Err Val) :
  forall now c tr c' ending,
    play cancel p now c = (tr, c', ending) ->
    match ending with
    | Failed _ _ | Silent => count isTerminal tr = 0%nat
    | Completed | Cancelled =>
        exists a x, tr = a ++ [x] /\ isTerminal x = true /\
                    count isTerminal a = 0%nat
    end.
Proof.
  assert (Q : forall t c r c', runTimers (Err := Err) (Val := Val) t c = (r, c') ->
                count isTerminal r = 0%nat)
    by (intros t c r c'; now apply fired_quiet).
  induction p as [dt v rest IH|dt e0|dt|]; cbn [play];
    intros now c tr c' ending H; try destruct cancel as [u|]; split_in H;
    inversion H; subst; clear H;
    try (eexists _, _; split; [reflexivity|split; [reflexivity|]];
         eapply Q; eassumption);
    try (eapply Q; eassumption);
    try (eapply drained_quiet; [reflexivity|eassumption]).
  all: match goal with
       | E : play _ _ _ _ = _, R : runTimers _ _ = (?r, _)
         |- context [?r ++ ?y :: _] =>
           specialize (IH _ _ _ _ _ E); apply Q in R; destruct ending;
           [ rewrite count_app, count_cons; cbn [isTerminal snd]; lia
           | destruct IH as (a & x & -> & T & Z0);
             exists (r ++ y :: a), x;
             repeat split; [now rewrite <- app_assoc|assumption|];
             rewrite count_app, count_cons; cbn [isTerminal snd]; lia
           | destruct IH as (a & x & -> & T & Z0);
             exists (r ++ y :: a), x;
             repeat split; [now rewrite <- app_assoc|assumption|];
             rewrite count_app, count_cons; cbn [isTerminal snd]; lia
           | rewrite count_app, count_cons; cbn [isTerminal snd]; lia ]
       end.
Qed.

Lemma terminal_last (o : Options) (cancel : option Z)
    (script : list (@Producer Err Val)) :
  forall now c tr c',
    doRetry getBackedoffDelay o cancel script now c = (tr, c') ->
    count isTerminal tr = 0%nat \/
    exists a x, tr = a ++ [x] /\ isTerminal x = true /\
                count isTerminal a = 0%nat.
Proof.
  assert (Q : forall t c r c', runTimers (Err := Err) (Val := Val) t c = (r, c') ->
                count isTerminal r = 0%nat)
    by (intros t c r c'; now apply fired_quiet).
  induction script as [|p later IH]; intros now c tr c' H.
  - destruct (doRetry_nil o cancel now c) as (ptr & c1 & en & P & E).
    rewrite E in H. inversion H; subst. apply play_terminal in P.
    destruct en; [left|right|right|left];
      try (rewrite count_cons; cbn [isTerminal snd]; lia);
      destruct P as (a & x & -> & T & Z0);
      exists ((now, EvSubscribe) :: a), x; repeat split; try assumption;
      rewrite count_cons; cbn [isTerminal snd]; lia.
  - run_cases o cancel p later now c H; apply play_terminal in P.
    + destruct en; [left|right|right|left];
        try (rewrite count_cons; cbn [isTerminal snd]; lia);
        destruct P as (a & x & -> & T & Z0);
        exists ((now, EvSubscribe) :: a), x; repeat split; try assumption;
        rewrite count_cons; cbn [isTerminal snd]; lia.
    + right. eexists ((now, EvSubscribe) :: ptr ++ [(_, EvCatch _ _)]), _.
      repeat split; [simpl; now rewrite <- app_assoc|reflexivity|].
      rewrite count_cons, count_app, count_cons. cbn [isTerminal snd].
      rewrite count_nil. lia.
    + right. eexists ((now, EvSubscribe) :: ptr ++ [(_, EvCatch _ _)]), _.
      repeat split; [simpl; now rewrite <- app_assoc|reflexivity|].
      rewrite count_cons, count_app, count_cons. cbn [isTerminal snd].
      rewrite count_nil. lia.
    + right. apply Q in R.
      exists ((now, EvSubscribe) :: ptr ++ (t0, EvCatch e0 (retryCount c1))
                :: onRetryHook o t0 e0 (retryCount c1 + 1)
                ++ (t0, EvTimer (getBackedoffDelay t0 (retryDelay o)
                                   (retryCount c1 + 1))) :: r),
        (u, EvUnsubscribe).
      repeat split.
      * repeat (simpl; rewrite <- ?app_assoc). reflexivity.
      * rewrite count_cons, count_app, count_cons, count_app, count_cons,
          (hook_quiet isTerminal) by reflexivity.
        cbn [isTerminal snd]. lia.
    + apply Q in R. apply (touch_quiet isTerminal) in D; [|reflexivity].
      assert (Z1 : count isTerminal
                ((now, EvSubscribe) :: ptr ++ (t0, EvCatch e0 (retryCount c1))
                   :: onRetryHook o t0 e0 (retryCount c1 + 1)
                   ++ (t0, EvTimer (getBackedoffDelay t0 (retryDelay o)
                                      (retryCount c1 + 1))) :: r ++ touch)
                = 0%nat).
      { rewrite count_cons, count_app, count_cons, count_app, count_cons,
          count_app, (hook_quiet isTerminal) by reflexivity.
        cbn [isTerminal snd]. lia. }
      destruct (IH _ _ _ _ A) as [Z2|(a & x & -> & Tx & Z2)]; [left|right].
      * rewrite count_cons, count_app, count_cons, count_app, count_cons,
          !count_app, (hook_quiet isTerminal) by reflexivity.
        rewrite count_cons, count_app, count_cons, count_app, count_cons,
          count_app, (hook_quiet isTerminal) in Z1 by reflexivity.
        cbn [isTerminal snd] in *. lia.
      * exists (((now, EvSubscribe) :: ptr ++ (t0, EvCatch e0 (retryCount c1))
                   :: onRetryHook o t0 e0 (retryCount c1 + 1)
                   ++ (t0, EvTimer (getBackedoffDelay t0 (retryDelay o)
                                      (retryCount c1 + 1))) :: r ++ touch)
                ++ a), x.
        repeat split; [|assumption|rewrite count_app; lia].
        repeat (simpl; rewrite <- ?app_assoc). reflexivity.
Qed.

(** What is still pending once the timeouts due at [t] have fired is due
    later. *)
Lemma runTimers_pending (t : Z) (c c' : Closure) (r : @Trace Err Val) :
  runTimers t c = (r, c') ->
  forall due, timer c' = Some due -> t < due.
Proof.
  unfold runTimers. destruct (timer c) as [d|] eqn:T.
  - destruct (Z.leb_spec d t); intros [= <- <-] due; cbn [timer];
      [discriminate|]. rewrite T. intros [= <-]. assumption.
  - intros [= <- <-] due. rewrite T. discriminate.
Qed.

Lemma play_pending (cancel : option Z) (p : @Producer Err Val) :
  forall now c tr c' ending,
    play cancel p now c = (tr, c', ending) ->
    forall due, timer c' = Some due ->
      (forall x, In x tr -> isTerminal x = true -> fst x < due) /\
      (forall t e, ending = Failed t e -> t < due).
Proof.
  induction p as [dt v rest IH|dt e0|dt|]; cbn [play];
    intros now c tr c' ending H due Hd;
    try destruct cancel as [u|]; split_in H; inversion H; subst; clear H;
    try match goal with
    | E : play _ _ _ _ = _ |- _ =>
        destruct (IH _ _ _ _ _ E _ Hd) as [I1 I2]
    end;
    (split; [intros x Hx Tx|intros t' e' Ht; try discriminate Ht]);
    try (inversion Ht; subst);
    try (eapply runTimers_pending; eassumption);
    try (eapply I2; reflexivity);
    repeat (apply in_app_or in Hx; destruct Hx as [Hx|Hx]);
    try match goal with
    | E : runTimers _ _ = (?r, _), Hx : In _ ?r |- _ =>
        rewrite (surjective_pairing x) in Tx; unfold isTerminal in Tx;
        cbn [snd] in Tx; rewrite (runTimers_events E _ Hx) in Tx;
        discriminate Tx
    | E : drainTimers _ = (?r, _), Hx : In _ ?r |- _ =>
        rewrite (surjective_pairing x) in Tx; unfold isTerminal in Tx;
        cbn [snd] in Tx; rewrite (drainTimers_events E _ Hx) in Tx;
        discriminate Tx
    end;
    try (simpl in Hx; destruct Hx as [<-|Hx]; try contradiction;
         try discriminate Tx; cbn [fst];
         try (eapply runTimers_pending; eassumption);
         try (now apply I1)).
Qed.

(** A debounce timeout left pending by a use is due after the use has
    ended. *)
Lemma pending_later (o : Options) (cancel : option Z)
    (script : list (@Producer Err Val)) :
  forall now c tr c',
    doRetry getBackedoffDelay o cancel script now c = (tr, c') ->
    forall due, timer c' = Some due ->
    forall x, In x tr -> isTerminal x = true -> fst x < due.
Proof.
  induction script as [|p later IH]; intros now c tr c' H due Hd x I Tx.
  - destruct (doRetry_nil o cancel now c) as (ptr & c1 & en & P & E).
    rewrite E in H. inversion H; subst.
    destruct (play_pending _ _ _ _ _ _ _ P _ Hd) as [I1 _].
    destruct I as [<-|I]; [discriminate Tx|now apply I1].
  - run_cases o cancel p later now c H;
      try (apply play_terminal in P as PT; cbn beta iota in PT);
      log_cases I;
      try (subst x; discriminate Tx);
      try (rewrite (count_zero _ _ PT x I) in Tx; discriminate Tx);
      try (apply hook_events in I; destruct I as [-> _]; discriminate Tx);
      try (eapply timer_events in I; [|eassumption];
           destruct I as (? & -> & _); discriminate Tx);
      try (eapply touch_events in I; [|eassumption];
           destruct I as [-> _]; discriminate Tx).
    + destruct (play_pending _ _ _ _ _ _ _ P _ Hd) as [I1 _]. now apply I1.
    + subst x. cbn [fst].
      destruct (play_pending _ _ _ _ _ _ _ P _ Hd) as [_ I2].
      now apply (I2 _ _ eq_refl).
    + subst x. cbn [fst].
      destruct (play_pending _ _ _ _ _ _ _ P due Hd) as [_ I2].
      now apply (I2 _ _ eq_refl).
    + subst x. cbn [fst]. exact (runTimers_pending _ _ _ _ R _ Hd).
    + exact (IH _ _ _ _ A _ Hd _ I Tx).
Qed.

(** X2.  A use ends at most once for its caller.  In the log of every use
    of either wrapper, an error, a completion or the caller's own
    unsubscription is the last entry, and nothing before it is one of the
    three: after it the producer is not instantiated, the catch callback is
    not entered, no timer is started and nothing is sent.  What a use may
    leave behind is the debounce timeout: it is not cleared, and when one
    is pending at the end of the use it is due later than that end, so the
    reset of the count can still run after the caller has left. *)
Theorem ends_once (o : Options) (obs : list (@Producer Err Val))
    {Args : Type} (fn : Args -> list (@Producer Err Val))
    (u : Use unit) (v : Use Args) (c : Closure) :
  let final (r : @Trace Err Val * Closure) :=
    forall x, In x (fst r) -> isTerminal x = true ->
      (exists a, fst r = a ++ [x] /\
                 forall y, In y a -> isTerminal y = false) /\
      (forall due, timer (snd r) = Some due -> fst x < due) in
  final (body (retryWithBackoff getBackedoffDelay obs o) u c) /\
  final (body (retryableFuncWithBackoff getBackedoffDelay fn o) v c).
Proof.
  assert (G : forall cancel script now (tr : @Trace Err Val) c',
            doRetry getBackedoffDelay o cancel script now c = (tr, c') ->
            forall x, In x tr -> isTerminal x = true ->
              (exists a, tr = a ++ [x] /\
                         forall y, In y a -> isTerminal y = false) /\
              (forall due, timer c' = Some due -> fst x < due)).
  { intros cancel script now tr c' E x I T. split.
    - destruct (terminal_last _ _ _ _ _ _ _ E) as [Z0|(a & y & -> & Ty & Z0)].
      + rewrite (count_zero _ _ Z0 x I) in T. discriminate.
      + apply in_app_or in I. destruct I as [I|[<-|[]]].
        * rewrite (count_zero _ _ Z0 x I) in T. discriminate.
        * exists a. split; [reflexivity|]. now apply count_zero.
    - intros due Hd. exact (pending_later _ _ _ _ _ _ _ E _ Hd _ I T). }
  cbn [body retryWithBackoff retryableFuncWithBackoff].
  split; intros x I T.
  - rewrite source_doRetry in *.
    destruct (doRetry getBackedoffDelay o _ _ _ _) as [tr c'] eqn:E.
    exact (G _ _ _ _ _ E x I T).
  - destruct (doRetry getBackedoffDelay o _ _ _ _) as [tr c'] eqn:E.
    exact (G _ _ _ _ _ E x I T).
Qed.

(** ** When the producer is instantiated *)

Lemma subscriptions_app (a b : @Trace Err Val) :
  subscriptions (a ++ b) = subscriptions a ++ subscriptions b.
Proof.
  induction a as [|[t e] a IH]; [reflexivity|].
  destruct e; simpl; now rewrite ?IH.
Qed.

Lemma subscriptions_none (a : @Trace Err Val) :
  count isSubscribe a = 0%nat -> subscriptions a = [].
Proof.
  induction a as [|[t e] a IH]; [reflexivity|].
  rewrite count_cons. destruct e; cbn [isSubscribe snd subscriptions];
    intros H; try discriminate; now apply IH.
Qed.

Ltac no_subscription :=
  repeat match goal with
  | H : count isSubscribe ?a = 0%nat |- _ =>
      apply subscriptions_none in H; try rewrite H in *; clear H
  end.



(** ** Every failure is handed to the callback *)

Lemma caught_app (a b : @Trace Err Val) :
  caught (a ++ b) = caught a ++ caught b.
Proof.
  induction a as [|[t e] a IH]; [reflexivity|].
  destruct e; simpl; now rewrite ?IH.
Qed.

Lemma caught_none (a : @Trace Err Val) :
  count isCatch a = 0%nat -> caught a = [].
Proof.
  induction a as [|[t e] a IH]; [reflexivity|].
  rewrite count_cons. destruct e; cbn [isCatch snd caught];
    intros H; try discriminate; now apply IH.
Qed.

Lemma unsubscribed_later (cancel : option Z) (t t' u : Z) :
  unsubscribedBefore cancel t = Some u -> t <= t' ->
  unsubscribedBefore cancel t' = Some u.
Proof.
  unfold unsubscribedBefore. destruct cancel as [z|]; [|discriminate].
  destruct (Z.ltb_spec z t); [|discriminate]. intros [= <-] L.
  destruct (Z.ltb_spec z t'); [reflexivity|lia].
Qed.

(** A subscription that does not end with a failure: the producer does
    not fail, or the caller has left before it does. *)
Lemma play_unfailed (cancel : option Z) (p : @Producer Err Val) :
  forall now c tr c' ending,
    play cancel p now c = (tr, c', ending) ->
    (forall t e, ending <> Failed t e) ->
    failure p = None \/
    exists u, unsubscribedBefore cancel (now + duration p) = Some u.
Proof.
  induction p as [dt v rest IH|dt e0|dt|]; cbn [play failure duration];
    intros now c tr c' ending H NF; try (now left).
  - destruct (unsubscribedBefore cancel (now + Z.max 0 dt)) as [u|] eqn:U.
    + right. exists u. apply (unsubscribed_later _ _ _ _ U).
      pose proof (duration_nonneg rest). lia.
    + destruct (runTimers (now + Z.max 0 dt) c) as [r c1].
      destruct (play cancel rest (now + Z.max 0 dt) c1) as [[tr1 c2] en] eqn:P.
      inversion H; subst.
      destruct (IH _ _ _ _ _ P NF) as [F|[u Hu]]; [now left|right].
      exists u. now rewrite Z.add_assoc.
  - destruct (unsubscribedBefore cancel (now + Z.max 0 dt)) as [u|] eqn:U.
    + right. now exists u.
    + destruct (runTimers (now + Z.max 0 dt) c) as [r c1].
      inversion H; subst. now destruct (NF (now + Z.max 0 dt) e0).
Qed.

Lemma failuresMet_cons (cancel : option Z) (s : Z) (subs : list Z)
    (p : @Producer Err Val) (script : list Producer) :
  failuresMet cancel (s :: subs) (p :: script)
  = match failure p with
    | Some e =>
        match unsubscribedBefore cancel (s + duration p) with
        | None => [(s + duration p, e)]
        | Some _ => []
        end
    | None => []
    end ++ failuresMet cancel subs script.
Proof. reflexivity. Qed.

Lemma failuresMet_last (cancel : option Z) (s : Z) (script : list (@Producer Err Val)) :
  failuresMet cancel [s] script
  = match script with
    | p :: _ =>
        match failure p with
        | Some e =>
            match unsubscribedBefore cancel (s + duration p) with
            | None => [(s + duration p, e)]
            | Some _ => []
            end
        | None => []
        end
    | [] => []
    end.
Proof.
  destruct script as [|p script]; [reflexivity|].
  rewrite failuresMet_cons. unfold failuresMet. cbn [combine flat_map].
  apply app_nil_r.
Qed.

Ltac caught_log :=
  repeat (progress (rewrite ?subscriptions_app, ?caught_app;
                    cbn [subscriptions caught]));
  repeat match goal with
  | H : count isCatch ?a = 0%nat |- _ =>
      apply caught_none in H; try rewrite H in *; clear H
  end;
  no_subscription.

(** The entries of the catch callback are the failures of the
    instantiations made, each at the instant it happens. *)
Lemma caught_failures (o : Options) (cancel : option Z)
    (script : list (@Producer Err Val)) :
  forall now c tr c',
    doRetry getBackedoffDelay o cancel script now c = (tr, c') ->
    caught tr = failuresMet cancel (subscriptions tr) script.
Proof.
  induction script as [|p later IH]; intros now c tr c' H.
  - destruct (doRetry_nil o cancel now c) as (ptr & c1 & en & P & E).
    rewrite E in H. inversion H; subst. use_counts. caught_log.
    reflexivity.
  - run_cases o cancel p later now c H; use_counts;
      try (specialize (IH _ _ _ _ A));
      try (pose proof (hook_quiet isCatch o t0 e0 (retryCount c1 + 1)
                         eq_refl));
      repeat match goal with
      | R : runTimers _ _ = (?r, _) |- _ =>
          lazymatch goal with
          | _ : count isCatch r = 0%nat |- _ => fail
          | _ => pose proof (fired_quiet isCatch _ _ _ _ (fun _ => eq_refl) R)
          end
      | D : debounceRetryCount _ _ _ = (?r, _) |- _ =>
          lazymatch goal with
          | _ : count isCatch r = 0%nat |- _ => fail
          | _ => pose proof (touch_quiet isCatch _ _ _ _ _ eq_refl D)
          end
      end;
      caught_log; cbn [app];
      try (apply play_Failed in P; destruct P as (Fp & -> & Up & _)).
    + rewrite failuresMet_last.
      destruct (play_unfailed _ _ _ _ _ _ _ P NF) as [-> |[z ->]];
        [reflexivity|now destruct (failure p)].
    + now rewrite failuresMet_last, Fp, Up.
    + now rewrite failuresMet_last, Fp, Up.
    + now rewrite failuresMet_last, Fp, Up.
    + rewrite failuresMet_cons, Fp, Up, IH. reflexivity.
Qed.

(** X1.  No failure is swallowed.  In every use of either wrapper, the
    catch callback is entered for each failure of an instantiation that
    the use has made, at the instant of the failure and with its error,
    unless the caller has left before, and for nothing else: the entries of
    the callback in the log are these failures, in order.  And each entry,
    with an error [e] and the count at [n], is directly followed, at the
    same instant, by its outcome: if [shouldRetry] refuses [e], the error
    selected with [n] reaches the caller; if [e] is accepted and
    [n >= totalRetry], the error selected with [n + 1] reaches the caller;
    otherwise [onRetry(e, n + 1)] is called when configured and the timer
    is started with [getBackedoffDelay(retryDelay, n + 1)]. *)
Theorem failure_decided (o : Options) (obs : list (@Producer Err Val))
    {Args : Type} (fn : Args -> list (@Producer Err Val))
    (u : Use unit) (v : Use Args) (c : Closure) :
  let handed (cancel : option Z) (script : list (@Producer Err Val))
        (tr : @Trace Err Val) :=
    caught tr = failuresMet cancel (subscriptions tr) script in
  let decided (tr : @Trace Err Val) :=
    forall t e n,
      In (t, EvCatch e n) tr ->
      if wantRetry o e
      then if totalRetry o <=? n
           then adjacent (t, EvCatch e n) (t, EvError (thrown o e (n + 1))) tr
           else if onRetry o
                then adjacent (t, EvCatch e n) (t, EvOnRetry e (n + 1)) tr /\
                     adjacent (t, EvOnRetry e (n + 1))
                       (t, EvTimer (getBackedoffDelay t (retryDelay o) (n + 1)))
                       tr
                else adjacent (t, EvCatch e n)
                       (t, EvTimer (getBackedoffDelay t (retryDelay o) (n + 1)))
                       tr
      else adjacent (t, EvCatch e n) (t, EvError (thrown o e n)) tr in
  (handed (cancelAt u) obs
     (fst (body (retryWithBackoff getBackedoffDelay obs o) u c)) /\
   decided (fst (body (retryWithBackoff getBackedoffDelay obs o) u c))) /\
  (handed (cancelAt v) (fn (input v))
     (fst (body (retryableFuncWithBackoff getBackedoffDelay fn o) v c)) /\
   decided (fst (body (retryableFuncWithBackoff getBackedoffDelay fn o) v c))).
Proof.
  cbn [body retryWithBackoff retryableFuncWithBackoff].
  split; split; try intros t e n I.
  - rewrite source_doRetry.
    destruct (doRetry getBackedoffDelay o _ _ _ _) as [tr c'] eqn:E.
    exact (caught_failures _ _ _ _ _ _ _ E).
  - rewrite source_doRetry in *.
    destruct (doRetry getBackedoffDelay o _ _ _ _) as [tr c'] eqn:E.
    exact (after_catch _ _ _ _ _ _ _ _ _ _ E I).
  - destruct (doRetry getBackedoffDelay o _ _ _ _) as [tr c'] eqn:E.
    exact (caught_failures _ _ _ _ _ _ _ E).
  - destruct (doRetry getBackedoffDelay o _ _ _ _) as [tr c'] eqn:E.
    exact (after_catch _ _ _ _ _ _ _ _ _ _ E I).
Qed.

(** ** Retries between two resets *)

Lemma fired_closure (t : Z) (c c' : Closure) (r : @Trace Err Val) :
  runTimers t c = (r, c') ->
  (resets r = 0%nat /\ c' = c) \/
  (resets r = 1%nat /\ c' = mkClosure 0 None).
Proof.
  destruct (runTimers_cases t c) as [E|[due [_ [_ E]]]]; rewrite E;
    intros [= <- <-]; [left|right]; split; reflexivity.
Qed.

Lemma retries_between_resets (o : Options) (cancel : option Z)
    (script : list (@Producer Err Val)) :
  forall now c tr c',
    doRetry getBackedoffDelay o cancel script now c = (tr, c') ->
    Z.of_nat (retries tr)
    <= Z.max 0 (totalRetry o - retryCount c)
       + Z.of_nat (resets tr) * Z.max 0 (totalRetry o).
Proof.
  induction script as [|p later IH]; intros now c tr c' H.
  - destruct (doRetry_nil o cancel now c) as (ptr & c1 & en & P & E).
    rewrite E in H. inversion H; subst. use_counts. sum_log. zero_counts.
    nia.
  - run_cases o cancel p later now c H;
      try (specialize (IH _ _ _ _ A));
      try (pose proof (play_closure _ _ _ _ _ _ _ P) as [[Rp ->]|(Rp & -> & _)]);
      try (pose proof (fired_closure _ _ _ _ R) as [[Rr ->]|(Rr & ->)]);
      try (pose proof (touch_counts _ _ _ _ _ D) as (_ & _ & Rt & _ & _ & _ & _ & Ct));
      use_counts; sum_log; zero_counts; cbn [retryCount] in *;
      unfold resets in *;
      try rewrite Rp in *; try rewrite Rr in *; try rewrite Rt in *;
      try rewrite Ct in *; nia.
Qed.

(** X4.  At most [totalRetry] retries between two resets of the count.  In
    every use of either wrapper, started with the count at [n], the number
    of timers started is at most [max(0, totalRetry - n)] plus
    [max(0, totalRetry)] for each reset of the count during the use.  So a
    wrapper with [totalRetry <= 0] and a count that is not negative never
    retries. *)
Theorem retries_per_reset (o : Options) (obs : list (@Producer Err Val))
    {Args : Type} (fn : Args -> list (@Producer Err Val))
    (u : Use unit) (v : Use Args) (c : Closure) :
  let bounded (tr : @Trace Err Val) :=
    Z.of_nat (retries tr)
    <= Z.max 0 (totalRetry o - retryCount c)
       + Z.of_nat (resets tr) * Z.max 0 (totalRetry o) /\
    (totalRetry o <= 0 -> 0 <= retryCount c -> retries tr = 0%nat) in
  bounded (fst (body (retryWithBackoff getBackedoffDelay obs o) u c)) /\
  bounded (fst (body (retryableFuncWithBackoff getBackedoffDelay fn o) v c)).
Proof.
  assert (G : forall cancel script now (tr : @Trace Err Val) c',
            doRetry getBackedoffDelay o cancel script now c = (tr, c') ->
            Z.of_nat (retries tr)
            <= Z.max 0 (totalRetry o - retryCount c)
               + Z.of_nat (resets tr) * Z.max 0 (totalRetry o) /\
            (totalRetry o <= 0 -> 0 <= retryCount c -> retries tr = 0%nat)).
  { intros cancel script now tr c' E.
    pose proof (retries_between_resets _ _ _ _ _ _ _ E) as B.
    split; [exact B|]. intros T0 C0.
    replace (Z.max 0 (totalRetry o)) with 0 in B by lia. lia. }
  cbn [body retryWithBackoff retryableFuncWithBackoff]. split.
  - rewrite source_doRetry.
    destruct (doRetry getBackedoffDelay o _ _ _ _) as [tr c'] eqn:E.
    exact (G _ _ _ _ _ E).
  - destruct (doRetry getBackedoffDelay o _ _ _ _) as [tr c'] eqn:E.
    exact (G _ _ _ _ _ E).
Qed.

(** ** The count *)












(** ** The values on their way to the caller *)

Lemma values_app (a b : @Trace Err Val) :
  values (a ++ b) = values a ++ values b.
Proof.
  induction a as [|[t e] a IH]; [reflexivity|].
  destruct e; simpl; now rewrite ?IH.
Qed.

Lemma fired_values (t : Z) (c c' : Closure) (r : @Trace Err Val) :
  runTimers t c = (r, c') -> values r = [].
Proof.
  destruct (runTimers_cases t c) as [E|[due [_ [_ E]]]]; rewrite E;
    now intros [= <- <-].
Qed.

Lemma drained_values (c c' : Closure) (r : @Trace Err Val) :
  drainTimers c = (r, c') -> values r = [].
Proof.
  destruct (drainTimers_cases c) as [E|[due [_ E]]]; rewrite E;
    now intros [= <- <-].
Qed.

Lemma hook_values (o : Options) (t : Z) (e : Err) (n : Z) :
  values (Val := Val) (onRetryHook o t e n) = [].
Proof. unfold onRetryHook. now destruct (onRetry o). Qed.

Lemma touch_values (o : @Options Err) (t : Z) (c c' : Closure)
    (r : @Trace Err Val) :
  debounceRetryCount o t c = (r, c') -> values r = [].
Proof.
  unfold debounceRetryCount. destruct (0 <? resetDelay o);
    now intros [= <- <-].
Qed.

(** A subscription forwards the values of the instantiation as they are,
    all of them unless the caller leaves. *)
Lemma play_values (cancel : option Z) (p : @Producer Err Val) :
  forall now c tr c' ending,
    play cancel p now c = (tr, c', ending) ->
    exists rest, sent p = values tr ++ rest /\
                 (rest = [] \/ (ending = Cancelled /\ cancel <> None)).
Proof.
  induction p as [dt v rest IH|dt e0|dt|]; cbn [play sent];
    intros now c tr c' ending H; try destruct cancel as [u|]; split_in H;
    inversion H; subst; clear H;
    rewrite ?values_app; cbn [values];
    repeat match goal with
    | R : runTimers _ _ = (?r, _) |- context [values ?r] =>
        rewrite (fired_values _ _ _ _ R)
    | R : drainTimers _ = (?r, _) |- context [values ?r] =>
        rewrite (drained_values _ _ _ R)
    end; cbn [app];
    try (eexists; split; [reflexivity|right; split; congruence]);
    try (exists []; split; [reflexivity|now left]);
    try match goal with
        | N : unsubscribedBefore None _ = Some _ |- _ => discriminate N
        end.
  all: match goal with
       | E : play _ _ _ _ = _ |- _ =>
           destruct (IH _ _ _ _ _ E) as (more & -> & C);
           exists more; split; [reflexivity|exact C]
       end.
Qed.

Ltac values_log :=
  repeat match goal with
  | P : runTimers _ _ = (?r, _) |- context [values ?r] =>
      rewrite (fired_values _ _ _ _ P)
  | P : debounceRetryCount _ _ _ = (?r, _) |- context [values ?r] =>
      rewrite (touch_values _ _ _ _ _ P)
  | |- context [values (onRetryHook _ _ _ _)] => rewrite hook_values
  | |- context [values (_ ++ _)] => rewrite values_app
  | |- context [values (_ :: _)] => progress cbn [values]
  | |- context [values []] => progress cbn [values]
  | |- context [[] ++ _] => progress cbn [app]
  | |- context [_ ++ []] => rewrite app_nil_r
  end.

Lemma values_sent (o : Options) (cancel : option Z)
    (script : list (@Producer Err Val)) :
  forall now c tr c',
    doRetry getBackedoffDelay o cancel script now c = (tr, c') ->
    exists rest,
      flat_map sent (firstn (attemptsMade tr) script) = values tr ++ rest /\
      (rest = [] \/ cancel <> None).
Proof.
  induction script as [|p later IH]; intros now c tr c' H.
  - destruct (doRetry_nil o cancel now c) as (ptr & c1 & en & P & E).
    rewrite E in H. inversion H; subst.
    destruct (play_values _ _ _ _ _ _ _ P) as (rest & S & C).
    cbn [sent] in S. symmetry in S. apply app_eq_nil in S as [S _].
    exists []. rewrite firstn_nil. cbn [values flat_map]. rewrite S.
    split; [reflexivity|now left].
  - run_cases o cancel p later now c H;
      destruct (play_values _ _ _ _ _ _ _ P) as (rest & S & C);
      try (destruct C as [->|[C _]]; [rewrite app_nil_r in S|discriminate C]);
      use_counts; sum_log; zero_counts; cbn [firstn flat_map Nat.add];
      values_log; rewrite ?S.
    + exists rest. rewrite ?app_nil_r. split; [reflexivity|tauto].
    + exists []. rewrite ?app_nil_r. split; [reflexivity|now left].
    + exists []. rewrite ?app_nil_r. split; [reflexivity|now left].
    + exists []. rewrite ?app_nil_r. split; [reflexivity|now left].
    + destruct (IH _ _ _ _ A) as (more & V & C).
      unfold attemptsMade in V. exists more. cbn [firstn flat_map].
      rewrite V, app_assoc. split; [reflexivity|exact C].
Qed.

(** X7.  Values pass through as they are.  In every use of either wrapper,
    the values that reach the caller are the values sent by the
    instantiations made, one instantiation after the other, in order:
    nothing is added, changed or held back, and what a failed instantiation
    had sent before it failed stays sent.  If the caller never leaves, all
    of them reach it. *)
Theorem values_forwarded (o : Options) (obs : list (@Producer Err Val))
    {Args : Type} (fn : Args -> list (@Producer Err Val))
    (u : Use unit) (v : Use Args) (c : Closure) :
  let through {In : Type} (w : Use In) (script : list (@Producer Err Val))
      (tr : @Trace Err Val) :=
    exists rest,
      flat_map sent (firstn (attemptsMade tr) script) = values tr ++ rest /\
      (cancelAt w = None -> rest = []) in
  through u obs (fst (body (retryWithBackoff getBackedoffDelay obs o) u c)) /\
  through v (fn (input v))
    (fst (body (retryableFuncWithBackoff getBackedoffDelay fn o) v c)).
Proof.
  assert (G : forall cancel script now (tr : @Trace Err Val) c',
            doRetry getBackedoffDelay o cancel script now c = (tr, c') ->
            exists rest,
              flat_map sent (firstn (attemptsMade tr) script)
              = values tr ++ rest /\
              (cancel = None -> rest = [])).
  { intros cancel script now tr c' E.
    destruct (values_sent _ _ _ _ _ _ _ E) as (rest & S & C).
    exists rest. split; [exact S|]. intros N. destruct C; congruence. }
  cbn [body retryWithBackoff retryableFuncWithBackoff]. split.
  - rewrite source_doRetry.
    destruct (doRetry getBackedoffDelay o _ _ _ _) as [tr c'] eqn:E.
    exact (G _ _ _ _ _ E).
  - destruct (doRetry getBackedoffDelay o _ _ _ _) as [tr c'] eqn:E.
    exact (G _ _ _ _ _ E).
Qed.

(** ** Failures in quick succession *)




(** ** The debounce timeout *)

Lemma timeout_kept (o : Options) (cancel : option Z)
    (script : list (@Producer Err Val)) :
  forall now c tr c',
    doRetry getBackedoffDelay o cancel script now c = (tr, c') ->
    resets tr = 0%nat -> touches tr = 0%nat -> timer c' = timer c.
Proof.
  induction script as [|p later IH]; intros now c tr c' H Z0 Z1.
  - destruct (doRetry_nil o cancel now c) as (ptr & c1 & en & P & E).
    rewrite E in H. inversion H; subst. sum_log.
    now rewrite (play_quiet _ _ _ _ _ _ _ P) by (unfold resets; lia).
  - run_cases o cancel p later now c H; use_counts; sum_log;
      try (rewrite (play_quiet _ _ _ _ _ _ _ P) in * by (unfold resets; lia));
      try reflexivity.
    + pose proof (fired_closure _ _ _ _ R) as [[_ ->]|(Rr & _)];
        [reflexivity|unfold resets in Rr; lia].
    + pose proof (fired_closure _ _ _ _ R) as [[_ Rc]|(Rr & _)];
        [|unfold resets in Rr; lia].
      rewrite (IH _ _ _ _ A) by (unfold resets, touches; lia).
      unfold debounceRetryCount in D.
      destruct (0 <? resetDelay o); inversion D; subst;
        [cbn [count filter isTouch snd length] in *; lia|reflexivity].
Qed.

(** X9.  Nothing but firing or re-arming removes the debounce timeout.  In
    every use of either wrapper during which the timeout neither fires nor
    is re-armed, the closure keeps the timeout it had: no use arms one
    without a delay elapsing, and neither the caller's unsubscription, nor a
    completion, nor giving up clears a pending one. *)
Theorem timeout_survives (o : Options) (obs : list (@Producer Err Val))
    {Args : Type} (fn : Args -> list (@Producer Err Val))
    (u : Use unit) (v : Use Args) (c : Closure) :
  let kept (r : @Trace Err Val * Closure) :=
    resets (fst r) = 0%nat -> touches (fst r) = 0%nat ->
    timer (snd r) = timer c in
  kept (body (retryWithBackoff getBackedoffDelay obs o) u c) /\
  kept (body (retryableFuncWithBackoff getBackedoffDelay fn o) v c).
Proof.
  cbn [body retryWithBackoff retryableFuncWithBackoff]. split.
  - rewrite source_doRetry.
    destruct (doRetry getBackedoffDelay o _ _ _ _) as [tr c'] eqn:E.
    exact (timeout_kept _ _ _ _ _ _ _ E).
  - destruct (doRetry getBackedoffDelay o _ _ _ _) as [tr c'] eqn:E.
    exact (timeout_kept _ _ _ _ _ _ _ E).
Qed.

End Facts.

(** * The claims on examples *)

(** ** C1 *)



(** ** C2 *)

(** Two calls of the same function, one second apart.  With
    [totalRetry = 1] and no reset, the second call finds the count at 2,
    the number of failures accepted during the first.  With
    [resetDelay = 150] the timeout armed during the first call fires at
    255, between the two calls, and the second call finds 0. *)
Lemma budget_shared_witness :
  (2 = countAfter (Val := Z) (Sample.opts 1 0) 0
         [(0, EvSubscribe); (5, EvCatch 503 0); (5, EvOnRetry 503 1);
          (5, EvTimer 100); (105, EvSubscribe); (110, EvCatch 503 1);
          (110, EvError 503); (1000, EvSubscribe)] /\
   (resets (Val := Z)
      [(0, EvSubscribe); (5, EvCatch 503 0); (5, EvOnRetry 503 1);
       (5, EvTimer 100); (105, EvSubscribe); (110, EvCatch 503 1);
       (110, EvError 503); (1000, EvSubscribe)] = 0%nat ->
    2 = Z.of_nat
          (count (Val := Z) (isAccepted (Sample.opts 1 0))
             [(0, EvSubscribe); (5, EvCatch 503 0); (5, EvOnRetry 503 1);
              (5, EvTimer 100); (105, EvSubscribe); (110, EvCatch 503 1);
              (110, EvError 503); (1000, EvSubscribe)]))) /\
  Z.of_nat
    (list_sum (map retries
                 (fst (run (retryableFuncWithBackoff Sample.backoff
                              (fun _ : unit => Sample.failing 5 503 2)
                              (Sample.opts 1 0))
                         Sample.twice))))
  <= 1 /\
  fst (run (retryableFuncWithBackoff Sample.backoff
              (fun _ : unit => Sample.failsOnce 5 503) (Sample.opts 3 150))
         Sample.twice)
  = [[(0, EvSubscribe); (5, EvCatch 503 0); (5, EvOnRetry 503 1);
      (5, EvTimer 100); (105, EvTouch); (105, EvSubscribe);
      (110, EvComplete)];
     [(255, EvReset); (1000, EvSubscribe); (1005, EvCatch 503 0);
      (1005, EvOnRetry 503 1); (1005, EvTimer 100); (1105, EvTouch);
      (1105, EvSubscribe); (1110, EvComplete)]] /\
  0 = Z.of_nat
        (count (Val := Z) (isAccepted (Sample.opts 3 150))
           [(1000, EvSubscribe)]).
Proof.
  split; [|split; [|split; [reflexivity|]]].
  - destruct (proj1 (proj1 (proj2 (budget_shared Sample.backoff
                                     (Sample.opts 1 0) []
                                     (fun _ : unit => Sample.failing 5 503 2)
                                     [] Sample.twice
                                     (mkUse tt 0 None) (mkUse tt 0 None))))
                eq_refl
                [(0, EvSubscribe); (5, EvCatch 503 0); (5, EvOnRetry 503 1);
                 (5, EvTimer 100); (105, EvSubscribe); (110, EvCatch 503 1);
                 (110, EvError 503); (1000, EvSubscribe)]
                1005 503 2 [(1005, EvError 503)] eq_refl)
      as (H1 & H2 & _).
    split; assumption.
  - apply (proj2 (proj1 (proj2 (budget_shared Sample.backoff
                                  (Sample.opts 1 0) []
                                  (fun _ : unit => Sample.failing 5 503 2)
                                  [] Sample.twice
                                  (mkUse tt 0 None) (mkUse tt 0 None)))));
      simpl; lia.
  - apply (proj2 (proj2 (proj1 (proj1 (proj2
             (budget_shared Sample.backoff (Sample.opts 3 150) []
                (fun _ : unit => Sample.failsOnce 5 503)
                [] Sample.twice (mkUse tt 0 None) (mkUse tt 0 None))))
             eq_refl
             [(0, EvSubscribe); (5, EvCatch 503 0); (5, EvOnRetry 503 1);
              (5, EvTimer 100); (105, EvTouch); (105, EvSubscribe);
              (110, EvComplete); (255, EvReset); (1000, EvSubscribe)]
             1005 503 0
             [(1005, EvOnRetry 503 1); (1005, EvTimer 100); (1105, EvTouch);
              (1105, EvSubscribe); (1110, EvComplete)] eq_refl))
             [(0, EvSubscribe); (5, EvCatch 503 0); (5, EvOnRetry 503 1);
              (5, EvTimer 100); (105, EvTouch); (105, EvSubscribe);
              (110, EvComplete)]
             (255, EvReset) [(1000, EvSubscribe)] eq_refl eq_refl eq_refl).
Defined.

(** The claim as first stated fails: with [totalRetry = 1] and no reset, a
    first call that fails twice leaves the count at 2; a second call of the
    same function, one second later, enters the callback with that count
    and gives up without any retry, whereas the same call on a new wrapper
    starts at 0 and retries once.  The same holds for two subscriptions to
    the same observable. *)
Lemma budget_shared_counterexample :
  fst (run (retryableFuncWithBackoff Sample.backoff
              (fun _ : unit => Sample.failing 5 503 2) (Sample.opts 1 0))
         [mkUse tt 0 None; mkUse tt 1000 None])
  = [[(0, EvSubscribe); (5, EvCatch 503 0); (5, EvOnRetry 503 1);
      (5, EvTimer 100); (105, EvSubscribe); (110, EvCatch 503 1);
      (110, EvError 503)];
     [(1000, EvSubscribe); (1005, EvCatch 503 2); (1005, EvError 503)]] /\
  fst (once (retryableFuncWithBackoff Sample.backoff
               (fun _ : unit => Sample.failing 5 503 2) (Sample.opts 1 0))
         (mkUse tt 1000 None))
  = [(1000, EvSubscribe); (1005, EvCatch 503 0); (1005, EvOnRetry 503 1);
     (1005, EvTimer 100); (1105, EvSubscribe); (1110, EvCatch 503 1);
     (1110, EvError 503)] /\
  ~ (forall (fn : unit -> list (Producer (Err := Z) (Val := Z)))
            (o : Options) (u1 u2 : Use unit),
       nth_error
         (fst (run (retryableFuncWithBackoff Sample.backoff fn o) [u1; u2])) 1
       = Some (fst (once (retryableFuncWithBackoff Sample.backoff fn o) u2))) /\
  ~ (forall (obs : list (Producer (Err := Z) (Val := Z)))
            (o : Options) (u1 u2 : Use unit),
       nth_error (fst (run (retryWithBackoff Sample.backoff obs o) [u1; u2])) 1
       = Some (fst (once (retryWithBackoff Sample.backoff obs o) u2))).
Proof.
  split; [reflexivity|]. split; [reflexivity|].
  split; intros H.
  - specialize (H (fun _ : unit => Sample.failing 5 503 2) (Sample.opts 1 0)
                  (mkUse tt 0 None) (mkUse tt 1000 None)).
    vm_compute in H. discriminate.
  - specialize (H (Sample.failing 5 503 2) (Sample.opts 1 0)
                  (mkUse tt 0 None) (mkUse tt 1000 None)).
    vm_compute in H. discriminate.
Qed.

(** ** C3 *)

Lemma giveUp_error_selected_witness :
  exists e n,
    adjacent (5, EvCatch e n) (5, EvError 1)
      (fst (body (retryableFuncWithBackoff Sample.backoff
                    (fun _ : unit => Sample.failing 5 503 1)
                    (Sample.countOnly 0))
              (mkUse tt 0 None) (mkClosure 0 None))) /\
    (wantRetry (Sample.countOnly 0) e = true -> 0 <= n) /\
    1 = (if wantRetry (Sample.countOnly 0) e then n + 1 else n).
Proof.
  apply (proj2 (giveUp_error_selected Sample.backoff (Sample.countOnly 0)
                  [] (fun _ : unit => Sample.failing 5 503 1)
                  (mkUse tt 0 None) (mkUse tt 0 None) (mkClosure 0 None))
           5 1).
  vm_compute. auto.
Defined.

(** The claim as first stated fails: with [totalRetry = 0] the first failure
    finds the count at 0, and [errorSelector] is given 1. *)
Lemma giveUp_error_selected_counterexample :
  fst (once (retryableFuncWithBackoff Sample.backoff
               (fun _ : unit => Sample.failing 5 503 1) (Sample.countOnly 0))
         (mkUse tt 0 None))
  = [(0, EvSubscribe); (5, EvCatch 503 0); (5, EvError 1)] /\
  ~ (forall (o : Options (Err := Z))
            (fn : unit -> list (Producer (Err := Z) (Val := Z)))
            (u : Use unit) (t e' : Z),
       In (t, EvError e')
         (fst (once (retryableFuncWithBackoff Sample.backoff fn o) u)) ->
       exists e n,
         adjacent (t, EvCatch e n) (t, EvError e')
           (fst (once (retryableFuncWithBackoff Sample.backoff fn o) u)) /\
         match errorSelector o with
         | Some f => e' = f e n
         | None => e' = e
         end).
Proof.
  split; [reflexivity|]. intros H.
  destruct (H (Sample.countOnly 0) (fun _ : unit => Sample.failing 5 503 1)
              (mkUse tt 0 None) 5 1) as (e & n & [a [b A]] & S).
  - vm_compute. auto.
  - vm_compute in A, S. subst n.
    destruct a as [|x [|y [|z a]]]; inversion A.
    destruct a; discriminate.
Qed.

(** ** C4 *)



(** ** C5 *)


(** ** C6 *)


(** ** C7 *)



(** ** C8 *)

Lemma touch_when_delay_elapses_witness :
  adjacent (105, EvTouch) (105, EvSubscribe)
    (fst (body (retryableFuncWithBackoff Sample.backoff
                  (fun _ : unit => Sample.failing 5 503 2) (Sample.opts 1 150))
            (mkUse tt 0 None) (mkClosure 0 None))) /\
  exists t0 d,
    In (t0, EvTimer d)
      (fst (body (retryableFuncWithBackoff Sample.backoff
                    (fun _ : unit => Sample.failing 5 503 2)
                    (Sample.opts 1 150))
              (mkUse tt 0 None) (mkClosure 0 None))) /\
    105 = t0 + hostDelay d.
Proof.
  apply (proj2 (proj2 (touch_when_delay_elapses Sample.backoff
                         (Sample.opts 1 150) []
                         (fun _ : unit => Sample.failing 5 503 2)
                         (mkUse tt 0 None) (mkUse tt 0 None)
                         (mkClosure 0 None)))
           105).
  vm_compute. auto 10.
Defined.

(** The claim as first stated fails: the debounce timer is touched when the
    delay elapses, before the producer is instantiated again.  Here the
    second instantiation fails in turn: no value and no completion is ever
    logged, and the timer has been touched all the same.  Were it touched
    only once a retried instantiation has sent a value or completed, a log
    could not hold more touches than values and completions. *)
Lemma touch_when_delay_elapses_counterexample :
  fst (once (retryableFuncWithBackoff Sample.backoff
               (fun _ : unit => Sample.failing 5 503 2) (Sample.opts 1 150))
         (mkUse tt 0 None))
  = [(0, EvSubscribe); (5, EvCatch 503 0); (5, EvOnRetry 503 1);
     (5, EvTimer 100); (105, EvTouch); (105, EvSubscribe);
     (110, EvCatch 503 1); (110, EvError 503)] /\
  ~ (forall (o : Options (Err := Z))
            (fn : unit -> list (Producer (Err := Z) (Val := Z)))
            (u : Use unit),
       (touches (fst (once (retryableFuncWithBackoff Sample.backoff fn o) u))
        <= count isProduced
             (fst (once (retryableFuncWithBackoff Sample.backoff fn o) u)))%nat)
  /\
  ~ (forall (o : Options (Err := Z))
            (obs : list (Producer (Err := Z) (Val := Z))) (u : Use unit),
       (touches (fst (once (retryWithBackoff Sample.backoff obs o) u))
        <= count isProduced
             (fst (once (retryWithBackoff Sample.backoff obs o) u)))%nat).
Proof.
  split; [reflexivity|]. split; intros H.
  - specialize (H (Sample.opts 1 150) (fun _ : unit => Sample.failing 5 503 2)
                  (mkUse tt 0 None)).
    vm_compute in H. lia.
  - specialize (H (Sample.opts 1 150) (Sample.failing 5 503 2)
                  (mkUse tt 0 None)).
    vm_compute in H. lia.
Qed.

(** ** C9 *)

Lemma cancel_during_delay_witness :
  (forall x,
     In x (fst (body (retryableFuncWithBackoff Sample.backoff
                        (fun _ : unit => Sample.failing 5 503 2)
                        (Sample.opts 1 150))
                  (mkUse tt 0 (Some 50)) (mkClosure 0 None))) ->
     fst x <= 50) /\
  exists r,
    [(50, EvUnsubscribe)] = r ++ [(50, @EvUnsubscribe Z Z)] /\
    forall x, In x r -> snd x = EvReset.
Proof.
  destruct (proj2 (cancel_during_delay Sample.backoff (Sample.opts 1 150) []
                     (fun _ : unit => Sample.failing 5 503 2)
                     (mkUse tt 0 None) (mkUse tt 0 (Some 50))
                     (mkClosure 0 None) 50)
              eq_refl ltac:(simpl; lia)) as [S W].
  split; [exact S|].
  apply (W [(0, EvSubscribe); (5, EvCatch 503 0); (5, EvOnRetry 503 1)]
           [(50, EvUnsubscribe)] 5 100); [reflexivity|simpl; lia].
Defined.

(** ** C10 *)



(** * The further properties on examples *)

(** ** X1 *)

Lemma failure_decided_witness :
  caught
    (fst (body (retryableFuncWithBackoff Sample.backoff
                  (fun _ : unit => Sample.failing 5 503 2) (Sample.opts 1 0))
            (mkUse tt 0 None) (mkClosure 0 None)))
  = failuresMet None [0; 105] (Sample.failing 5 503 2) /\
  failuresMet None [0; 105] (Sample.failing 5 503 2) = [(5, 503); (110, 503)] /\
  adjacent (5, EvCatch 503 0) (5, EvOnRetry 503 1)
    (fst (body (retryableFuncWithBackoff Sample.backoff
                  (fun _ : unit => Sample.failing 5 503 2) (Sample.opts 1 0))
            (mkUse tt 0 None) (mkClosure 0 None))) /\
  adjacent (5, EvOnRetry 503 1) (5, EvTimer 100)
    (fst (body (retryableFuncWithBackoff Sample.backoff
                  (fun _ : unit => Sample.failing 5 503 2) (Sample.opts 1 0))
            (mkUse tt 0 None) (mkClosure 0 None))).
Proof.
  pose proof (failure_decided Sample.backoff (Sample.opts 1 0) []
                (fun _ : unit => Sample.failing 5 503 2)
                (mkUse tt 0 None) (mkUse tt 0 None) (mkClosure 0 None))
    as [_ [H D]].
  split; [exact H|]. split; [reflexivity|].
  apply (D 5 503 0). vm_compute. auto.
Defined.

(** ** X2 *)

(** The use ends at 110 with an error; the debounce timeout armed at 105
    is still pending, due at 1105. *)
Lemma ends_once_witness :
  (exists a,
     fst (body (retryableFuncWithBackoff Sample.backoff
                  (fun _ : unit => Sample.failing 5 503 2)
                  (Sample.opts 1 1000))
            (mkUse tt 0 None) (mkClosure 0 None))
     = a ++ [(110, EvError 503)] /\
     forall y, In y a -> isTerminal y = false) /\
  110 < 1105.
Proof.
  destruct (proj2 (ends_once Sample.backoff (Sample.opts 1 1000) []
                     (fun _ : unit => Sample.failing 5 503 2)
                     (mkUse tt 0 None) (mkUse tt 0 None) (mkClosure 0 None))
              (110, EvError 503)) as [F P]; [vm_compute; auto 10|reflexivity|].
  split; [exact F|exact (P 1105 eq_refl)].
Defined.

(** ** X3 *)


(** ** X4 *)

Lemma retries_per_reset_witness :
  retries
    (fst (body (retryableFuncWithBackoff Sample.backoff
                  (fun _ : unit => Sample.failing 5 503 2) (Sample.opts 0 150))
            (mkUse tt 0 None) (mkClosure 0 None))) = 0%nat.
Proof.
  apply (proj2 (proj2 (retries_per_reset Sample.backoff (Sample.opts 0 150) []
                         (fun _ : unit => Sample.failing 5 503 2)
                         (mkUse tt 0 None) (mkUse tt 0 None)
                         (mkClosure 0 None)))); simpl; lia.
Defined.

(** ** X5 *)


(** ** X6 *)


(** ** X7 *)

Lemma values_forwarded_witness :
  flat_map sent
    (firstn
       (attemptsMade
          (fst (body (retryableFuncWithBackoff Sample.backoff
                        (fun _ : unit => Stream.flaky) (Sample.opts 1 0))
                  (mkUse tt 0 None) (mkClosure 0 None))))
       Stream.flaky)
  = values
      (fst (body (retryableFuncWithBackoff Sample.backoff
                    (fun _ : unit => Stream.flaky) (Sample.opts 1 0))
              (mkUse tt 0 None) (mkClosure 0 None))).
Proof.
  destruct (proj2 (values_forwarded Sample.backoff (Sample.opts 1 0) []
                     (fun _ : unit => Stream.flaky)
                     (mkUse tt 0 None) (mkUse tt 0 None) (mkClosure 0 None)))
    as (rest & S & N).
  rewrite (N eq_refl), app_nil_r in S. exact S.
Defined.

(** ** X8 *)


(** With [resetDelay = 2^31] the host fires the debounce timeout 1 ms
    after it is armed: the condition of X8 does not hold, and each failure
    finds the count at 0. *)
Lemma late_reset_example :
  hostDelay (2 ^ 31) = 1 /\
  fst (once (retryableFuncWithBackoff Sample.backoff
               (fun _ : unit => Sample.failing 200 503 2)
               (Sample.opts 1 (2 ^ 31)))
         (mkUse tt 0 None))
  = [(0, EvSubscribe); (200, EvCatch 503 0); (200, EvOnRetry 503 1);
     (200, EvTimer 100); (300, EvTouch); (300, EvSubscribe); (301, EvReset);
     (500, EvCatch 503 0); (500, EvOnRetry 503 1); (500, EvTimer 100);
     (600, EvTouch); (600, EvSubscribe); (601, EvReset)].
Proof. split; reflexivity. Qed.

(** ** X9 *)

Lemma timeout_survives_witness :
  timer
    (snd (body (retryableFuncWithBackoff Sample.backoff
                  (fun _ : unit => Sample.failing 5 503 2)
                  (Sample.opts 1 1000))
            (mkUse tt 0 (Some 50)) (mkClosure 1 (Some 400))))
  = Some 400.
Proof.
  apply (proj2 (timeout_survives Sample.backoff (Sample.opts 1 1000) []
                  (fun _ : unit => Sample.failing 5 503 2)
                  (mkUse tt 0 None) (mkUse tt 0 (Some 50))
                  (mkClosure 1 (Some 400)))); reflexivity.
Defined.

(** * The image tip of [Progressbar] *)

Section Tip.

Import PrimFloat Progressbar.

Context {Data : Type}.

Lemma findIndex_Some {A : Type} (f : A -> bool) (l : list A) :
  forall i, findIndex f l = Some i ->
    exists before x after,
      l = before ++ x :: after /\ length before = i /\ f x = true /\
      forall y, In y before -> f y = false.
Proof.
  induction l as [|a l IH]; simpl; intros i H; [discriminate|].
  destruct (f a) eqn:F.
  - injection H as <-. exists [], a, l. repeat split; [assumption|].
    intros y [].
  - destruct (findIndex f l) as [j|]; [|discriminate]. injection H as <-.
    destruct (IH j eq_refl) as (before & x & after & -> & L & Fx & B).
    exists (a :: before), x, after. simpl. repeat split; try assumption.
    + now rewrite L.
    + intros y [<-|Hy]; [assumption|now apply B].
Qed.

Lemma findIndex_None {A : Type} (f : A -> bool) (l : list A) :
  findIndex f l = None -> forall y, In y l -> f y = false.
Proof.
  induction l as [|a l IH]; simpl; intros H y; [intros []|].
  destruct (f a) eqn:F; [discriminate|].
  destruct (findIndex f l); [discriminate|].
  intros [<-|Hy]; [assumption|now apply IH].
Qed.

Lemma entryBefore_Some (images : list (option (@Image Data))) (i : nat)
    (im : Image) :
  entryBefore images i = Some im ->
  exists before after,
    images = before ++ Some im :: after /\ S (length before) = i.
Proof.
  destruct i as [|j]; simpl; [discriminate|].
  destruct (nth_error images j) as [entry|] eqn:N; [|discriminate].
  intros ->. apply nth_error_split in N.
  destruct N as (before & after & -> & L).
  exists before, after. split; [reflexivity|now rewrite L].
Qed.

(** X10.  The image of the tip is the entry just before the first image
    later than the pointer.  A call of [showImageTip(ts, clientX)] either
    leaves the state as it is, or shows at [clientX] the picture of an
    entry of [props.images] such that no entry up to and including it is an
    image with [image.ts > ts * 1000], and such that the entry that follows
    it, if there is one, is an image with [image.ts > ts * 1000]. *)
Theorem tip_image_selected (images : option (list (option (@Image Data))))
    (ts_ clientX : number) (st : State) :
  let t := (ts_ * 1000)%float in
  showImageTip images ts_ clientX st = st \/
  exists imgs before im after,
    images = Some imgs /\ imgs = before ++ Some im :: after /\
    showImageTip images ts_ clientX st
    = mkState true clientX (Some (data im)) /\
    (forall e, In e (before ++ [Some im]) -> laterThan t e = false) /\
    (after = [] \/
     exists next rest, after = Some next :: rest /\ ltb t (ts next) = true).
Proof.
  intros t. unfold showImageTip. destruct images as [imgs|]; [|now left].
  destruct (length imgs =? 0)%nat; [now left|]. fold t.
  destruct (findIndex (laterThan t) imgs) as [i|] eqn:F.
  - destruct (entryBefore imgs i) as [im|] eqn:E; [right|now left].
    apply entryBefore_Some in E. destruct E as (before & after & -> & L).
    apply findIndex_Some in F.
    destruct F as (b2 & x & a2 & S & L2 & Fx & B).
    assert (P : b2 = before ++ [Some im] /\ x :: a2 = after).
    { replace (before ++ Some im :: after)
        with ((before ++ [Some im]) ++ after) in S
        by (now rewrite <- app_assoc).
      assert (L3 : length (before ++ [Some im]) = length b2)
        by (rewrite length_app; simpl; lia).
      revert L3 S. generalize (before ++ [Some im]). clear.
      intros l. revert b2. induction l as [|y l IH]; intros [|z b2]; simpl;
        intros L S; try discriminate.
      - now split.
      - injection S as -> S. injection L as L.
        destruct (IH _ L S) as [-> <-]. now split. }
    destruct P as [-> <-].
    exists (before ++ Some im :: x :: a2), before, im, (x :: a2).
    repeat split; [exact B|]. right.
    destruct x as [next|]; [|discriminate Fx]. now exists next, a2.
  - destruct (entryBefore imgs (length imgs)) as [im|] eqn:E; [right|now left].
    apply entryBefore_Some in E. destruct E as (before & after & -> & L).
    rewrite length_app in L. simpl in L.
    destruct after as [|? ?]; [|simpl in L; lia].
    exists (before ++ [Some im]), before, im, [].
    repeat split; [|now left]. now apply findIndex_None.
Qed.

(** X11.  When every entry of [props.images] is an image, a tip appears
    exactly when the first image is not later than the pointer: with the
    pointer before the first image, [showImageTip] shows nothing and leaves
    the state, and so a tip shown earlier, as it is. *)
Theorem tip_shown_iff (first : @Image Data) (more : list Image)
    (ts_ clientX : number) (st : State) :
  let shown :=
    showImageTip (Some (map Some (first :: more))) ts_ clientX st in
  (ltb (ts_ * 1000)%float (ts first) = true -> shown = st) /\
  (ltb (ts_ * 1000)%float (ts first) = false ->
   imageTipVisible shown = true /\ imageTipPosition shown = clientX /\
   exists im, In im (first :: more) /\ image shown = Some (data im)).
Proof.
  cbv zeta. unfold showImageTip.
  change (length (map Some (first :: more)) =? 0)%nat with false.
  cbv iota. split; intros L.
  - cbn [map findIndex laterThan]. now rewrite L.
  - set (t := (ts_ * 1000)%float) in *.
    assert (E : forall i, (i <= length (first :: more))%nat -> (0 < i)%nat ->
              exists im, entryBefore (map Some (first :: more)) i = Some im
                         /\ In im (first :: more)).
    { intros [|j] Hj Hi; [lia|]. cbn [entryBefore].
      destruct (nth_error (first :: more) j) as [im|] eqn:N.
      - exists im. rewrite nth_error_map, N. split; [reflexivity|].
        eapply nth_error_In; eassumption.
      - apply nth_error_None in N. lia. }
    destruct (findIndex (laterThan t) (map Some (first :: more)))
      as [i|] eqn:F.
    + destruct i as [|j].
      { cbn [map findIndex laterThan] in F. rewrite L in F.
        destruct (findIndex _ _); discriminate. }
      apply findIndex_Some in F as F'.
      destruct F' as (b & x & a & Sp & Lb & _).
      assert (Hj : (S j <= length (first :: more))%nat).
      { rewrite <- (length_map Some), Sp, length_app. simpl. lia. }
      destruct (E (S j) Hj ltac:(lia)) as (im & -> & I).
      cbn [imageTipVisible imageTipPosition image]. eauto.
    + rewrite length_map.
      destruct (E (length (first :: more)) (Nat.le_refl _)
                  ltac:(simpl; lia)) as (im & -> & I).
      cbn [imageTipVisible imageTipPosition image]. eauto.
Qed.

End Tip.

(** * Time fragments *)

Section Fragments.

Import Ascii String PrimFloat FloatAxioms FloatOps SpecFloat TimeFragment.
Local Open Scope string_scope.

(** ** Strings *)

Lemma split_nonempty (sep : ascii) (s : string) : split sep s <> [].
Proof.
  destruct s as [|c s]; simpl; [discriminate|].
  destruct (Ascii.eqb c sep); [discriminate|].
  destruct (split sep s); discriminate.
Qed.

(** A string in one piece holds no separator; a string in two pieces is
    the first, the separator and the second, and neither holds one. *)
Lemma split_pieces (sep : ascii) (s : string) :
  match split sep s with
  | [a] => s = a /\ indexOf sep s = -1
  | [a; b] =>
      s = a ++ String sep b /\ indexOf sep a = -1 /\ indexOf sep b = -1
  | _ => True
  end.
Proof.
  induction s as [|c s IH]; simpl; [now split|].
  destruct (Ascii.eqb_spec c sep) as [->|N].
  - pose proof (split_nonempty sep s) as NE.
    destruct (split sep s) as [|b [|b' l]]; try exact I; [congruence|].
    destruct IH as [<- I1]. now repeat split.
  - pose proof (split_nonempty sep s) as NE.
    destruct (split sep s) as [|a [|b [|b' l]]]; try exact I.
    + congruence.
    + destruct IH as [<- ->]. now split.
    + destruct IH as (-> & I1 & I2). simpl.
      apply Ascii.eqb_neq in N. rewrite N, I1. now repeat split.
Qed.

Lemma indexOf_from (c : ascii) (s : string) : -1 <= indexOf c s.
Proof.
  induction s as [|c' s IH]; simpl; [lia|].
  destruct (Ascii.eqb c' c); [lia|].
  destruct (indexOf c s =? -1)%Z; lia.
Qed.

Lemma split_app (sep : ascii) (a b : string) :
  indexOf sep a = -1 -> split sep (a ++ String sep b) = a :: split sep b.
Proof.
  induction a as [|c a IH]; simpl; intros H.
  - now rewrite Ascii.eqb_refl.
  - destruct (Ascii.eqb c sep); [discriminate|].
    pose proof (indexOf_from sep a) as G. revert H.
    destruct (indexOf sep a =? -1)%Z eqn:E; intros H; [|lia].
    apply Z.eqb_eq in E. now rewrite (IH E).
Qed.

Lemma split_whole (sep : ascii) (a : string) :
  indexOf sep a = -1 -> split sep a = [a].
Proof.
  induction a as [|c a IH]; simpl; intros H; [reflexivity|].
  destruct (Ascii.eqb c sep); [discriminate|].
  pose proof (indexOf_from sep a) as G. revert H.
  destruct (indexOf sep a =? -1)%Z eqn:E; intros H; [|lia].
  apply Z.eqb_eq in E. now rewrite (IH E).
Qed.

Lemma indexOf_absent (c : ascii) (f : ascii -> bool) (s : string) :
  f c = false -> every f s = true -> indexOf c s = -1.
Proof.
  intros F. induction s as [|c' s IH]; simpl; [reflexivity|].
  intros H. apply andb_prop in H as [H1 H2].
  destruct (Ascii.eqb_spec c' c) as [->|_]; [congruence|].
  now rewrite (IH H2).
Qed.

Lemma removeFirst_absent (p : string) (c : ascii) (f : ascii -> bool)
    (s : string) (p' : string) :
  p = String c p' -> f c = false -> every f s = true -> removeFirst p s = s.
Proof.
  intros -> F. induction s as [|c' s IH]; simpl; [reflexivity|].
  intros H. apply andb_prop in H as [H1 H2].
  destruct (Ascii.eqb_spec c c') as [->|_]; [congruence|].
  now rewrite (IH H2).
Qed.

Lemma withoutPrefix_absent (c : ascii) (p' : string) (f : ascii -> bool)
    (s : string) :
  f c = false -> every f s = true -> withoutPrefix (String c p') s = None.
Proof.
  intros F. destruct s as [|c' s]; simpl; [reflexivity|].
  intros H. apply andb_prop in H as [H1 H2].
  destruct (Ascii.eqb_spec c c') as [->|_]; [congruence|reflexivity].
Qed.

(** ** Regular expressions *)

Lemma void_not_nullable (r : regex) : void r = true -> nullable r = false.
Proof.
  induction r; simpl; intros H; try discriminate; try reflexivity.
  - apply orb_prop in H as [H|H]; [rewrite IHr1|rewrite IHr2];
      auto using andb_false_r.
  - apply andb_prop in H as [H1 H2]. now rewrite IHr1, IHr2.
Qed.

Lemma void_derive (c : ascii) (r : regex) :
  void r = true -> void (derive c r) = true.
Proof.
  induction r; simpl; intros H; try discriminate; try reflexivity.
  - apply orb_prop in H.
    destruct (nullable r1) eqn:N; simpl.
    + destruct H as [H|H].
      * apply void_not_nullable in H. congruence.
      * rewrite (IHr2 H), H. now rewrite orb_true_r.
    + destruct H as [H|H]; [now rewrite IHr1|now rewrite H, orb_true_r].
  - apply andb_prop in H as [H1 H2]. now rewrite IHr1, IHr2.
Qed.

Lemma void_matches (r : regex) (s : string) :
  void r = true -> matches r s = false.
Proof.
  revert r. induction s as [|c s IH]; simpl; intros r H.
  - now apply void_not_nullable.
  - apply IH. now apply void_derive.
Qed.

Lemma occurs_derive_void (c : ascii) (r : regex) :
  occurs r c = false -> void (derive c r) = true.
Proof.
  induction r; simpl; intros H; try reflexivity.
  - now rewrite H.
  - apply orb_false_elim in H as [H1 H2].
    destruct (nullable r1); simpl; rewrite IHr1 by assumption;
      [now rewrite IHr2|reflexivity].
  - apply orb_false_elim in H as [H1 H2]. now rewrite IHr1, IHr2.
  - now rewrite IHr.
Qed.

Lemma occurs_derive (c c' : ascii) (r : regex) :
  occurs (derive c r) c' = true -> occurs r c' = true.
Proof.
  induction r; simpl; try discriminate.
  - destruct (accepts c); discriminate.
  - destruct (nullable r1); simpl; intros H;
      repeat (apply orb_prop in H; destruct H as [H|H]);
      rewrite ?(IHr1 H), ?(IHr2 H), ?H, ?orb_true_r; reflexivity.
  - intros H. apply orb_prop in H as [H|H];
      rewrite ?(IHr1 H), ?(IHr2 H), ?orb_true_r; reflexivity.
  - intros H. apply orb_prop in H as [H|H]; auto.
Qed.

(** A string matched by [r] is made of characters that occur in [r]. *)
Lemma matches_every (r : regex) (s : string) :
  matches r s = true -> every (occurs r) s = true.
Proof.
  revert r. induction s as [|c s IH]; simpl; intros r H; [reflexivity|].
  apply andb_true_intro. split.
  - destruct (occurs r c) eqn:O; [reflexivity|].
    now rewrite (void_matches _ _ (occurs_derive_void _ _ O)) in H.
  - specialize (IH _ H). clear H. induction s as [|c' s IHs]; simpl in *;
      [reflexivity|].
    apply andb_prop in IH as [H1 H2].
    rewrite (occurs_derive _ _ _ H1). now apply IHs.
Qed.

Lemma lasts_nullable_derive (c : ascii) (r : regex) :
  nullable (derive c r) = true -> lasts r c = true.
Proof.
  induction r; simpl; try discriminate.
  - now destruct (accepts c).
  - destruct (nullable r1) eqn:N; simpl; intros H.
    + apply orb_prop in H as [H|H].
      * apply andb_prop in H as [H1 H2].
        now rewrite (IHr1 H1), H2, orb_true_r.
      * now rewrite (IHr2 H).
    + apply andb_prop in H as [H1 H2].
      now rewrite (IHr1 H1), H2, orb_true_r.
  - intros H. apply orb_prop in H as [H|H];
      rewrite ?(IHr1 H), ?(IHr2 H), ?orb_true_r; reflexivity.
  - rewrite andb_true_r. exact IHr.
Qed.

Lemma lasts_derive (c c' : ascii) (r : regex) :
  lasts (derive c r) c' = true -> lasts r c' = true.
Proof.
  induction r; simpl; try discriminate.
  - destruct (accepts c); discriminate.
  - destruct (nullable r1); simpl; intros H;
      repeat (apply orb_prop in H; destruct H as [H|H]);
      try (apply andb_prop in H; destruct H as [H1 H2]);
      rewrite ?H, ?H1, ?(IHr1 H2), ?(IHr2 H), ?orb_true_r; reflexivity.
  - intros H. apply orb_prop in H as [H|H];
      rewrite ?(IHr1 H), ?(IHr2 H), ?orb_true_r; reflexivity.
  - intros H. apply orb_prop in H as [H|H]; [assumption|].
    now apply IHr.
Qed.

(** A string matched by [r] is empty or ends with a character that may end
    [r]. *)
Lemma matches_endsWith (r : regex) (s : string) :
  matches r s = true -> s = EmptyString \/ endsWith (lasts r) s = true.
Proof.
  revert r. induction s as [|c s IH]; simpl; intros r H; [now left|right].
  destruct (IH _ H) as [->|E].
  - simpl in H. now apply lasts_nullable_derive.
  - destruct s as [|c' s]; [discriminate|].
    clear -E. revert c' E. induction s as [|c'' s IHs]; simpl; intros c' E.
    + eapply lasts_derive; eassumption.
    + now apply IHs.
Qed.

Lemma endsWith_suffix (f : ascii -> bool) (s t : string) :
  In t (suffixes s) -> endsWith f t = true -> endsWith f s = true.
Proof.
  induction s as [|c s IH]; simpl.
  - intros [<-|[]]. trivial.
  - intros [<-|H] E; [exact E|].
    specialize (IH H E). destruct s; [discriminate|assumption].
Qed.

Lemma endsWith_both (f g : ascii -> bool) (s : string) :
  endsWith f s = true -> endsWith g s = true ->
  exists c, f c = true /\ g c = true.
Proof.
  induction s as [|c s IH]; simpl; [discriminate|].
  destruct s; [now exists c|exact IH].
Qed.

(** ** The four formats *)

Lemma formats_not_empty (s : string) :
  testEnd npt s = true \/ testWhole smpte s = true \/
  testWhole wallClock s = true \/ testWhole percentage s = true ->
  s <> EmptyString.
Proof. intros H ->. vm_compute in H. intuition discriminate. Qed.

Lemma percentage_last (c : ascii) :
  lasts percentage c = true -> c = "%"%char.
Proof.
  cbn [lasts percentage Seqs Opt Plus chr digit nullable].
  destruct (Ascii.eqb_spec "%" c) as [<-|N]; [reflexivity|].
  cbn. discriminate.
Qed.

Lemma percentage_only (a : string) :
  testWhole percentage a = true ->
  a <> EmptyString /\ every (occurs percentage) a = true /\
  testEnd npt a = false /\ testWhole smpte a = false /\
  testWhole wallClock a = false.
Proof.
  intros P. assert (NE : a <> EmptyString)
    by (apply formats_not_empty; tauto).
  unfold testWhole in P. split; [exact NE|]. split; [now apply matches_every|].
  destruct (matches_endsWith _ _ P) as [E|L]; [contradiction|].
  assert (other : forall r, lasts r "%" = false -> matches r EmptyString = false ->
            forall t, In t (suffixes a) -> matches r t = false).
  { intros r R0 R1 t I. destruct (matches r t) eqn:M; [|reflexivity].
    destruct (matches_endsWith _ _ M) as [->|E]; [congruence|].
    apply (endsWith_suffix _ _ _ I) in E.
    destruct (endsWith_both _ _ _ E L) as (c & C1 & C2).
    apply percentage_last in C2. congruence. }
  repeat split.
  - unfold testEnd. destruct (existsb (matches npt) (suffixes a)) eqn:X;
      [|reflexivity].
    apply existsb_exists in X. destruct X as (t & I & M).
    rewrite (other npt eq_refl eq_refl t I) in M. discriminate.
  - apply (other smpte eq_refl eq_refl a). destruct a; simpl; auto.
  - apply (other wallClock eq_refl eq_refl a). destruct a; simpl; auto.
Qed.

(** ** Calls that return *)

Lemma bind_Return {A B : Type} (x : outcome A) (f : A -> outcome B) (b : B) :
  bind x f = Return b -> exists a, x = Return a /\ f a = Return b.
Proof. destruct x as [a|m]; simpl; [eauto|discriminate]. Qed.

Lemma assert_Return (condition : bool) (message : string) (u : unit) :
  assert condition message = Return u -> condition = true.
Proof. unfold assert. now destruct condition. Qed.

Ltac returns H :=
  repeat match type of H with
  | bind (assert _ _) _ = Return _ =>
      let u := fresh "u" in
      let A := fresh "A" in
      apply bind_Return in H; destruct H as (u & A & H);
      apply assert_Return in A
  | bind _ _ = Return _ =>
      let x := fresh "x" in
      let A := fresh "A" in
      apply bind_Return in H; destruct H as (x & A & H)
  end.


Variable parseInt : string -> Z -> number.
Variable parseFloat : string -> number.
Variable Date_parse : string -> number.

(** What the choice of a normalizer tells about the bounds. *)
Lemma chosen (s e : string) (n : Normalizer) :
  chooseNormalizer s e = Return n ->
  match n with
  | NPTTime => testEnd npt s && testEnd npt e = true
  | SMPTETime =>
      testEnd npt s && testEnd npt e = false /\
      testWhole smpte s && testWhole smpte e = true
  | WallClockTime =>
      testEnd npt s && testEnd npt e = false /\
      testWhole wallClock s && testWhole wallClock e = true
  | Percentage =>
      testEnd npt s && testEnd npt e = false /\
      testWhole percentage s && testWhole percentage e = true
  end.
Proof.
  unfold chooseNormalizer.
  destruct (testEnd npt s && testEnd npt e);
    [now intros [= <-]|].
  destruct (testWhole smpte s && testWhole smpte e);
    [now intros [= <-]|].
  destruct (testWhole wallClock s && testWhole wallClock e);
    [now intros [= <-]|].
  destruct (testWhole percentage s && testWhole percentage e);
    [now intros [= <-]|discriminate].
Qed.

Lemma chosen_not_empty (s e : string) (n : Normalizer) :
  chooseNormalizer s e = Return n -> s <> EmptyString /\ e <> EmptyString.
Proof.
  intros H. apply chosen in H.
  destruct n; [|destruct H as [_ H]..];
    apply andb_prop in H; destruct H as [Hs He];
    split; apply formats_not_empty; tauto.
Qed.

Lemma parser_two_sided (value : string) (fr : Fragment) :
  temporalMediaFragmentParser parseInt parseFloat Date_parse value
  = Return fr ->
  exists a b,
    value = a ++ "," ++ b /\ a <> EmptyString /\ b <> EmptyString /\
    indexOf "," a = -1 /\ indexOf "," b = -1.
Proof.
  unfold temporalMediaFragmentParser. intros H. returns H.
  set (components := split "," value) in *.
  destruct (chosen_not_empty _ _ _ A1) as [Ts Te].
  pose proof (split_pieces "," value) as S. fold components in S.
  destruct components as [|a [|b [|b' l]]]; simpl in A, Te;
    try discriminate; try contradiction.
  destruct S as (-> & Ia & Ib). exists a, b. repeat split; try assumption.
  intros ->. now apply Ts.
Qed.

(** X12.  Only a fragment with both a start and an end is accepted.  If
    [parseTimeFragment] returns for a string, the string is a start that is
    not empty, one comma, and an end that is not empty, with no other
    comma: a fragment with a start alone or an end alone passes the first
    check of [temporalMediaFragmentParser] but matches none of the four
    formats, since none of them matches the empty string. *)
Theorem string_fragment_two_sided (value : string) (fr : Fragment) :
  parseTimeFragment parseInt parseFloat Date_parse (AString value)
  = Return fr ->
  exists a b,
    value = a ++ "," ++ b /\ a <> EmptyString /\ b <> EmptyString /\
    indexOf "," a = -1 /\ indexOf "," b = -1.
Proof.
  unfold parseTimeFragment. intros H. apply bind_Return in H.
  destruct H as (fr0 & P & _). now apply parser_two_sided in P.
Qed.

Lemma parser_percentages (a b : string) :
  testWhole percentage a = true -> testWhole percentage b = true ->
  temporalMediaFragmentParser parseInt parseFloat Date_parse
    (a ++ "," ++ b)
  = Return {| start := VString a; end_ := VString b |}.
Proof.
  intros Pa Pb.
  destruct (percentage_only a Pa) as (Na & Ea & A1 & A2 & A3).
  destruct (percentage_only b Pb) as (Nb & Eb & _).
  assert (Ia : indexOf "," a = -1)
    by (apply (indexOf_absent _ (occurs percentage)); [reflexivity|exact Ea]).
  assert (Ib : indexOf "," b = -1)
    by (apply (indexOf_absent _ (occurs percentage)); [reflexivity|exact Eb]).
  unfold temporalMediaFragmentParser.
  change (a ++ "," ++ b) with (a ++ String "," b).
  rewrite (split_app _ _ _ Ia), (split_whole _ _ Ib).
  cbn [List.length Nat.leb item nth assert bind].
  assert (Ta : String.eqb a EmptyString = false) by now apply String.eqb_neq.
  assert (Tb : String.eqb b EmptyString = false) by now apply String.eqb_neq.
  rewrite Ta, Tb. cbn [negb orb andb assert bind].
  unfold withoutFormatName. cbn [removeOneOf].
  rewrite !(withoutPrefix_absent _ _ (occurs percentage) a) by
    (reflexivity || exact Ea).
  rewrite (removeFirst_absent "clock:" "c" (occurs percentage) a "lock:")
    by (reflexivity || exact Ea).
  unfold chooseNormalizer. rewrite A1, A2, A3, Pa, Pb.
  cbn [andb bind normalize].
  unfold normalizePercentage. rewrite Ta, Tb. reflexivity.
Qed.

(** X13.  Percentages pass through as they are written.  For a start and
    an end that both match the percentage format, [parseTimeFragment]
    returns the two strings unchanged if [parseFloat] reads a number
    between 0 and 100 in each, and throws otherwise: no other format
    claims them, and no prefix is cut off. *)
Theorem percentages_unchanged (a b : string) :
  testWhole percentage a = true -> testWhole percentage b = true ->
  parseTimeFragment parseInt parseFloat Date_parse (AString (a ++ "," ++ b))
  = (assert ((0 <=? parseFloat a)%float && (parseFloat a <=? 100)%float)
       "player: startTime should be between 0% and 100%" ;;
     assert ((0 <=? parseFloat b)%float && (parseFloat b <=? 100)%float)
       "player: endTime should be between 0% and 100%" ;;
     Return {| start := VString a; end_ := VString b |}).
Proof.
  intros Pa Pb. unfold parseTimeFragment.
  rewrite (parser_percentages a b Pa Pb). cbn [bind]. unfold withDefaults.
  cbn [start end_ isString andb].
  destruct (percentage_only a Pa) as (Na & _).
  destruct (percentage_only b Pb) as (Nb & _).
  cbn [truthy].
  apply String.eqb_neq in Na, Nb. rewrite Na, Nb. reflexivity.
Qed.

(** ** What is returned *)

Lemma ltb_not_nan (x y : number) :
  (x <? y)%float = true -> is_nan x = false /\ is_nan y = false.
Proof.
  rewrite ltb_spec. unfold is_nan. rewrite !eqb_spec.
  unfold SFltb, SFeqb, SFcompare.
  destruct (Prim2SF x) as [sx|sx| |sx mx ex],
           (Prim2SF y) as [sy|sy| |sy my ey];
    try discriminate; intros _; simpl;
    repeat match goal with
    | |- context [if ?b then _ else _] => destruct b
    end; simpl;
    rewrite ?Z.compare_refl, ?Pos.compare_refl, ?Pos.compare_cont_refl;
    simpl; auto.
Qed.

Lemma validate_Return (fr fr' : Fragment) :
  validate parseFloat fr = Return fr' ->
  fr' = fr /\
  match start fr, end_ fr with
  | VString s, VString e =>
      (0 <=? parseFloat s)%float = true /\
      (parseFloat s <=? 100)%float = true /\
      (0 <=? parseFloat e)%float = true /\
      (parseFloat e <=? 100)%float = true
  | s, e =>
      isNumberOrDate s = true /\ isNumberOrDate e = true /\
      (0 <=? toNumber s)%float = true /\
      (toNumber s <? toNumber e)%float = true
  end.
Proof.
  unfold validate.
  destruct (start fr) eqn:S; destruct (end_ fr) eqn:E; intros H; returns H;
    injection H as <-; (split; [reflexivity|]);
    repeat match goal with
    | A : _ && _ = true |- _ => apply andb_prop in A; destruct A
    end; repeat split; assumption.
Qed.

(** X14.  Nothing is returned unchecked.  Whatever its argument, a string,
    an object or nothing, a fragment that [parseTimeFragment] returns is
    either two strings in which [parseFloat] reads numbers between 0 and
    100, or two bounds that are numbers or dates with [0 <= start < end];
    in that case neither bound is [NaN], be it a number or the time of a
    date. *)
Theorem returned_fragment_checked (x : argument) (fr : Fragment) :
  parseTimeFragment parseInt parseFloat Date_parse x = Return fr ->
  match start fr, end_ fr with
  | VString s, VString e =>
      (0 <=? parseFloat s)%float = true /\
      (parseFloat s <=? 100)%float = true /\
      (0 <=? parseFloat e)%float = true /\
      (parseFloat e <=? 100)%float = true
  | s, e =>
      isNumberOrDate s = true /\ isNumberOrDate e = true /\
      (0 <=? toNumber s)%float = true /\
      (toNumber s <? toNumber e)%float = true /\
      is_nan (toNumber s) = false /\ is_nan (toNumber e) = false
  end.
Proof.
  unfold parseTimeFragment. intros H. apply bind_Return in H.
  destruct H as (fr0 & _ & H). apply validate_Return in H.
  destruct H as [-> V]. revert V.
  destruct (start (withDefaults fr0)); destruct (end_ (withDefaults fr0));
    try exact (fun V => V);
    intros (N1 & N2 & G & L); try discriminate N1; try discriminate N2;
    destruct (ltb_not_nan _ _ L) as [? ?]; repeat split; assumption.
Qed.

Lemma withDefaults_twice (fr : Fragment) :
  withDefaults (withDefaults fr) = withDefaults fr.
Proof.
  unfold withDefaults.
  destruct fr as [[| |[|]|n|s| |] [| |[|]|m|e| |]];
    cbn [start end_ isString andb truthy];
    repeat match goal with
    | |- context [String.eqb ?s EmptyString] =>
        destruct (String.eqb s EmptyString) eqn:?
    | |- context [(?n =? 0)%float] => destruct (n =? 0)%float eqn:?
    | |- context [is_nan ?n] => destruct (is_nan n) eqn:?
    end;
    cbn [start end_ isString andb negb truthy];
    repeat match goal with
    | H : ?x = _ |- context [?x] => rewrite H
    end;
    cbn [start end_ isString andb negb truthy]; try reflexivity.
Qed.

(** X15.  A fragment that has been parsed parses to itself.  If
    [parseTimeFragment] returns a fragment, calling it again on that
    fragment returns the same fragment: no default changes it and every
    check passes again. *)
Theorem parsed_fragment_fixed (x : argument) (fr : Fragment) :
  parseTimeFragment parseInt parseFloat Date_parse x = Return fr ->
  parseTimeFragment parseInt parseFloat Date_parse (AObject fr) = Return fr.
Proof.
  unfold parseTimeFragment. intros H. apply bind_Return in H.
  destruct H as (fr0 & _ & H). cbn [bind].
  destruct (validate_Return _ _ H) as [-> _].
  now rewrite withDefaults_twice.
Qed.

(** ** The name of the format *)

Lemma indexOf_app (c : ascii) (p s : string) :
  indexOf c p = -1 -> (indexOf c (p ++ s) =? -1)%Z = (indexOf c s =? -1)%Z.
Proof.
  induction p as [|c' p IH]; simpl; intros H; [reflexivity|].
  destruct (Ascii.eqb c' c); [discriminate|].
  pose proof (indexOf_from c p) as G. revert H.
  destruct (indexOf c p =? -1)%Z eqn:E; intros H; [|lia].
  apply Z.eqb_eq in E. specialize (IH E).
  pose proof (indexOf_from c (p ++ s)) as G1.
  pose proof (indexOf_from c s) as G2.
  destruct (indexOf c (p ++ s) =? -1)%Z eqn:E1;
    destruct (indexOf c s =? -1)%Z eqn:E2; try discriminate;
    try reflexivity.
  apply Z.eqb_neq in E1. apply Z.eqb_neq. lia.
Qed.

Lemma split_prefix (sep : ascii) (p s : string) :
  indexOf sep p = -1 ->
  split sep (p ++ s)
  = match split sep s with
    | first :: rest => (p ++ first) :: rest
    | [] => []
    end.
Proof.
  pose proof (split_nonempty sep s) as NE.
  induction p as [|c p IH]; simpl; intros H.
  - now destruct (split sep s).
  - destruct (Ascii.eqb c sep); [discriminate|].
    pose proof (indexOf_from sep p) as G. revert H.
    destruct (indexOf sep p =? -1)%Z eqn:E; intros H; [|lia].
    apply Z.eqb_eq in E. rewrite (IH E).
    destruct (split sep s); [congruence|reflexivity].
Qed.

Lemma split_first_digit (s : string) :
  startsWithDigit s = true ->
  exists first rest, split "," s = first :: rest /\
                     startsWithDigit first = true.
Proof.
  destruct s as [|c s]; simpl; [discriminate|]. intros D.
  destruct (Ascii.eqb_spec c ",") as [->|_]; [discriminate D|].
  pose proof (split_nonempty "," s) as NE.
  destruct (split "," s) as [|a l]; [congruence|].
  now exists (String c a), l.
Qed.

Lemma unnamed_npt (first : string) :
  startsWithDigit first = true ->
  removeOneOf ["npt:"; "npt="] first = first.
Proof.
  destruct first as [|c s]; [discriminate|]. cbn [startsWithDigit].
  intros D. cbn [removeOneOf withoutPrefix].
  destruct (Ascii.eqb_spec "n" c) as [<-|_]; [discriminate D|].
  reflexivity.
Qed.

Lemma unnamed_start (first : string) :
  startsWithDigit first = true ->
  removeOneOf ["npt:"; "npt="]
    (removeOneOf ["smpte:"; "smpte-25:"; "smpte-30:"; "smpte-30-drop:"]
       first) = first.
Proof.
  intros D.
  transitivity (removeOneOf ["npt:"; "npt="] first);
    [f_equal|now apply unnamed_npt].
  destruct first as [|c s]; [discriminate|]. cbn [startsWithDigit] in D.
  cbn [removeOneOf withoutPrefix].
  destruct (Ascii.eqb_spec "s" c) as [<-|_]; [discriminate D|].
  reflexivity.
Qed.

Lemma named_start (p first : string) :
  In p formatPrefixes -> startsWithDigit first = true ->
  removeOneOf ["npt:"; "npt="]
    (removeOneOf ["smpte:"; "smpte-25:"; "smpte-30:"; "smpte-30-drop:"]
       (p ++ first)) = first.
Proof.
  intros I D. simpl in I.
  destruct I as [<-|[<-|[<-|[<-|[<-|[<-|[]]]]]]];
    try reflexivity;
    (transitivity (removeOneOf ["npt:"; "npt="] first);
     [reflexivity|now apply unnamed_npt]).
Qed.

(** X16.  The name of the format in front of the start is dropped without
    being looked at.  For a string that begins with a digit, writing
    [smpte:], [smpte-25:], [smpte-30:], [smpte-30-drop:], [npt:] or [npt=]
    in front changes nothing to what [parseTimeFragment] returns or
    throws: the format is chosen from the shape of the bounds alone. *)
Theorem start_prefix_ignored (p value : string) :
  In p formatPrefixes -> startsWithDigit value = true ->
  parseTimeFragment parseInt parseFloat Date_parse (AString (p ++ value))
  = parseTimeFragment parseInt parseFloat Date_parse (AString value).
Proof.
  intros I D. unfold parseTimeFragment. f_equal.
  unfold temporalMediaFragmentParser.
  destruct (split_first_digit value D) as (first & rest & S & F).
  assert (P : indexOf "," p = -1)
    by (simpl in I; intuition (subst; reflexivity)).
  rewrite (split_prefix "," p value P), S, (indexOf_app _ _ _ P).
  cbn [List.length item nth].
  assert (N1 : String.eqb first EmptyString = false)
    by (destruct first; [discriminate F|reflexivity]).
  assert (N2 : String.eqb (p ++ first) EmptyString = false)
    by (simpl in I; intuition (subst; reflexivity)).
  unfold withoutFormatName.
  rewrite N1, N2, (unnamed_start first F), (named_start p first I F).
  reflexivity.
Qed.

(** ** The format that is chosen *)

Lemma endsWith_last (f : ascii -> bool) (s : string) :
  endsWith f s = true ->
  exists d, f d = true /\ In (String d EmptyString) (suffixes s).
Proof.
  induction s as [|c s IH]; [discriminate|].
  destruct s as [|c' s].
  - intros H. exists c. split; [exact H|]. simpl. auto.
  - intros H. destruct (IH H) as (d & Fd & I). exists d.
    split; [exact Fd|]. right. exact I.
Qed.

Lemma endsWith_weaken (f g : ascii -> bool) (s : string) :
  (forall c, f c = true -> g c = true) ->
  endsWith f s = true -> endsWith g s = true.
Proof.
  intros W. induction s as [|c s IH]; [discriminate|].
  destruct s as [|c' s]; [apply W|exact IH].
Qed.

Lemma endsWith_every (f g : ascii -> bool) (s : string) :
  endsWith f s = true -> every g s = true ->
  endsWith (fun c => f c && g c) s = true.
Proof.
  induction s as [|c s IH]; [discriminate|].
  destruct s as [|c' s]; cbn [endsWith every]; intros E H;
    apply andb_prop in H as [H1 H2].
  - now rewrite E, H1.
  - now apply IH.
Qed.

(** The expression for NPT is not anchored at its start: a digit at the
    end is enough. *)
Lemma npt_last_digit (s : string) :
  endsWith isDigit s = true -> testEnd npt s = true.
Proof.
  intros E. destruct (endsWith_last _ _ E) as (d & D & I).
  unfold testEnd. apply existsb_exists. exists (String d EmptyString).
  split; [exact I|].
  cbn [matches npt derive nullable Seqs Opt Plus digit chr andb orb].
  rewrite D. cbn [nullable andb orb]. now rewrite ?orb_true_r.
Qed.

Lemma smpte_last (c : ascii) : lasts smpte c = true -> isDigit c = true.
Proof.
  cbn [lasts smpte Seqs Opt Plus chr digit nullable andb orb].
  destruct (isDigit c); [reflexivity|]. cbn. now rewrite ?andb_false_r.
Qed.

Lemma wallClock_last (c : ascii) :
  lasts wallClock c = true -> isDigit c = true \/ notZ c = false.
Proof.
  unfold notZ. rewrite Ascii.eqb_sym.
  cbn [lasts wallClock Seqs Times Opt Plus chr digit nullable andb orb].
  destruct (isDigit c); [now left|].
  destruct (Ascii.eqb "Z" c); [now right|].
  cbn. rewrite ?andb_false_r. discriminate.
Qed.

Lemma smpte_is_npt (s : string) :
  testWhole smpte s = true -> testEnd npt s = true.
Proof.
  intros M. apply npt_last_digit.
  destruct (matches_endsWith _ _ M) as [->|E]; [discriminate M|].
  exact (endsWith_weaken _ _ _ smpte_last E).
Qed.

Lemma wallClock_is_npt (s : string) :
  every notZ s = true -> testWhole wallClock s = true ->
  testEnd npt s = true.
Proof.
  intros Z M. apply npt_last_digit.
  destruct (matches_endsWith _ _ M) as [->|E]; [discriminate M|].
  apply (endsWith_every _ _ _ E) in Z. revert Z. apply endsWith_weaken.
  intros c H. apply andb_prop in H as [L N].
  destruct (wallClock_last c L) as [D|D]; [exact D|congruence].
Qed.

(** X17.  [normalizeSMPTETime] is never used.  Whatever the bounds, the
    normalizer that [temporalMediaFragmentParser] chooses is one of the
    three others: a bound that matches the SMPTE expression ends with a
    digit, so it matches the NPT expression too, which is not anchored at
    its start and is tried first. *)
Theorem smpte_never_chosen (start_ end_ : string) (n : Normalizer) :
  chooseNormalizer start_ end_ = Return n ->
  n = NPTTime \/ n = WallClockTime \/ n = Percentage.
Proof.
  intros H. destruct n; auto. exfalso.
  apply chosen in H. destruct H as [N S].
  apply andb_prop in S as [S1 S2].
  now rewrite (smpte_is_npt _ S1), (smpte_is_npt _ S2) in N.
Qed.

Lemma every_split (f : ascii -> bool) (sep : ascii) (s : string) :
  every f s = true -> Forall (fun piece => every f piece = true) (split sep s).
Proof.
  induction s as [|c s IH]; cbn [split every]; intros H.
  - now repeat constructor.
  - apply andb_prop in H as [H1 H2]. specialize (IH H2).
    destruct (Ascii.eqb c sep); [now constructor|].
    destruct (split sep s) as [|piece pieces].
    + constructor; [cbn [every]; now rewrite H1|constructor].
    + inversion IH; subst. constructor; [|assumption].
      cbn [every]. now rewrite H1.
Qed.

Lemma every_item (f : ascii -> bool) (pieces : list string) (i : nat) :
  Forall (fun piece => every f piece = true) pieces ->
  every f (item pieces i) = true.
Proof.
  unfold item. revert i. induction pieces as [|p l IH]; intros i H.
  - now destruct i.
  - inversion H; subst. destruct i; [assumption|now apply IH].
Qed.

Lemma every_withoutPrefix (f : ascii -> bool) (p s rest : string) :
  withoutPrefix p s = Some rest -> every f s = true -> every f rest = true.
Proof.
  revert s. induction p as [|a p IH]; intros s; cbn [withoutPrefix].
  - now intros [= ->].
  - destruct s as [|b s]; [discriminate|].
    destruct (Ascii.eqb a b); [|discriminate]. cbn [every].
    intros W H. apply andb_prop in H as [_ H]. now apply (IH s).
Qed.

Lemma every_removeOneOf (f : ascii -> bool) (ps : list string) (s : string) :
  every f s = true -> every f (removeOneOf ps s) = true.
Proof.
  intros H. induction ps as [|p ps IH]; cbn [removeOneOf]; [exact H|].
  destruct (withoutPrefix p s) as [rest|] eqn:W; [|exact IH].
  exact (every_withoutPrefix _ _ _ _ W H).
Qed.

Lemma every_removeFirst (f : ascii -> bool) (p s : string) :
  every f s = true -> every f (removeFirst p s) = true.
Proof.
  induction s as [|c s IH]; intros H.
  - destruct p; exact H.
  - destruct p as [|a p]; [exact H|].
    change (removeFirst (String a p) (String c s))
      with (match withoutPrefix (String a p) (String c s) with
            | Some rest => rest
            | None => String c (removeFirst (String a p) s)
            end).
    destruct (withoutPrefix (String a p) (String c s)) as [rest|] eqn:W.
    + exact (every_withoutPrefix _ _ _ _ W H).
    + cbn [every] in *. apply andb_prop in H as [H1 H2].
      now rewrite H1, (IH H2).
Qed.

Lemma every_withoutFormatName (f : ascii -> bool) (s : string) :
  every f s = true -> every f (withoutFormatName s) = true.
Proof.
  intros H. unfold withoutFormatName.
  now apply every_removeFirst, every_removeOneOf, every_removeOneOf.
Qed.

(** Only [normalizeWallClockTime] returns a date. *)
Lemma normalize_date (n : Normalizer) (s : string) (v : Value) :
  normalize parseInt parseFloat Date_parse n s = Return v ->
  isDate v = true -> n = WallClockTime.
Proof.
  destruct n; [| |reflexivity|]; cbn [normalize]; intros H D; exfalso.
  - unfold normalizeNPTTime in H.
    destruct (String.eqb s EmptyString); [injection H as <-; discriminate|].
    destruct (List.length (split ":" (removeLastDot s)))
      as [|[|[|[|k]]]]; try (injection H as <-; discriminate);
      returns H; injection H as <-; discriminate.
  - unfold normalizeSMPTETime in H.
    destruct (String.eqb s EmptyString); [injection H as <-; discriminate|].
    destruct (List.length (split ":" s))
      as [|[|[|[|[|k]]]]]; try (injection H as <-; discriminate);
      try destruct (indexOf "." (item (split ":" s) 3) =? -1)%Z;
      returns H; injection H as <-; discriminate.
  - unfold normalizePercentage in H.
    destruct (String.eqb s EmptyString); injection H as <-; discriminate.
Qed.

(** X18.  No date without a Z.  If the letter Z does not occur in a string,
    [parseTimeFragment] never returns a [Date] for it: a wall-clock time
    that ends with its seconds, a fraction of them or an offset ends with a
    digit, so it is taken for an NPT time, the NPT expression being tried
    first and not anchored at its start. *)
Theorem no_date_without_Z (value : string) (fr : Fragment) :
  every notZ value = true ->
  parseTimeFragment parseInt parseFloat Date_parse (AString value)
  = Return fr ->
  isDate (start fr) = false /\ isDate (end_ fr) = false.
Proof.
  intros Z H. unfold parseTimeFragment in H. apply bind_Return in H.
  destruct H as (fr0 & P & V). apply validate_Return in V.
  destruct V as [-> _].
  assert (G : isDate (start fr0) = false /\ isDate (end_ fr0) = false).
  { unfold temporalMediaFragmentParser in P. returns P.
    pose proof (every_split notZ "," value Z) as Zs.
    pose proof (every_withoutFormatName _ _ (every_item _ _ 0 Zs)) as Za.
    pose proof (every_item _ _ 1 Zs) as Zb.
    set (a := withoutFormatName _) in *.
    set (b := item _ 1) in *.
    assert (N : x <> WallClockTime).
    { intros ->. apply chosen in A1. destruct A1 as [N W].
      apply andb_prop in W as [W1 W2].
      now rewrite (wallClock_is_npt _ Za W1), (wallClock_is_npt _ Zb W2)
        in N. }
    injection P as <-. cbn [start end_]. split.
    - destruct x0 as [| |[|]| | | |]; try reflexivity.
      destruct N. now apply (normalize_date _ _ _ A2).
    - destruct x1 as [| |[|]| | | |]; try reflexivity.
      destruct N. now apply (normalize_date _ _ _ A3). }
  destruct G as [G1 G2]. unfold withDefaults.
  destruct (isString (start fr0) && isString (end_ fr0));
    cbn [start end_];
    destruct (truthy (start fr0)); destruct (truthy (end_ fr0));
    now split.
Qed.

Lemma removeLastDot_same (f : ascii -> bool) (s : string) :
  f "."%char = false -> endsWith f s = true -> removeLastDot s = s.
Proof.
  intros F. induction s as [|c s IH]; [reflexivity|].
  destruct s as [|c' s].
  - cbn [endsWith removeLastDot]. intros E.
    destruct (Ascii.eqb_spec c ".") as [->|_]; [congruence|reflexivity].
  - intros E.
    change (removeLastDot (String c (String c' s)))
      with (String c (removeLastDot (String c' s))).
    f_equal. exact (IH E).
Qed.

Lemma seconds (s : string) :
  every plain s = true -> endsWith isDigit s = true ->
  normalizeNPTTime parseInt parseFloat s
  = Return (VNumber (0 * 3600 + 0 * 60 + parseFloat s)%float).
Proof.
  intros P E. unfold normalizeNPTTime.
  assert (N : String.eqb s EmptyString = false)
    by (destruct s; [discriminate E|reflexivity]).
  rewrite N, (removeLastDot_same isDigit s eq_refl E).
  rewrite (split_whole ":" s)
    by (apply (indexOf_absent _ plain); [reflexivity|exact P]).
  reflexivity.
Qed.

(** X19.  Seconds are what [parseFloat] reads.  For two bounds without a
    comma, a colon or the letter c that both end with a digit, the start
    beginning with a digit, [parseTimeFragment] takes the bounds for NPT
    times in seconds, whatever stands between the first and the last
    character: each bound is the sum, in doubles, of 0 hours, 0 minutes and
    what [parseFloat] reads in it, then given its default and checked like
    the bound of an object. *)
Theorem seconds_as_parseFloat (a b : string) :
  every plain a = true -> every plain b = true ->
  startsWithDigit a = true ->
  endsWith isDigit a = true -> endsWith isDigit b = true ->
  parseTimeFragment parseInt parseFloat Date_parse (AString (a ++ "," ++ b))
  = validate parseFloat
      (withDefaults
         {| start := VNumber (0 * 3600 + 0 * 60 + parseFloat a)%float;
            end_ := VNumber (0 * 3600 + 0 * 60 + parseFloat b)%float |}).
Proof.
  intros Pa Pb Sa Ea Eb. unfold parseTimeFragment.
  replace (temporalMediaFragmentParser parseInt parseFloat Date_parse
             (a ++ "," ++ b))
    with (Return {| start := VNumber (0 * 3600 + 0 * 60 + parseFloat a)%float;
                    end_ := VNumber (0 * 3600 + 0 * 60 + parseFloat b)%float
                 |}); [reflexivity|].
  assert (Ia : indexOf "," a = -1)
    by (apply (indexOf_absent _ plain); [reflexivity|exact Pa]).
  assert (Ib : indexOf "," b = -1)
    by (apply (indexOf_absent _ plain); [reflexivity|exact Pb]).
  unfold temporalMediaFragmentParser.
  change (a ++ "," ++ b) with (a ++ String "," b).
  rewrite (split_app _ _ _ Ia), (split_whole _ _ Ib).
  cbn [List.length Nat.leb item nth assert bind].
  assert (Ta : String.eqb a EmptyString = false)
    by (destruct a; [discriminate Ea|reflexivity]).
  assert (Tb : String.eqb b EmptyString = false)
    by (destruct b; [discriminate Eb|reflexivity]).
  rewrite Ta, Tb. cbn [negb orb andb assert bind].
  unfold withoutFormatName. rewrite (unnamed_start a Sa).
  rewrite (removeFirst_absent "clock:" "c" plain a "lock:")
    by (reflexivity || exact Pa).
  unfold chooseNormalizer.
  rewrite (npt_last_digit a Ea), (npt_last_digit b Eb).
  cbn [andb bind normalize].
  rewrite (seconds a Pa Ea), (seconds b Pb Eb). reflexivity.
Qed.

Lemma too_long (s : string) :
  s <> EmptyString -> endsWith isDigit s = true ->
  (3 < List.length (split ":" s))%nat ->
  normalizeNPTTime parseInt parseFloat s = Return (VBool false).
Proof.
  intros N E L. unfold normalizeNPTTime.
  apply String.eqb_neq in N.
  rewrite N, (removeLastDot_same isDigit s eq_refl E).
  destruct (List.length (split ":" s)) as [|[|[|[|k]]]]; try lia.
  reflexivity.
Qed.

(** X20.  A start in more than three parts is dropped.  Let the start
    begin and end with a digit, hold no comma and no letter c, and have
    more than three parts between colons, as an SMPTE time with frames has;
    let the end be seconds as in X19.  Then [parseTimeFragment] returns or
    throws what it does for the object whose start is 0 and whose end is
    the end read: [normalizeNPTTime] answers [false] for the start, which
    becomes the empty string and then the default. *)
Theorem long_start_dropped (a b : string) :
  every inBound a = true -> startsWithDigit a = true ->
  endsWith isDigit a = true ->
  (3 < List.length (split ":" a))%nat ->
  every plain b = true -> endsWith isDigit b = true ->
  parseTimeFragment parseInt parseFloat Date_parse (AString (a ++ "," ++ b))
  = parseTimeFragment parseInt parseFloat Date_parse
      (AObject
         {| start := VNumber 0%float;
            end_ := VNumber (0 * 3600 + 0 * 60 + parseFloat b)%float |}).
Proof.
  intros Pa Sa Ea La Pb Eb. unfold parseTimeFragment.
  replace (temporalMediaFragmentParser parseInt parseFloat Date_parse
             (a ++ "," ++ b))
    with (Return {| start := VString EmptyString;
                    end_ := VNumber (0 * 3600 + 0 * 60 + parseFloat b)%float
                 |}).
  { reflexivity. }
  assert (Ia : indexOf "," a = -1)
    by (apply (indexOf_absent _ inBound); [reflexivity|exact Pa]).
  assert (Ib : indexOf "," b = -1)
    by (apply (indexOf_absent _ plain); [reflexivity|exact Pb]).
  unfold temporalMediaFragmentParser.
  change (a ++ "," ++ b) with (a ++ String "," b).
  rewrite (split_app _ _ _ Ia), (split_whole _ _ Ib).
  cbn [List.length Nat.leb item nth assert bind].
  assert (Na : a <> EmptyString) by (intros ->; discriminate Ea).
  assert (Ta : String.eqb a EmptyString = false) by now apply String.eqb_neq.
  assert (Tb : String.eqb b EmptyString = false)
    by (destruct b; [discriminate Eb|reflexivity]).
  rewrite Ta, Tb. cbn [negb orb andb assert bind].
  unfold withoutFormatName. rewrite (unnamed_start a Sa).
  rewrite (removeFirst_absent "clock:" "c" inBound a "lock:")
    by (reflexivity || exact Pa).
  unfold chooseNormalizer.
  rewrite (npt_last_digit a Ea), (npt_last_digit b Eb).
  cbn [andb bind normalize].
  rewrite (too_long a Na Ea La), (seconds b Pb Eb). reflexivity.
Qed.

End Fragments.

(** * The image tip and the time fragments on examples *)

Section TipExamples.

Import PrimFloat Progressbar.

(** ** X10 *)

Lemma tip_image_selected_witness :
  exists imgs before im after,
    Some TipSample.thumbnails = Some imgs /\ imgs = before ++ Some im :: after /\
    showImageTip (Some TipSample.thumbnails) 7.5%float 40%float initialState
    = mkState true 40%float (Some (data im)) /\
    (forall e, In e (before ++ [Some im]) ->
               laterThan (7.5 * 1000)%float e = false) /\
    (after = [] \/
     exists next rest,
       after = Some next :: rest /\
       ltb (7.5 * 1000)%float (ts next) = true).
Proof.
  destruct (tip_image_selected (Some TipSample.thumbnails) 7.5%float 40%float
              initialState) as [H|H]; [discriminate H|exact H].
Defined.

(** ** X11 *)

Lemma tip_shown_iff_witness :
  showImageTip
    (Some (map Some [mkImage 1000%float 1%nat; mkImage 5000%float 2%nat]))
    0.5%float 40%float (mkState true 12%float (Some 7%nat))
  = mkState true 12%float (Some 7%nat) /\
  imageTipVisible
    (showImageTip
       (Some (map Some [mkImage 1000%float 1%nat; mkImage 5000%float 2%nat]))
       2%float 40%float initialState) = true.
Proof.
  split.
  - apply (proj1 (tip_shown_iff (mkImage 1000%float 1%nat)
                    [mkImage 5000%float 2%nat] 0.5%float 40%float
                    (mkState true 12%float (Some 7%nat)))).
    reflexivity.
  - apply (proj2 (tip_shown_iff (mkImage 1000%float 1%nat)
                    [mkImage 5000%float 2%nat] 2%float 40%float
                    initialState)).
    reflexivity.
Defined.

End TipExamples.

Section FragmentExamples.

Import Ascii String PrimFloat TimeFragment.
Local Open Scope string_scope.

(** ** X12 *)

Lemma string_fragment_two_sided_witness :
  exists a b,
    "10,20" = a ++ "," ++ b /\ a <> EmptyString /\ b <> EmptyString /\
    indexOf "," a = -1 /\ indexOf "," b = -1.
Proof.
  apply (string_fragment_two_sided TimeSample.parseInt TimeSample.parseFloat
           TimeSample.Date_parse "10,20"
           {| start := VNumber 10%float; end_ := VNumber 20%float |}).
  reflexivity.
Defined.

(** ** X13 *)

Lemma percentages_unchanged_witness :
  parseTimeFragment TimeSample.parseInt TimeSample.parseFloat
    TimeSample.Date_parse (AString ("10%" ++ "," ++ "90.5 %"))
  = (assert ((0 <=? TimeSample.parseFloat "10%")%float
             && (TimeSample.parseFloat "10%" <=? 100)%float)
       "player: startTime should be between 0% and 100%" ;;
     assert ((0 <=? TimeSample.parseFloat "90.5 %")%float
             && (TimeSample.parseFloat "90.5 %" <=? 100)%float)
       "player: endTime should be between 0% and 100%" ;;
     Return {| start := VString "10%"; end_ := VString "90.5 %" |}).
Proof.
  apply (percentages_unchanged TimeSample.parseInt TimeSample.parseFloat
           TimeSample.Date_parse "10%" "90.5 %"); reflexivity.
Defined.

(** ** X14 *)

Lemma returned_fragment_checked_witness :
  isNumberOrDate (VNumber 0%float) = true /\
  isNumberOrDate (VDate 1000%float) = true /\
  (0 <=? toNumber (VNumber 0%float))%float = true /\
  (toNumber (VNumber 0%float) <? toNumber (VDate 1000%float))%float = true /\
  is_nan (toNumber (VNumber 0%float)) = false /\
  is_nan (toNumber (VDate 1000%float)) = false.
Proof.
  exact (returned_fragment_checked TimeSample.parseInt TimeSample.parseFloat
           TimeSample.Date_parse
           (AObject {| start := VNull; end_ := VDate 1000%float |})
           {| start := VNumber 0%float; end_ := VDate 1000%float |} eq_refl).
Defined.

(** ** X15 *)

Lemma parsed_fragment_fixed_witness :
  parseTimeFragment TimeSample.parseInt TimeSample.parseFloat
    TimeSample.Date_parse
    (AObject {| start := VNumber 0%float; end_ := VNumber infinity |})
  = Return {| start := VNumber 0%float; end_ := VNumber infinity |}.
Proof.
  apply (parsed_fragment_fixed TimeSample.parseInt TimeSample.parseFloat
           TimeSample.Date_parse AFalsy). reflexivity.
Defined.

(** ** X16 *)

Lemma start_prefix_ignored_witness :
  parseTimeFragment TimeSample.parseInt TimeSample.parseFloat
    TimeSample.Date_parse (AString ("smpte-25:" ++ "10,20"))
  = parseTimeFragment TimeSample.parseInt TimeSample.parseFloat
      TimeSample.Date_parse (AString "10,20").
Proof.
  apply (start_prefix_ignored TimeSample.parseInt TimeSample.parseFloat
           TimeSample.Date_parse "smpte-25:" "10,20");
    [simpl; auto|reflexivity].
Defined.

(** ** X17 *)

Lemma smpte_never_chosen_witness :
  NPTTime = NPTTime \/ NPTTime = WallClockTime \/ NPTTime = Percentage.
Proof.
  apply (smpte_never_chosen "12:34:56:10" "12:34:58:10" NPTTime).
  reflexivity.
Defined.

(** ** X18 *)

Lemma no_date_without_Z_witness :
  isDate (VNumber 10%float) = false /\ isDate (VNumber 20%float) = false.
Proof.
  apply (no_date_without_Z TimeSample.parseInt TimeSample.parseFloat
           TimeSample.Date_parse "10,20"
           {| start := VNumber 10%float; end_ := VNumber 20%float |});
    reflexivity.
Defined.

(** ** X19 *)

Lemma seconds_as_parseFloat_witness :
  parseTimeFragment TimeSample.parseInt TimeSample.parseFloat
    TimeSample.Date_parse (AString ("12ab9" ++ "," ++ "20"))
  = validate TimeSample.parseFloat
      (withDefaults
         {| start :=
              VNumber (0 * 3600 + 0 * 60 + TimeSample.parseFloat "12ab9")%float;
            end_ :=
              VNumber (0 * 3600 + 0 * 60 + TimeSample.parseFloat "20")%float
         |}).
Proof.
  apply (seconds_as_parseFloat TimeSample.parseInt TimeSample.parseFloat
           TimeSample.Date_parse "12ab9" "20"); reflexivity.
Defined.

(** ** X20 *)

Lemma long_start_dropped_witness :
  parseTimeFragment TimeSample.parseInt TimeSample.parseFloat
    TimeSample.Date_parse (AString ("12:34:56:10" ++ "," ++ "20"))
  = parseTimeFragment TimeSample.parseInt TimeSample.parseFloat
      TimeSample.Date_parse
      (AObject
         {| start := VNumber 0%float;
            end_ :=
              VNumber (0 * 3600 + 0 * 60 + TimeSample.parseFloat "20")%float
         |}).
Proof.
  apply (long_start_dropped TimeSample.parseInt TimeSample.parseFloat
           TimeSample.Date_parse "12:34:56:10" "20");
    solve [reflexivity | simpl; lia].
Defined.

End FragmentExamples.
